(** * OBJRenderer: the OBJ mesh loader and the renderer's resource lifecycle

    A shallow embedding of [Content/OBJRenderer.cpp]:
    - [OBJRenderer::parseOBJ]: the line reader, the record dispatch and the
      centring-and-scaling pass over the parsed vertices;
    - [OBJRenderer::CreateDeviceDependentResources]: the task graph that
      creates the shaders and the buffers and finally sets the ready flag;
    - [OBJRenderer::Render]: the calls issued on the device context.

    [FLOAT] is IEEE-754 binary32 with round-to-nearest-even, taken from the
    Standard Library's [SpecFloat] at precision 24 and maximal exponent 128.
    [UINT] is a 32-bit unsigned integer, kept as a [Z] with its wrap-around
    written out. *)

From Stdlib Require Import ZArith List String Ascii Bool Lia.
From Stdlib Require Import Floats.SpecFloat.
From Stdlib Require Import DecimalString DecimalPos.
Import ListNotations.

Local Open Scope Z_scope.

(* ===================================================================== *)
(** ** Outcomes of a C++ computation *)
(* ===================================================================== *)

(** The exceptions [std::stoi] and [std::stof] can throw. *)
Inductive exn : Type :=
| invalid_argument
| out_of_range.

(** The accesses of [parseOBJ] that C++ leaves undefined when the sequence
    they touch is too short. *)
Inductive undefined_access : Type :=
| back_of_empty_vector      (* vertices.back() with vertices.empty() *)
| dereference_of_end        (* *max_element(first, last, ...) with first == last *)
| subscript_out_of_range.   (* rec[i] with i >= rec.size() *)

Inductive outcome (A : Type) : Type :=
| Returned (a : A)
| Thrown (e : exn)
| Undefined (u : undefined_access).

Arguments Returned {A} a.
Arguments Thrown {A} e.
Arguments Undefined {A} u.

Definition bind {A B : Type} (c : outcome A) (k : A -> outcome B) : outcome B :=
  match c with
  | Returned a => k a
  | Thrown e => Thrown e
  | Undefined u => Undefined u
  end.

Declare Scope outcome_scope.
Delimit Scope outcome_scope with outcome.
Notation "x <- c ;; k" := (bind c (fun x => k))
  (at level 61, c at next level, right associativity) : outcome_scope.
Local Open Scope outcome_scope.

(** A computation is well defined when it does not end in [Undefined]. *)
Definition well_defined {A : Type} (c : outcome A) : Prop :=
  match c with
  | Undefined _ => False
  | _ => True
  end.

(* ===================================================================== *)
(** ** FLOAT: binary32 arithmetic *)
(* ===================================================================== *)

Module Float32.

Definition prec : Z := 24.
Definition emax : Z := 128.

Definition FLOAT : Type := spec_float.

Definition add : FLOAT -> FLOAT -> FLOAT := SFadd prec emax.
Definition sub : FLOAT -> FLOAT -> FLOAT := SFsub prec emax.
Definition mul : FLOAT -> FLOAT -> FLOAT := SFmul prec emax.
Definition div : FLOAT -> FLOAT -> FLOAT := SFdiv prec emax.
Definition sqrt : FLOAT -> FLOAT := SFsqrt prec emax.
Definition fabs : FLOAT -> FLOAT := SFabs.
Definition ltb : FLOAT -> FLOAT -> bool := SFltb.

(** The float nearest to an integer; exact for [|z| <= 2^24]. *)
Definition of_Z (z : Z) : FLOAT := binary_normalize prec emax z 0 false.

(** The literals [2.0f] and [5.0f] of the source. *)
Definition two : FLOAT := Eval cbv in of_Z 2.
Definition five : FLOAT := Eval cbv in of_Z 5.

Definition zero : FLOAT := S754_zero false.
Definition nan : FLOAT := S754_nan.

(** [0.1f], [-0.1f], [0.2f] and [0.4f]: the floats nearest to the decimal
    fractions, obtained as correctly rounded quotients of integers. *)
Definition tenth : FLOAT := Eval cbv in div (of_Z 1) (of_Z 10).
Definition minus_tenth : FLOAT := Eval cbv in div (of_Z (-1)) (of_Z 10).
Definition fifth : FLOAT := Eval cbv in div (of_Z 1) (of_Z 5).
Definition two_fifths : FLOAT := Eval cbv in div (of_Z 2) (of_Z 5).

(** Structural equality of floats, as a boolean. *)
Definition eqb (a b : FLOAT) : bool :=
  match a, b with
  | S754_zero s, S754_zero t => Bool.eqb s t
  | S754_infinity s, S754_infinity t => Bool.eqb s t
  | S754_nan, S754_nan => true
  | S754_finite s m e, S754_finite t n f =>
      Bool.eqb s t && Pos.eqb m n && Z.eqb e f
  | _, _ => false
  end.

End Float32.

Import Float32.

(* ===================================================================== *)
(** ** The mesh data *)
(* ===================================================================== *)

Record XMFLOAT3 : Type := { x : FLOAT; y : FLOAT; z : FLOAT }.

Record VertexPositionColor : Type := { pos : XMFLOAT3; color : XMFLOAT3 }.

Definition UINT_MAX : Z := 4294967295.

(** [(UINT) i]: conversion of a signed value to 32-bit unsigned. *)
Definition to_UINT (i : Z) : Z := i mod 2 ^ 32.

(** [u - 1] on [UINT]. *)
Definition UINT_sub (u v : Z) : Z := (u - v) mod 2 ^ 32.

(** The two containers [parseOBJ] fills. *)
Record Mesh : Type := {
  vertices : list VertexPositionColor;
  indices : list Z
}.

Definition empty_mesh : Mesh := {| vertices := []; indices := [] |}.

Inductive axis : Type := AxisX | AxisY | AxisZ.

Definition coord (ax : axis) (p : XMFLOAT3) : FLOAT :=
  match ax with
  | AxisX => x p
  | AxisY => y p
  | AxisZ => z p
  end.

(* ===================================================================== *)
(** ** The standard algorithms [parseOBJ] calls *)
(* ===================================================================== *)

Section Algorithms.

Context {A : Type}.
Variable comp : A -> A -> bool.

(** [std::max_element]: the loop after [largest = first; ++first]. *)
Fixpoint max_from (largest : A) (l : list A) : A :=
  match l with
  | [] => largest
  | a :: rest => max_from (if comp largest a then a else largest) rest
  end.

(** [None] is the end iterator, returned for an empty range. *)
Definition max_element (l : list A) : option A :=
  match l with
  | [] => None
  | a :: rest => Some (max_from a rest)
  end.

(** [std::min_element]: the loop after [smallest = first; ++first]. *)
Fixpoint min_from (smallest : A) (l : list A) : A :=
  match l with
  | [] => smallest
  | a :: rest => min_from (if comp a smallest then a else smallest) rest
  end.

Definition min_element (l : list A) : option A :=
  match l with
  | [] => None
  | a :: rest => Some (min_from a rest)
  end.

(** [*it]: dereferencing the end iterator is undefined. *)
Definition deref (it : option A) : outcome A :=
  match it with
  | Some a => Returned a
  | None => Undefined dereference_of_end
  end.

(** [v.back()]: undefined on an empty vector. *)
Definition back (l : list A) : outcome A :=
  match rev l with
  | a :: _ => Returned a
  | [] => Undefined back_of_empty_vector
  end.

(** [v.back() = a], the assignment through the returned reference. *)
Definition set_back (l : list A) (a : A) : outcome (list A) :=
  match rev l with
  | _ :: front => Returned (rev front ++ [a])
  | [] => Undefined back_of_empty_vector
  end.

(** [v[i]] of a [std::vector]. *)
Definition subscript (l : list A) (i : nat) : outcome A :=
  match nth_error l i with
  | Some a => Returned a
  | None => Undefined subscript_out_of_range
  end.

End Algorithms.

(* ===================================================================== *)
(** ** Centring and scaling (the tail of [parseOBJ]) *)
(* ===================================================================== *)

(** The six comparison lambdas: [v1.pos.x < v2.pos.x] and so on. *)
Definition less (ax : axis) (v1 v2 : VertexPositionColor) : bool :=
  ltb (coord ax (pos v1)) (coord ax (pos v2)).

(** [max_element(...)->pos.x] and [min_element(...)->pos.x]. *)
Definition axis_max (ax : axis) (vs : list VertexPositionColor) : outcome FLOAT :=
  v <- deref (max_element (less ax) vs) ;; Returned (coord ax (pos v)).

Definition axis_min (ax : axis) (vs : list VertexPositionColor) : outcome FLOAT :=
  v <- deref (min_element (less ax) vs) ;; Returned (coord ax (pos v)).

(** One turn of the final loop: [pos.x -= avgX; pos.x /= 5.0f * delX;] and
    the same for [y] and [z]; the colour is not touched. *)
Definition rescale (avgX delX avgY delY avgZ delZ : FLOAT)
    (v : VertexPositionColor) : VertexPositionColor :=
  {| pos := {| x := div (sub (x (pos v)) avgX) (mul five delX);
               y := div (sub (y (pos v)) avgY) (mul five delY);
               z := div (sub (z (pos v)) avgZ) (mul five delZ) |};
     color := color v |}.

(** Lines 417-439: the six extremum scans, the spans and centres, then the
    loop over all vertices. *)
Definition normalize (vs : list VertexPositionColor)
    : outcome (list VertexPositionColor) :=
  maxX <- axis_max AxisX vs ;;
  maxY <- axis_max AxisY vs ;;
  maxZ <- axis_max AxisZ vs ;;
  minX <- axis_min AxisX vs ;;
  minY <- axis_min AxisY vs ;;
  minZ <- axis_min AxisZ vs ;;
  let delX := fabs (sub maxX minX) in
  let delY := fabs (sub maxY minY) in
  let delZ := fabs (sub maxZ minZ) in
  let avgX := div (add maxX minX) two in
  let avgY := div (add maxY minY) two in
  let avgZ := div (add maxZ minZ) two in
  Returned (map (rescale avgX delX avgY delY avgZ delZ) vs).

(** The quantities the properties recompute on the output positions. *)
Definition recomputed_center (ax : axis) (vs : list VertexPositionColor)
    : outcome FLOAT :=
  hi <- axis_max ax vs ;;
  lo <- axis_min ax vs ;;
  Returned (div (add hi lo) two).

Definition recomputed_span (ax : axis) (vs : list VertexPositionColor)
    : outcome FLOAT :=
  hi <- axis_max ax vs ;;
  lo <- axis_min ax vs ;;
  Returned (sub hi lo).

(** The span of the input positions, before normalization. *)
Definition original_span := recomputed_span.

(** Span on one axis after the normalization pass. *)
Definition normalized_span (ax : axis) (vs : list VertexPositionColor)
    : outcome FLOAT :=
  vs' <- normalize vs ;; recomputed_span ax vs'.

(** Moving every position by [t] along one axis. *)
Definition translate (ax : axis) (t : FLOAT) (v : VertexPositionColor)
    : VertexPositionColor :=
  let p := pos v in
  {| pos := match ax with
            | AxisX => {| x := add (x p) t; y := y p; z := z p |}
            | AxisY => {| x := x p; y := add (y p) t; z := z p |}
            | AxisZ => {| x := x p; y := y p; z := add (z p) t |}
            end;
     color := color v |}.

(* ===================================================================== *)
(** ** Strings: [getline], [find_first_of], [substr], [stoi] *)
(* ===================================================================== *)

Definition newline : ascii := ascii_of_nat 10.
Definition space : ascii := " "%char.
Definition hash : ascii := "#"%char.
Definition slash : ascii := "/"%char.

(** The three tags of the dispatch: [vn("vn")], [v("v")] and [f("f")]. *)
Definition vn_tag : string := "vn"%string.
Definition v_tag : string := "v"%string.
Definition f_tag : string := "f"%string.

(** One successful [getline(in, line, delim)] on a stream whose unread part
    is [s]: the characters before the first [delim], and what is left
    unread after it (the delimiter is extracted and dropped). *)
Fixpoint read_until (delim : ascii) (s : string) : string * string :=
  match s with
  | EmptyString => (EmptyString, EmptyString)
  | String c rest =>
      if Ascii.eqb c delim then (EmptyString, rest)
      else let (l, r) := read_until delim rest in (String c l, r)
  end.

(** [getline] fails (sets failbit) exactly when it extracts no character,
    that is when the stream is already at its end. *)
Definition getline (delim : ascii) (s : string) : option (string * string) :=
  match s with
  | EmptyString => None
  | _ => Some (read_until delim s)
  end.

(** All the lines a [while (in) { if (!getline(in, line, delim)) break; ... }]
    loop sees, in order. *)
Fixpoint getlines (delim : ascii) (s : string) : list string :=
  match s with
  | EmptyString => []
  | String c rest =>
      if Ascii.eqb c delim then EmptyString :: getlines delim rest
      else match getlines delim rest with
           | [] => [String c EmptyString]
           | l :: ls => String c l :: ls
           end
  end.

(** [s.find_first_of(c) != std::string::npos]. *)
Fixpoint contains (c : ascii) (s : string) : bool :=
  match s with
  | EmptyString => false
  | String d rest => Ascii.eqb d c || contains c rest
  end.

(** [s.substr(0, s.find_first_of(c))]: the whole string when [c] is absent. *)
Fixpoint before_first (c : ascii) (s : string) : string :=
  match s with
  | EmptyString => EmptyString
  | String d rest => if Ascii.eqb d c then EmptyString else String d (before_first c rest)
  end.

Definition INT_MIN : Z := - 2 ^ 31.
Definition INT_MAX : Z := 2 ^ 31 - 1.

(** [isspace] in the "C" locale. *)
Definition isspace (c : ascii) : bool :=
  let n := Z.of_N (N_of_ascii c) in
  (n =? 32) || ((9 <=? n) && (n <=? 13)).

Definition digit_value (c : ascii) : option Z :=
  let n := Z.of_N (N_of_ascii c) in
  if (48 <=? n) && (n <=? 57) then Some (n - 48) else None.

Fixpoint skip_spaces (s : string) : string :=
  match s with
  | String c rest => if isspace c then skip_spaces rest else s
  | EmptyString => s
  end.

(** The value of the longest prefix of decimal digits, [acc] being the value
    of the digits already consumed. *)
Fixpoint read_digits (s : string) (acc : Z) : Z :=
  match s with
  | String c rest =>
      match digit_value c with
      | Some d => read_digits rest (10 * acc + d)
      | None => acc
      end
  | EmptyString => acc
  end.

Definition starts_with_digit (s : string) : bool :=
  match s with
  | String c _ => match digit_value c with Some _ => true | None => false end
  | EmptyString => false
  end.

(** [std::stoi(s)]: [strtol] in base 10 (leading white space, an optional
    sign, then digits; what follows the digits is ignored), throwing
    [invalid_argument] when there is no digit and [out_of_range] when the
    value does not fit an [int]. *)
Definition stoi (s : string) : outcome Z :=
  let s1 := skip_spaces s in
  let '(negative, s2) :=
    match s1 with
    | String c rest =>
        if Ascii.eqb c "-"%char then (true, rest)
        else if Ascii.eqb c "+"%char then (false, rest)
        else (false, s1)
    | EmptyString => (false, s1)
    end in
  if starts_with_digit s2 then
    let n := read_digits s2 0 in
    let v := if negative then - n else n in
    if (v <? INT_MIN) || (INT_MAX <? v) then Thrown out_of_range
    else Returned v
  else Thrown invalid_argument.

(* ===================================================================== *)
(** ** [OBJRenderer::parseOBJ] *)
(* ===================================================================== *)

(** The input stream: whether it was opened, and the characters it yields. *)
Record ifstream : Type := { is_open : bool; content : string }.

Section ParseOBJ.

(** [std::stof] is the C library's decimal-to-binary32 conversion; it is
    taken as given: for each token either the float it returns or the
    exception it throws. *)
Variable stof_spec : string -> exn + FLOAT.

(** The value of the position of a [VertexPositionColor] declared without
    an initializer (line 370): whatever the storage holds. *)
Variable indeterminate : XMFLOAT3.

Definition stof (s : string) : outcome FLOAT :=
  match stof_spec s with
  | inl e => Thrown e
  | inr f => Returned f
  end.

(** [std::stof(rec[i])]. *)
Definition stof_at (rec : list string) (i : nat) : outcome FLOAT :=
  t <- subscript rec i ;; stof t.

(** [(UINT)std::stoi(rec[i].substr(0, rec[i].find_first_of('/'))) - 1]. *)
Definition face_index (rec : list string) (i : nat) : outcome Z :=
  t <- subscript rec i ;;
  n <- stoi (before_first slash t) ;;
  Returned (UINT_sub (to_UINT n) 1).

(** [vertices.back().pos = p]. *)
Definition set_back_pos (vs : list VertexPositionColor) (p : XMFLOAT3)
    : outcome (list VertexPositionColor) :=
  v <- back vs ;;
  set_back vs {| pos := p; color := color v |}.

(** The branch for [rec[0] == vn] (lines 360-373). *)
Definition vn_record (rec : list string) (m : Mesh) : outcome Mesh :=
  if negb (Nat.eqb (List.length rec) 4) then Returned m
  else
    nx <- stof_at rec 1 ;;
    ny <- stof_at rec 2 ;;
    nz <- stof_at rec 3 ;;
    let length := sqrt (add (add (mul nx nx) (mul ny ny)) (mul nz nz)) in
    let v := {| pos := indeterminate;
                color := {| x := div nx length;
                            y := div ny length;
                            z := div nz length |} |} in
    Returned {| vertices := vertices m ++ [v]; indices := indices m |}.

(** The branch for [rec[0] == v] (lines 374-397). *)
Definition v_record (rec : list string) (m : Mesh) : outcome Mesh :=
  if negb (Nat.eqb (List.length rec) 4) && negb (Nat.eqb (List.length rec) 7)
  then Returned m
  else if Nat.eqb (List.length rec) 7 then
    px <- stof_at rec 1 ;;
    py <- stof_at rec 2 ;;
    pz <- stof_at rec 3 ;;
    _ <- stof_at rec 4 ;;
    _ <- stof_at rec 5 ;;
    _ <- stof_at rec 6 ;;
    vs <- set_back_pos (vertices m) {| x := px; y := py; z := pz |} ;;
    Returned {| vertices := vs; indices := indices m |}
  else
    px <- stof_at rec 1 ;;
    py <- stof_at rec 2 ;;
    pz <- stof_at rec 3 ;;
    vs <- set_back_pos (vertices m) {| x := px; y := py; z := pz |} ;;
    Returned {| vertices := vs; indices := indices m |}.

(** The branch for [rec[0] == f] (lines 398-411). *)
Definition f_record (rec : list string) (m : Mesh) : outcome Mesh :=
  if negb (Nat.eqb (List.length rec) 4) then Returned m
  else
    v1 <- face_index rec 1 ;;
    v2 <- face_index rec 2 ;;
    v3 <- face_index rec 3 ;;
    Returned {| vertices := vertices m;
                indices := ((indices m ++ [v3]) ++ [v2]) ++ [v1] |}.

(** The record of a line: [None] when the line is skipped before it is
    split (empty, or holding a [#]), else its space-separated fields. *)
Definition record_of (line : string) : option (list string) :=
  if String.eqb line EmptyString || contains hash line then None
  else Some (getlines space line).

(** One turn of the reading loop, after [getline] has produced [line]
    (lines 337-411).  [Returned] is the normal end of the turn, through
    [continue] or through the end of the body. *)
Definition parse_line (line : string) (m : Mesh) : outcome Mesh :=
  match record_of line with
  | None => Returned m
  | Some rec =>
      match rec with
      | [] => Returned m
      | _ :: _ =>
          tag <- subscript rec 0 ;;
          if String.eqb tag vn_tag then vn_record rec m
          else if String.eqb tag v_tag then v_record rec m
          else if String.eqb tag f_tag then f_record rec m
          else Returned m
      end
  end.

(** The reading loop over the lines of the stream. *)
Fixpoint read_records (lines : list string) (m : Mesh) : outcome Mesh :=
  match lines with
  | [] => Returned m
  | line :: rest => m' <- parse_line line m ;; read_records rest m'
  end.

(** [parseOBJ] on the containers [m]. *)
Definition parseOBJ (input : ifstream) (m : Mesh) : outcome Mesh :=
  if negb (is_open input) then Returned m
  else
    m' <- read_records (getlines newline (content input)) m ;;
    vs <- normalize (vertices m') ;;
    Returned {| vertices := vs; indices := indices m' |}.

(** *** Shapes of lines, as the dispatch sees them *)

Definition has_tag (tag : string) (rec : list string) : bool :=
  match rec with
  | t :: _ => String.eqb t tag
  | [] => false
  end.

(** A [vn] line that reaches [push_back] unless [stof] throws. *)
Definition is_vn_record (line : string) : bool :=
  match record_of line with
  | Some rec => has_tag vn_tag rec && Nat.eqb (List.length rec) 4
  | None => false
  end.

(** A [v] line that reaches [vertices.back()] unless [stof] throws. *)
Definition is_v_record (line : string) : bool :=
  match record_of line with
  | Some rec =>
      has_tag v_tag rec
      && (Nat.eqb (List.length rec) 4 || Nat.eqb (List.length rec) 7)
  | None => false
  end.

(** A line whose tag is known but whose field count is refused. *)
Definition wrong_token_count (rec : list string) : bool :=
  (has_tag vn_tag rec && negb (Nat.eqb (List.length rec) 4))
  || (has_tag v_tag rec && negb (Nat.eqb (List.length rec) 4)
                      && negb (Nat.eqb (List.length rec) 7))
  || (has_tag f_tag rec && negb (Nat.eqb (List.length rec) 4)).

(** Every [v] record has a [vn] record somewhere before it; [seen] tells
    whether a [vn] record came before the first of [lines]. *)
Fixpoint every_v_after_vn (seen : bool) (lines : list string) : bool :=
  match lines with
  | [] => true
  | line :: rest =>
      (if is_v_record line then seen else true)
      && every_v_after_vn (seen || is_vn_record line) rest
  end.

End ParseOBJ.

(** *** Face lines as they are written *)

(** The decimal numeral of a positive integer, without sign or padding. *)
Definition numeral (p : positive) : string :=
  NilEmpty.string_of_uint (Pos.to_uint p).

(** What may follow the vertex number in a face reference: nothing, or a
    slash and the texture and normal numbers. *)
Definition reference_suffix (s : string) : bool :=
  match s with
  | EmptyString => true
  | String c _ => Ascii.eqb c slash
  end
  && negb (contains space s) && negb (contains hash s).

Definition face_reference (p : positive) (suffix : string) : string :=
  (numeral p ++ suffix)%string.

(** [f r1 r2 r3]. *)
Definition face_line (r1 r2 r3 : string) : string :=
  ("f " ++ r1 ++ " " ++ r2 ++ " " ++ r3)%string.

(** The number of decimal digits a string starts with. *)
Fixpoint count_digits (s : string) : nat :=
  match s with
  | String c rest =>
      match digit_value c with
      | Some _ => S (count_digits rest)
      | None => O
      end
  | EmptyString => O
  end.

(** [s] without its first [n] characters. *)
Fixpoint drop (n : nat) (s : string) : string :=
  match n, s with
  | S k, String _ rest => drop k rest
  | _, _ => s
  end.

(** The binary32 number nearest to [mant / 10^frac_digits], with its sign. *)
Definition make_float (negative : bool) (mant : Z) (frac_digits : nat) : FLOAT :=
  match mant with
  | Zpos p =>
      SFdiv prec emax (S754_finite negative p 0)
                      (S754_finite false (Z.to_pos (10 ^ Z.of_nat frac_digits)) 0)
  | _ => S754_zero negative
  end.

(** A stand-in for [std::stof] in the concrete runs below, where it
    instantiates [stof_spec].  It reads plain decimal literals only (an
    optional sign, digits, an optional fraction) and rounds them correctly:
    on such a token, when the value is zero or a normal binary32 number,
    this is what [std::stof] returns.  Elsewhere it is not [std::stof]: it
    stops before an exponent part, rejects [inf] and [nan], reads a
    hexadecimal literal as its leading 0, and returns a value where
    [std::stof] throws [out_of_range].  The runs below use no such token,
    and every theorem about [parseOBJ] is stated for an arbitrary
    [stof_spec]. *)
Definition decimal_stof (s : string) : exn + FLOAT :=
  let s1 := skip_spaces s in
  let '(negative, s2) :=
    match s1 with
    | String c rest =>
        if Ascii.eqb c "-"%char then (true, rest)
        else if Ascii.eqb c "+"%char then (false, rest)
        else (false, s1)
    | EmptyString => (false, s1)
    end in
  let int_digits := count_digits s2 in
  let int_part := read_digits s2 0 in
  match drop int_digits s2 with
  | String c rest =>
      if Ascii.eqb c "."%char then
        let frac_digits := count_digits rest in
        if Nat.eqb (int_digits + frac_digits) 0 then inl invalid_argument
        else inr (make_float negative (read_digits rest int_part) frac_digits)
      else if Nat.eqb int_digits 0 then inl invalid_argument
      else inr (make_float negative int_part 0)
  | EmptyString =>
      if Nat.eqb int_digits 0 then inl invalid_argument
      else inr (make_float negative int_part 0)
  end.

Definition garbage : XMFLOAT3 := {| x := nan; y := nan; z := nan |}.

Definition open_stream (text : string) : ifstream :=
  {| is_open := true; content := text |}.

Definition closed_stream : ifstream := {| is_open := false; content := EmptyString |}.

(* ===================================================================== *)
(** ** Meshes on the integer grid *)
(* ===================================================================== *)

(** The integers from [lo] to [hi]. *)
Definition zrange (lo hi : Z) : list Z :=
  map (fun n => lo + Z.of_nat n) (seq 0 (Z.to_nat (hi - lo + 1))).

(** Every position has, on axis [ax], an integer coordinate of magnitude at
    most [K]. *)
Definition on_grid (K : Z) (ax : axis) (vs : list VertexPositionColor) : Prop :=
  Forall (fun v => exists k, - K <= k <= K /\ coord ax (pos v) = of_Z k) vs.

(** The positions do not all share one coordinate on axis [ax]. *)
Definition spread (ax : axis) (vs : list VertexPositionColor) : Prop :=
  exists v w, In v vs /\ In w vs /\ coord ax (pos v) <> coord ax (pos w).

Definition vertex_at (px py pz : Z) : VertexPositionColor :=
  {| pos := {| x := of_Z px; y := of_Z py; z := of_Z pz |};
     color := {| x := zero; y := zero; z := of_Z 1 |} |}.

(** The eight corners of the cube with every coordinate +1 or -1. *)
Definition unit_cube : list VertexPositionColor :=
  [ vertex_at (-1) (-1) (-1); vertex_at 1 (-1) (-1);
    vertex_at (-1) 1 (-1);    vertex_at 1 1 (-1);
    vertex_at (-1) (-1) 1;    vertex_at 1 (-1) 1;
    vertex_at (-1) 1 1;       vertex_at 1 1 1 ].

(** Two positions three units apart on the x axis. *)
Definition segment : list VertexPositionColor :=
  [ vertex_at 0 0 0; vertex_at 3 0 0 ].

(** The rescaling of one coordinate, given the extrema [lo] and [hi] of its
    axis: what [rescale] computes from [avg] and [del]. *)
Definition rescale_coord (lo hi c : FLOAT) : FLOAT :=
  div (sub c (div (add hi lo) two)) (mul five (fabs (sub hi lo))).

(** *** Coordinates on a dyadic grid *)

(** The binary32 number nearest to [k * 2^e]; [of_Z k] is [scaled k 0]. *)
Definition scaled (k e : Z) : FLOAT := binary_normalize prec emax k e false.

(** The exponent [SpecFloat] gives to the representation of [k * 2^e]. *)
Definition cexp (k e : Z) : Z := fexp prec emax (Zdigits2 k + e).

(** The representation of [k * 2^e] when no rounding is needed: [k] has at
    most 24 bits and [e] is -149 or more. *)
Definition dyadic (k e : Z) : FLOAT :=
  match k with
  | 0 => S754_zero false
  | Zpos p =>
      S754_finite false (Z.to_pos (Zpos p * 2 ^ (e - cexp k e))) (cexp k e)
  | Zneg p =>
      S754_finite true (Z.to_pos (Zpos p * 2 ^ (e - cexp k e))) (cexp k e)
  end.

(** On axis [ax] every position has the coordinate [lo * 2^e] or
    [hi * 2^e], and both occur: the vertices lie on two opposite faces of an
    axis-aligned box. *)
Definition box_faces (ax : axis) (vs : list VertexPositionColor)
    (lo hi e : Z) : Prop :=
  Forall (fun v => coord ax (pos v) = scaled lo e
                   \/ coord ax (pos v) = scaled hi e) vs
  /\ Exists (fun v => coord ax (pos v) = scaled lo e) vs
  /\ Exists (fun v => coord ax (pos v) = scaled hi e) vs.

(** The vertex at [(px * 2^e, py * 2^e, pz * 2^e)]. *)
Definition scaled_vertex (px py pz e : Z) : VertexPositionColor :=
  {| pos := {| x := scaled px e; y := scaled py e; z := scaled pz e |};
     color := {| x := zero; y := zero; z := of_Z 1 |} |}.

(** The eight corners of the cube from [lo * 2^e] to [hi * 2^e] on every
    axis; [unit_cube] is [cube_between (-1) 1 0]. *)
Definition cube_between (lo hi e : Z) : list VertexPositionColor :=
  [ scaled_vertex lo lo lo e; scaled_vertex hi lo lo e;
    scaled_vertex lo hi lo e; scaled_vertex hi hi lo e;
    scaled_vertex lo lo hi e; scaled_vertex hi lo hi e;
    scaled_vertex lo hi hi e; scaled_vertex hi hi hi e ].

(** Centre on one axis after the normalization pass. *)
Definition normalized_center (ax : axis) (vs : list VertexPositionColor)
    : outcome FLOAT :=
  vs' <- normalize vs ;; recomputed_center ax vs'.

(** An outcome that is a raised error. *)
Definition fails_fast {A : Type} (c : outcome A) : Prop :=
  exists e, c = Thrown e.

(* ===================================================================== *)
(** ** The renderer object, its creation tasks and [Render] *)
(* ===================================================================== *)

(** A [ComPtr] member is modelled by whether it holds a resource. *)
Record OBJRenderer : Type := {
  mesh : Mesh;
  m_usingVprtShaders : bool;
  m_loadingComplete : bool;
  m_vertexShader : bool;
  m_inputLayout : bool;
  m_pixelShader : bool;
  m_geometryShader : bool;
  m_modelConstantBuffer : bool;
  m_vertexBuffer : bool;
  m_indexBuffer : bool;
  m_indexCount : Z
}.

(** [OBJRenderer::ReleaseDeviceDependentResources] (lines 305-315). *)
Definition ReleaseDeviceDependentResources (r : OBJRenderer) : OBJRenderer :=
  {| mesh := mesh r;
     m_usingVprtShaders := false;
     m_loadingComplete := false;
     m_vertexShader := false;
     m_inputLayout := false;
     m_pixelShader := false;
     m_geometryShader := false;
     m_modelConstantBuffer := false;
     m_vertexBuffer := false;
     m_indexBuffer := false;
     m_indexCount := m_indexCount r |}.

Module Lifecycle.

(** The state of a [concurrency::task]: default-constructed (never
    assigned), scheduled but not finished, finished normally, or ended by
    an exception or by the cancellation of a value-based continuation
    whose antecedent did not finish normally. *)
Inductive task_state : Type := Unassigned | Pending | Completed | Faulted.

(** The tasks of [CreateDeviceDependentResources]; [readyTask] is the last,
    unnamed continuation, the one that writes [m_loadingComplete]. *)
Record Tasks : Type := {
  loadVSTask : task_state;
  loadPSTask : task_state;
  loadGSTask : task_state;
  createVSTask : task_state;
  createPSTask : task_state;
  createGSTask : task_state;
  createOBJTask : task_state;
  readyTask : task_state
}.

Record State : Type := { renderer : OBJRenderer; tasks : Tasks }.

(** [a && b]: finished when both are, faulted as soon as one is. *)
Definition when_all (a b : task_state) : task_state :=
  match a, b with
  | Completed, Completed => Completed
  | Faulted, _ | _, Faulted => Faulted
  | _, _ => Pending
  end.

(** Line 258: the join of two or three creation tasks. *)
Definition shaderTaskGroup (s : State) : task_state :=
  if m_usingVprtShaders (renderer s)
  then when_all (createPSTask (tasks s)) (createVSTask (tasks s))
  else when_all (when_all (createPSTask (tasks s)) (createVSTask (tasks s)))
                (createGSTask (tasks s)).

(** [CreateDeviceDependentResources] up to its return (lines 168-303): the
    capability flag is stored, the reads are issued and the continuations
    are chained; nothing has run yet.  [m_loadingComplete] is not written.
    No load is assumed to be outstanding from an earlier call. *)
Definition CreateDeviceDependentResources (supportsVprt : bool)
    (r : OBJRenderer) : State :=
  {| renderer :=
       {| mesh := mesh r;
          m_usingVprtShaders := supportsVprt;
          m_loadingComplete := m_loadingComplete r;
          m_vertexShader := m_vertexShader r;
          m_inputLayout := m_inputLayout r;
          m_pixelShader := m_pixelShader r;
          m_geometryShader := m_geometryShader r;
          m_modelConstantBuffer := m_modelConstantBuffer r;
          m_vertexBuffer := m_vertexBuffer r;
          m_indexBuffer := m_indexBuffer r;
          m_indexCount := m_indexCount r |};
     tasks :=
       {| loadVSTask := Pending;
          loadPSTask := Pending;
          loadGSTask := if supportsVprt then Unassigned else Pending;
          createVSTask := Pending;
          createPSTask := Pending;
          createGSTask := if supportsVprt then Unassigned else Pending;
          createOBJTask := Pending;
          readyTask := Pending |} |}.

(** Field updates. *)
Definition with_tasks (s : State) (t : Tasks) : State :=
  {| renderer := renderer s; tasks := t |}.

Definition set_loadVS (t : Tasks) (v : task_state) : Tasks :=
  {| loadVSTask := v; loadPSTask := loadPSTask t; loadGSTask := loadGSTask t;
     createVSTask := createVSTask t; createPSTask := createPSTask t;
     createGSTask := createGSTask t; createOBJTask := createOBJTask t;
     readyTask := readyTask t |}.
Definition set_loadPS (t : Tasks) (v : task_state) : Tasks :=
  {| loadVSTask := loadVSTask t; loadPSTask := v; loadGSTask := loadGSTask t;
     createVSTask := createVSTask t; createPSTask := createPSTask t;
     createGSTask := createGSTask t; createOBJTask := createOBJTask t;
     readyTask := readyTask t |}.
Definition set_loadGS (t : Tasks) (v : task_state) : Tasks :=
  {| loadVSTask := loadVSTask t; loadPSTask := loadPSTask t; loadGSTask := v;
     createVSTask := createVSTask t; createPSTask := createPSTask t;
     createGSTask := createGSTask t; createOBJTask := createOBJTask t;
     readyTask := readyTask t |}.
Definition set_createVS (t : Tasks) (v : task_state) : Tasks :=
  {| loadVSTask := loadVSTask t; loadPSTask := loadPSTask t;
     loadGSTask := loadGSTask t;
     createVSTask := v; createPSTask := createPSTask t;
     createGSTask := createGSTask t; createOBJTask := createOBJTask t;
     readyTask := readyTask t |}.
Definition set_createPS (t : Tasks) (v : task_state) : Tasks :=
  {| loadVSTask := loadVSTask t; loadPSTask := loadPSTask t;
     loadGSTask := loadGSTask t;
     createVSTask := createVSTask t; createPSTask := v;
     createGSTask := createGSTask t; createOBJTask := createOBJTask t;
     readyTask := readyTask t |}.
Definition set_createGS (t : Tasks) (v : task_state) : Tasks :=
  {| loadVSTask := loadVSTask t; loadPSTask := loadPSTask t;
     loadGSTask := loadGSTask t;
     createVSTask := createVSTask t; createPSTask := createPSTask t;
     createGSTask := v; createOBJTask := createOBJTask t;
     readyTask := readyTask t |}.
Definition set_createOBJ (t : Tasks) (v : task_state) : Tasks :=
  {| loadVSTask := loadVSTask t; loadPSTask := loadPSTask t;
     loadGSTask := loadGSTask t;
     createVSTask := createVSTask t; createPSTask := createPSTask t;
     createGSTask := createGSTask t; createOBJTask := v;
     readyTask := readyTask t |}.
Definition set_ready (t : Tasks) (v : task_state) : Tasks :=
  {| loadVSTask := loadVSTask t; loadPSTask := loadPSTask t;
     loadGSTask := loadGSTask t;
     createVSTask := createVSTask t; createPSTask := createPSTask t;
     createGSTask := createGSTask t; createOBJTask := createOBJTask t;
     readyTask := v |}.

(** The bodies of the continuations.  Each [ok] is the success of one
    device call; [DX::ThrowIfFailed] ends the task on the first failure, so
    the calls after it are not made.  A call receives [&m_member]: taking
    the address of a [ComPtr] releases what it holds, so the member is
    empty after a call that fails and holds the new resource after one
    that succeeds. *)

(** Lines 191-217: [CreateVertexShader], then [CreateInputLayout]. *)
Definition createVS_body (ok_shader ok_layout : bool) (r : OBJRenderer)
    : OBJRenderer * task_state :=
  let r1 :=
    {| mesh := mesh r; m_usingVprtShaders := m_usingVprtShaders r;
       m_loadingComplete := m_loadingComplete r;
       m_vertexShader := ok_shader;
       m_inputLayout := if ok_shader then ok_layout else m_inputLayout r;
       m_pixelShader := m_pixelShader r;
       m_geometryShader := m_geometryShader r;
       m_modelConstantBuffer := m_modelConstantBuffer r;
       m_vertexBuffer := m_vertexBuffer r;
       m_indexBuffer := m_indexBuffer r;
       m_indexCount := m_indexCount r |} in
  (r1, if ok_shader && ok_layout then Completed else Faulted).

(** Lines 220-238: [CreatePixelShader], then the constant buffer. *)
Definition createPS_body (ok_shader ok_buffer : bool) (r : OBJRenderer)
    : OBJRenderer * task_state :=
  let r1 :=
    {| mesh := mesh r; m_usingVprtShaders := m_usingVprtShaders r;
       m_loadingComplete := m_loadingComplete r;
       m_vertexShader := m_vertexShader r;
       m_inputLayout := m_inputLayout r;
       m_pixelShader := ok_shader;
       m_geometryShader := m_geometryShader r;
       m_modelConstantBuffer :=
         if ok_shader then ok_buffer else m_modelConstantBuffer r;
       m_vertexBuffer := m_vertexBuffer r;
       m_indexBuffer := m_indexBuffer r;
       m_indexCount := m_indexCount r |} in
  (r1, if ok_shader && ok_buffer then Completed else Faulted).

(** Lines 244-254: [CreateGeometryShader]. *)
Definition createGS_body (ok_shader : bool) (r : OBJRenderer)
    : OBJRenderer * task_state :=
  let r1 :=
    {| mesh := mesh r; m_usingVprtShaders := m_usingVprtShaders r;
       m_loadingComplete := m_loadingComplete r;
       m_vertexShader := m_vertexShader r;
       m_inputLayout := m_inputLayout r;
       m_pixelShader := m_pixelShader r;
       m_geometryShader := ok_shader;
       m_modelConstantBuffer := m_modelConstantBuffer r;
       m_vertexBuffer := m_vertexBuffer r;
       m_indexBuffer := m_indexBuffer r;
       m_indexCount := m_indexCount r |} in
  (r1, if ok_shader then Completed else Faulted).

(** Lines 259-296: the vertex buffer, [m_indexCount = indices.size()],
    then the index buffer. *)
Definition createOBJ_body (ok_vertices ok_indices : bool) (r : OBJRenderer)
    : OBJRenderer * task_state :=
  let r1 :=
    {| mesh := mesh r; m_usingVprtShaders := m_usingVprtShaders r;
       m_loadingComplete := m_loadingComplete r;
       m_vertexShader := m_vertexShader r;
       m_inputLayout := m_inputLayout r;
       m_pixelShader := m_pixelShader r;
       m_geometryShader := m_geometryShader r;
       m_modelConstantBuffer := m_modelConstantBuffer r;
       m_vertexBuffer := ok_vertices;
       m_indexBuffer := if ok_vertices then ok_indices else m_indexBuffer r;
       m_indexCount :=
         if ok_vertices
         then to_UINT (Z.of_nat (List.length (indices (mesh r))))
         else m_indexCount r |} in
  (r1, if ok_vertices && ok_indices then Completed else Faulted).

(** Lines 299-302: [m_loadingComplete = true]. *)
Definition ready_body (r : OBJRenderer) : OBJRenderer :=
  {| mesh := mesh r; m_usingVprtShaders := m_usingVprtShaders r;
     m_loadingComplete := true;
     m_vertexShader := m_vertexShader r;
     m_inputLayout := m_inputLayout r;
     m_pixelShader := m_pixelShader r;
     m_geometryShader := m_geometryShader r;
     m_modelConstantBuffer := m_modelConstantBuffer r;
     m_vertexBuffer := m_vertexBuffer r;
     m_indexBuffer := m_indexBuffer r;
     m_indexCount := m_indexCount r |}.

(** One step of the task graph.  A read finishes, with its bytes or with
    an error; a continuation runs once its antecedent has finished
    normally; a continuation whose antecedent faulted is cancelled. *)
Inductive step : State -> State -> Prop :=
| read_VS s ok :
    loadVSTask (tasks s) = Pending ->
    step s (with_tasks s (set_loadVS (tasks s) (if ok : bool then Completed else Faulted)))
| read_PS s ok :
    loadPSTask (tasks s) = Pending ->
    step s (with_tasks s (set_loadPS (tasks s) (if ok : bool then Completed else Faulted)))
| read_GS s ok :
    loadGSTask (tasks s) = Pending ->
    step s (with_tasks s (set_loadGS (tasks s) (if ok : bool then Completed else Faulted)))
| run_createVS s ok1 ok2 :
    loadVSTask (tasks s) = Completed ->
    createVSTask (tasks s) = Pending ->
    step s {| renderer := fst (createVS_body ok1 ok2 (renderer s));
              tasks := set_createVS (tasks s)
                         (snd (createVS_body ok1 ok2 (renderer s))) |}
| run_createPS s ok1 ok2 :
    loadPSTask (tasks s) = Completed ->
    createPSTask (tasks s) = Pending ->
    step s {| renderer := fst (createPS_body ok1 ok2 (renderer s));
              tasks := set_createPS (tasks s)
                         (snd (createPS_body ok1 ok2 (renderer s))) |}
| run_createGS s ok :
    loadGSTask (tasks s) = Completed ->
    createGSTask (tasks s) = Pending ->
    step s {| renderer := fst (createGS_body ok (renderer s));
              tasks := set_createGS (tasks s)
                         (snd (createGS_body ok (renderer s))) |}
| run_createOBJ s ok1 ok2 :
    shaderTaskGroup s = Completed ->
    createOBJTask (tasks s) = Pending ->
    step s {| renderer := fst (createOBJ_body ok1 ok2 (renderer s));
              tasks := set_createOBJ (tasks s)
                         (snd (createOBJ_body ok1 ok2 (renderer s))) |}
| run_ready s :
    createOBJTask (tasks s) = Completed ->
    readyTask (tasks s) = Pending ->
    step s {| renderer := ready_body (renderer s);
              tasks := set_ready (tasks s) Completed |}
| cancel_createVS s :
    loadVSTask (tasks s) = Faulted ->
    createVSTask (tasks s) = Pending ->
    step s (with_tasks s (set_createVS (tasks s) Faulted))
| cancel_createPS s :
    loadPSTask (tasks s) = Faulted ->
    createPSTask (tasks s) = Pending ->
    step s (with_tasks s (set_createPS (tasks s) Faulted))
| cancel_createGS s :
    loadGSTask (tasks s) = Faulted ->
    createGSTask (tasks s) = Pending ->
    step s (with_tasks s (set_createGS (tasks s) Faulted))
| cancel_createOBJ s :
    shaderTaskGroup s = Faulted ->
    createOBJTask (tasks s) = Pending ->
    step s (with_tasks s (set_createOBJ (tasks s) Faulted))
| cancel_ready s :
    createOBJTask (tasks s) = Faulted ->
    readyTask (tasks s) = Pending ->
    step s (with_tasks s (set_ready (tasks s) Faulted)).

(** Executions: the reflexive and transitive closure of [step]. *)
Inductive steps : State -> State -> Prop :=
| steps_refl s : steps s s
| steps_step s1 s2 s3 : steps s1 s2 -> step s2 s3 -> steps s1 s3.

(** Every creation step the ready flag waits for has finished: the two
    shader tasks, the geometry-shader task when the device needs it, and
    the buffer build; and the resources they create are there. *)
Definition creation_complete (s : State) : Prop :=
  createVSTask (tasks s) = Completed
  /\ createPSTask (tasks s) = Completed
  /\ (m_usingVprtShaders (renderer s) = false ->
      createGSTask (tasks s) = Completed)
  /\ createOBJTask (tasks s) = Completed.

Definition resources_created (r : OBJRenderer) : Prop :=
  m_vertexShader r = true /\ m_inputLayout r = true
  /\ m_pixelShader r = true /\ m_modelConstantBuffer r = true
  /\ (m_usingVprtShaders r = false -> m_geometryShader r = true)
  /\ m_vertexBuffer r = true /\ m_indexBuffer r = true
  /\ m_indexCount r = to_UINT (Z.of_nat (List.length (indices (mesh r)))).

(** What holds in every state of an execution started with the flag
    clear: each finished task has left its resources, the buffer build
    finished after the shader tasks, and the flag is written by the last
    continuation only. *)
Definition invariant (s : State) : Prop :=
  let r := renderer s in
  let t := tasks s in
  (createVSTask t = Completed ->
     m_vertexShader r = true /\ m_inputLayout r = true)
  /\ (createPSTask t = Completed ->
        m_pixelShader r = true /\ m_modelConstantBuffer r = true)
  /\ (createGSTask t = Completed -> m_geometryShader r = true)
  /\ (createOBJTask t = Completed ->
        createVSTask t = Completed /\ createPSTask t = Completed
        /\ (m_usingVprtShaders r = false -> createGSTask t = Completed)
        /\ m_vertexBuffer r = true /\ m_indexBuffer r = true
        /\ m_indexCount r
           = to_UINT (Z.of_nat (List.length (indices (mesh r)))))
  /\ (readyTask t = Completed -> createOBJTask t = Completed)
  /\ (m_loadingComplete r = true -> readyTask t = Completed).

(** A renderer just released, and the state at the end of a complete
    run: the reads finish, the shader tasks run, the buffers are built,
    the flag is set. *)
Definition fresh : OBJRenderer :=
  ReleaseDeviceDependentResources
    {| mesh := {| vertices := unit_cube; indices := [2; 1; 0] |};
       m_usingVprtShaders := false; m_loadingComplete := true;
       m_vertexShader := true; m_inputLayout := true;
       m_pixelShader := true; m_geometryShader := true;
       m_modelConstantBuffer := true; m_vertexBuffer := true;
       m_indexBuffer := true; m_indexCount := 3 |}.

Definition loaded (supportsVprt : bool) : State :=
  {| renderer :=
       {| mesh := {| vertices := unit_cube; indices := [2; 1; 0] |};
          m_usingVprtShaders := supportsVprt; m_loadingComplete := true;
          m_vertexShader := true; m_inputLayout := true;
          m_pixelShader := true; m_geometryShader := negb supportsVprt;
          m_modelConstantBuffer := true; m_vertexBuffer := true;
          m_indexBuffer := true; m_indexCount := 3 |};
     tasks :=
       {| loadVSTask := Completed; loadPSTask := Completed;
          loadGSTask := if supportsVprt then Unassigned else Completed;
          createVSTask := Completed; createPSTask := Completed;
          createGSTask := if supportsVprt then Unassigned else Completed;
          createOBJTask := Completed; readyTask := Completed |} |}.

End Lifecycle.

(* ===================================================================== *)
(** ** [OBJRenderer::Render] *)
(* ===================================================================== *)

Module Draw.

(** The members a call can bind. *)
Inductive resource : Type :=
| VertexShader | InputLayout | PixelShader | GeometryShader
| ModelConstantBuffer | VertexBuffer | IndexBuffer.

Inductive format : Type := DXGI_FORMAT_R32_UINT.
Inductive topology : Type := D3D11_PRIMITIVE_TOPOLOGY_TRIANGLELIST.

(** The calls [Render] makes on the device context, with their arguments. *)
Inductive call : Type :=
| IASetVertexBuffers (startSlot numBuffers : Z) (buffer : resource)
    (stride offset : Z)
| IASetIndexBuffer (buffer : resource) (fmt : format) (offset : Z)
| IASetPrimitiveTopology (t : topology)
| IASetInputLayout (layout : resource)
| VSSetShader (shader : resource)
| VSSetConstantBuffers (startSlot numBuffers : Z) (buffer : resource)
| GSSetShader (shader : resource)
| PSSetShader (shader : resource)
| DrawIndexedInstanced (indexCountPerInstance instanceCount
    startIndexLocation baseVertexLocation startInstanceLocation : Z).

(** [sizeof(VertexPositionColor)]: two [XMFLOAT3], six 4-byte floats. *)
Definition sizeof_VertexPositionColor : Z := 24.

(** [Render] (lines 97-166): the calls it appends to those already made on
    the context. *)
Definition Render (r : OBJRenderer) (context : list call) : list call :=
  if negb (m_loadingComplete r) then context
  else
    let stride := sizeof_VertexPositionColor in
    let offset := 0 in
    let c1 := context ++ [IASetVertexBuffers 0 1 VertexBuffer stride offset] in
    let c2 := c1 ++ [IASetIndexBuffer IndexBuffer DXGI_FORMAT_R32_UINT 0] in
    let c3 := c2 ++ [IASetPrimitiveTopology D3D11_PRIMITIVE_TOPOLOGY_TRIANGLELIST] in
    let c4 := c3 ++ [IASetInputLayout InputLayout] in
    let c5 := c4 ++ [VSSetShader VertexShader] in
    let c6 := c5 ++ [VSSetConstantBuffers 0 1 ModelConstantBuffer] in
    let c7 := if negb (m_usingVprtShaders r)
              then c6 ++ [GSSetShader GeometryShader]
              else c6 in
    let c8 := c7 ++ [PSSetShader PixelShader] in
    c8 ++ [DrawIndexedInstanced (m_indexCount r) 2 0 0 0].

Definition is_draw (c : call) : bool :=
  match c with
  | DrawIndexedInstanced _ _ _ _ _ => true
  | _ => false
  end.

Definition is_GSSetShader (c : call) : bool :=
  match c with
  | GSSetShader _ => true
  | _ => false
  end.

Definition instance_count (c : call) : option Z :=
  match c with
  | DrawIndexedInstanced _ n _ _ _ => Some n
  | _ => None
  end.

(** The calls of one [Render] on a ready renderer. *)
Definition frame (r : OBJRenderer) : list call :=
  [ IASetVertexBuffers 0 1 VertexBuffer 24 0;
    IASetIndexBuffer IndexBuffer DXGI_FORMAT_R32_UINT 0;
    IASetPrimitiveTopology D3D11_PRIMITIVE_TOPOLOGY_TRIANGLELIST;
    IASetInputLayout InputLayout;
    VSSetShader VertexShader;
    VSSetConstantBuffers 0 1 ModelConstantBuffer ]
  ++ (if m_usingVprtShaders r then [] else [GSSetShader GeometryShader])
  ++ [ PSSetShader PixelShader;
       DrawIndexedInstanced (m_indexCount r) 2 0 0 0 ].

End Draw.

(** The input of a small well-formed run: two vertices and one face. *)
Definition two_vertices : string :=
  ("vn 0 0 1" ++ String newline "v 1 2 3" ++ String newline "vn 0 1 0"
   ++ String newline "v -1 0 3 1 1 1" ++ String newline "f 1 2 2")%string.

(** *** Extrema of a sequence of coordinates *)

(** [max_element] and [min_element] under [<], on the coordinates alone. *)
Definition coord_max (cs : list FLOAT) : outcome FLOAT :=
  deref (max_element ltb cs).

Definition coord_min (cs : list FLOAT) : outcome FLOAT :=
  deref (min_element ltb cs).

Definition coords (ax : axis) (vs : list VertexPositionColor) : list FLOAT :=
  map (fun v => coord ax (pos v)) vs.

(** [q] is not above [p], and is [p] unless it is below it; and the same
    downwards. *)
Definition top (p q : FLOAT) : Prop :=
  ltb p q = false /\ (ltb q p = true \/ q = p).

Definition bottom (p q : FLOAT) : Prop :=
  ltb q p = false /\ (ltb p q = true \/ q = p).

(** [lo] is the least and [hi] the greatest of the integers [ks]. *)
Definition extrema (ks : list Z) (lo hi : Z) : Prop :=
  In lo ks /\ In hi ks /\ Forall (fun k => lo <= k <= hi) ks.

(** *** Checks by enumeration over the integers of magnitude at most [K] *)

Definition all_in (K : Z) (P : Z -> bool) : bool :=
  forallb P (zrange (- K) K).

(** With extrema [lo < hi] on the grid, a coordinate between them is
    rescaled to a value from [-0.1f] to [0.1f], the extrema themselves to
    exactly these two; with [lo = hi] the rescaling is 0/0. *)
Definition rescale_check_at (lo hi k : Z) : bool :=
  let q := rescale_coord (of_Z lo) (of_Z hi) (of_Z k) in
  if (lo <=? k) && (k <=? hi) then
    if lo <? hi then
      negb (ltb tenth q) && (ltb q tenth || Float32.eqb q tenth)
      && negb (ltb q minus_tenth)
      && (ltb minus_tenth q || Float32.eqb q minus_tenth)
      && implb (k =? hi) (Float32.eqb q tenth)
      && implb (k =? lo) (Float32.eqb q minus_tenth)
    else Float32.eqb q nan
  else true.

(* ===================================================================== *)
(** ** Written inputs, line classes and the constructor *)
(* ===================================================================== *)

(** The text whose lines are [lines], each one ended by [delim]. *)
Fixpoint join_lines (delim : ascii) (lines : list string) : string :=
  match lines with
  | [] => EmptyString
  | line :: rest => (line ++ String delim (join_lines delim rest))%string
  end.

(** The decimal writing of an integer: a minus sign for a negative one. *)
Definition print_int (n : Z) : string :=
  match n with
  | Z0 => "0"%string
  | Zpos p => numeral p
  | Zneg p => String "-"%char (numeral p)
  end.

(** The range test of [stoi] on the value it has read. *)
Definition int_or_out_of_range (v : Z) : outcome Z :=
  if (v <? INT_MIN) || (INT_MAX <? v) then Thrown out_of_range
  else Returned v.

(** An [f] line that reaches the three [push_back] unless [stoi] throws. *)
Definition is_f_record (line : string) : bool :=
  match record_of line with
  | Some rec => has_tag f_tag rec && Nat.eqb (List.length rec) 4
  | None => false
  end.

(** A line the dispatch does nothing with: empty, holding a [#], or with a
    first field that is none of the three tags. *)
Definition ignored_line (line : string) : bool :=
  match record_of line with
  | None => true
  | Some rec =>
      negb (has_tag vn_tag rec) && negb (has_tag v_tag rec)
      && negb (has_tag f_tag rec)
  end.

(** How many of [lines] satisfy [p]. *)
Definition count_lines (p : string -> bool) (lines : list string) : nat :=
  List.length (filter p lines).

(** A field [stoi] finds no number in, once cut at its first slash: empty,
    or starting with a character that is no white space, sign or digit. *)
Definition no_number (t : string) : bool :=
  match before_first slash t with
  | EmptyString => true
  | String c _ =>
      negb (isspace c) && negb (Ascii.eqb c "-"%char)
      && negb (Ascii.eqb c "+"%char)
      && match digit_value c with Some _ => false | None => true end
  end.

(** [a <= b] on floats, false on NaN. *)
Definition leb (a b : FLOAT) : bool := SFleb a b.

(** The members of a renderer with the containers replaced. *)
Definition with_mesh (r : OBJRenderer) (m : Mesh) : OBJRenderer :=
  {| mesh := m;
     m_usingVprtShaders := m_usingVprtShaders r;
     m_loadingComplete := m_loadingComplete r;
     m_vertexShader := m_vertexShader r;
     m_inputLayout := m_inputLayout r;
     m_pixelShader := m_pixelShader r;
     m_geometryShader := m_geometryShader r;
     m_modelConstantBuffer := m_modelConstantBuffer r;
     m_vertexBuffer := m_vertexBuffer r;
     m_indexBuffer := m_indexBuffer r;
     m_indexCount := m_indexCount r |}.

(** The constructor (lines 12-25): [parseOBJ(in)] on the containers, then
    [CreateDeviceDependentResources()].  [members] holds the values the
    members have when the body starts; [input] is the stream opened on the
    file; an exception or an undefined access of [parseOBJ] ends the
    construction. *)
Definition OBJRenderer_ctor (stof_spec : string -> exn + FLOAT)
    (indeterminate : XMFLOAT3) (members : OBJRenderer) (supportsVprt : bool)
    (input : ifstream) : outcome Lifecycle.State :=
  m <- parseOBJ stof_spec indeterminate input (mesh members) ;;
  Returned (Lifecycle.CreateDeviceDependentResources supportsVprt
              (with_mesh members m)).

(** *** Counting and ordering the tasks *)

Definition is_pending (t : Lifecycle.task_state) : nat :=
  match t with
  | Lifecycle.Pending => 1
  | _ => 0
  end.

(** The number of tasks that have not finished yet. *)
Definition pending_tasks (s : Lifecycle.State) : nat :=
  let t := Lifecycle.tasks s in
  (is_pending (Lifecycle.loadVSTask t) + is_pending (Lifecycle.loadPSTask t)
   + is_pending (Lifecycle.loadGSTask t) + is_pending (Lifecycle.createVSTask t)
   + is_pending (Lifecycle.createPSTask t) + is_pending (Lifecycle.createGSTask t)
   + is_pending (Lifecycle.createOBJTask t) + is_pending (Lifecycle.readyTask t))%nat.

(** Some task ended by an exception or was cancelled. *)
Definition some_task_faulted (s : Lifecycle.State) : Prop :=
  let t := Lifecycle.tasks s in
  Lifecycle.loadVSTask t = Lifecycle.Faulted
  \/ Lifecycle.loadPSTask t = Lifecycle.Faulted
  \/ Lifecycle.loadGSTask t = Lifecycle.Faulted
  \/ Lifecycle.createVSTask t = Lifecycle.Faulted
  \/ Lifecycle.createPSTask t = Lifecycle.Faulted
  \/ Lifecycle.createGSTask t = Lifecycle.Faulted
  \/ Lifecycle.createOBJTask t = Lifecycle.Faulted
  \/ Lifecycle.readyTask t = Lifecycle.Faulted.

(** The order the graph imposes: a continuation has finished only after its
    antecedent; the geometry-shader tasks exist exactly without the
    capability. *)
Definition causal (s : Lifecycle.State) : Prop :=
  let r := Lifecycle.renderer s in
  let t := Lifecycle.tasks s in
  (Lifecycle.createVSTask t = Lifecycle.Completed ->
     Lifecycle.loadVSTask t = Lifecycle.Completed)
  /\ (Lifecycle.createPSTask t = Lifecycle.Completed ->
        Lifecycle.loadPSTask t = Lifecycle.Completed)
  /\ (Lifecycle.createGSTask t = Lifecycle.Completed ->
        Lifecycle.loadGSTask t = Lifecycle.Completed)
  /\ (m_usingVprtShaders r = true ->
        Lifecycle.loadGSTask t = Lifecycle.Unassigned
        /\ Lifecycle.createGSTask t = Lifecycle.Unassigned)
  /\ (Lifecycle.createOBJTask t = Lifecycle.Completed ->
        Lifecycle.createVSTask t = Lifecycle.Completed
        /\ Lifecycle.createPSTask t = Lifecycle.Completed
        /\ (m_usingVprtShaders r = false ->
            Lifecycle.createGSTask t = Lifecycle.Completed))
  /\ (Lifecycle.readyTask t = Lifecycle.Completed ->
        Lifecycle.createOBJTask t = Lifecycle.Completed)
  /\ (m_loadingComplete r = true ->
        Lifecycle.readyTask t = Lifecycle.Completed).

(** Executions counted by their number of steps. *)
Inductive run : nat -> Lifecycle.State -> Lifecycle.State -> Prop :=
| run_none s : run 0 s s
| run_more n s1 s2 s3 :
    run n s1 s2 -> Lifecycle.step s2 s3 -> run (S n) s1 s3.

(** A value of type [UINT]. *)
Definition is_UINT (i : Z) : Prop := 0 <= i <= UINT_MAX.

(* ===================================================================== *)
(** * Properties *)
(* ===================================================================== *)

(** ** Reading lines *)

(** [getlines] is the sequence of results of the successive [getline]
    calls, up to the first one that fails. *)
Lemma getlines_getline (delim : ascii) (s : string) :
  getlines delim s =
    match getline delim s with
    | None => []
    | Some (line, rest) => line :: getlines delim rest
    end.
Proof.
  induction s as [|c rest IH]; [reflexivity|].
  cbn [getlines getline read_until].
  destruct (Ascii.eqb c delim); [reflexivity|].
  rewrite IH. destruct rest as [|c' rest']; [reflexivity|].
  cbn [getline]. now destruct (read_until delim (String c' rest')).
Qed.

(** ** The record dispatch *)

Section RecordFacts.

Variable stof_spec : string -> exn + FLOAT.
Variable indeterminate : XMFLOAT3.

Lemma parse_line_record (line : string) (rec : list string) (m : Mesh) :
  record_of line = Some rec ->
  parse_line stof_spec indeterminate line m =
    match rec with
    | [] => Returned m
    | tag :: _ =>
        if String.eqb tag vn_tag then vn_record stof_spec indeterminate rec m
        else if String.eqb tag v_tag then v_record stof_spec rec m
        else if String.eqb tag f_tag then f_record rec m
        else Returned m
    end.
Proof.
  intros Hrec. unfold parse_line. rewrite Hrec.
  destruct rec as [|tag rest]; reflexivity.
Qed.

Lemma parse_line_skipped (line : string) (m : Mesh) :
  record_of line = None ->
  parse_line stof_spec indeterminate line m = Returned m.
Proof. intros Hrec. unfold parse_line. now rewrite Hrec. Qed.

Lemma face_index_value (rec : list string) (i : nat) (t : string) (n : Z) :
  nth_error rec i = Some t ->
  stoi (before_first slash t) = Returned n ->
  face_index rec i = Returned ((n - 1) mod 2 ^ 32).
Proof.
  intros Ht Hn. unfold face_index, subscript. rewrite Ht. cbn [bind].
  rewrite Hn. cbn [bind]. unfold UINT_sub, to_UINT.
  now rewrite Zminus_mod_idemp_l.
Qed.

Lemma f_record_indices (t1 t2 t3 : string) (n1 n2 n3 : Z) (m : Mesh) :
  stoi (before_first slash t1) = Returned n1 ->
  stoi (before_first slash t2) = Returned n2 ->
  stoi (before_first slash t3) = Returned n3 ->
  f_record [f_tag; t1; t2; t3] m =
    Returned {| vertices := vertices m;
                indices := indices m ++ [(n3 - 1) mod 2 ^ 32;
                                         (n2 - 1) mod 2 ^ 32;
                                         (n1 - 1) mod 2 ^ 32] |}.
Proof.
  intros H1 H2 H3. unfold f_record. cbn [List.length Nat.eqb negb].
  rewrite (face_index_value [f_tag; t1; t2; t3] 1 t1 n1 eq_refl H1).
  rewrite (face_index_value [f_tag; t1; t2; t3] 2 t2 n2 eq_refl H2).
  rewrite (face_index_value [f_tag; t1; t2; t3] 3 t3 n3 eq_refl H3).
  cbn [bind]. now rewrite <- !app_assoc.
Qed.

Lemma face_line_indices (line t1 t2 t3 : string) (n1 n2 n3 : Z) (m : Mesh) :
  record_of line = Some [f_tag; t1; t2; t3] ->
  stoi (before_first slash t1) = Returned n1 ->
  stoi (before_first slash t2) = Returned n2 ->
  stoi (before_first slash t3) = Returned n3 ->
  parse_line stof_spec indeterminate line m =
    Returned {| vertices := vertices m;
                indices := indices m ++ [(n3 - 1) mod 2 ^ 32;
                                         (n2 - 1) mod 2 ^ 32;
                                         (n1 - 1) mod 2 ^ 32] |}.
Proof.
  intros Hrec H1 H2 H3. rewrite (parse_line_record _ _ _ Hrec).
  change (String.eqb f_tag vn_tag) with false.
  change (String.eqb f_tag v_tag) with false.
  change (String.eqb f_tag f_tag) with true. cbv iota.
  now apply f_record_indices.
Qed.

End RecordFacts.

Lemma stoi_in_int_range (s : string) (n : Z) :
  stoi s = Returned n -> INT_MIN <= n <= INT_MAX.
Proof.
  unfold stoi.
  destruct (match skip_spaces s with
            | String c rest =>
                if Ascii.eqb c "-"%char then (true, rest)
                else if Ascii.eqb c "+"%char then (false, rest)
                else (false, skip_spaces s)
            | EmptyString => (false, skip_spaces s)
            end) as [negative s2].
  destruct (starts_with_digit s2); [|discriminate].
  set (v := if negative then _ else _).
  destruct (v <? INT_MIN) eqn:Hlo; [discriminate|].
  destruct (INT_MAX <? v) eqn:Hhi; [discriminate|].
  cbn [orb]. intros [= <-].
  apply Z.ltb_ge in Hlo. apply Z.ltb_ge in Hhi. lia.
Qed.

(** *** Numerals and face lines *)

Lemma append_empty_r (s : string) : (s ++ EmptyString)%string = s.
Proof. induction s as [|c rest IH]; [reflexivity|]. cbn. now rewrite IH. Qed.

Lemma contains_app (c : ascii) (s1 s2 : string) :
  contains c (s1 ++ s2)%string = contains c s1 || contains c s2.
Proof.
  induction s1 as [|d rest IH]; [reflexivity|].
  cbn [append contains]. rewrite IH. now rewrite orb_assoc.
Qed.

Lemma before_first_absent (c : ascii) (s : string) :
  contains c s = false -> before_first c s = s.
Proof.
  induction s as [|d rest IH]; [reflexivity|]. cbn [contains before_first].
  intros H. apply orb_false_iff in H as [Hd Hrest].
  rewrite Hd. now rewrite IH.
Qed.

Lemma before_first_app (c : ascii) (s1 s2 : string) :
  contains c s1 = false ->
  before_first c (s1 ++ String c s2)%string = s1.
Proof.
  induction s1 as [|d rest IH]; cbn [append contains before_first].
  - intros _. now rewrite Ascii.eqb_refl.
  - intros H. apply orb_false_iff in H as [Hd Hrest].
    rewrite Hd. now rewrite IH.
Qed.

Lemma getlines_app_delim (delim : ascii) (s1 s2 : string) :
  contains delim s1 = false ->
  getlines delim (s1 ++ String delim s2)%string = s1 :: getlines delim s2.
Proof.
  induction s1 as [|d rest IH]; cbn [append contains getlines].
  - intros _. now rewrite Ascii.eqb_refl.
  - intros H. apply orb_false_iff in H as [Hd Hrest].
    rewrite Hd. now rewrite IH.
Qed.

Lemma getlines_one (delim : ascii) (s : string) :
  contains delim s = false -> s <> EmptyString ->
  getlines delim s = [s].
Proof.
  induction s as [|d rest IH]; [congruence|]. cbn [contains getlines].
  intros H _. apply orb_false_iff in H as [Hd Hrest]. rewrite Hd.
  destruct rest as [|d' rest']; [reflexivity|].
  now rewrite IH.
Qed.

Lemma read_digits_acc (d : Decimal.uint) :
  forall acc : positive,
    read_digits (NilEmpty.string_of_uint d) (Zpos acc)
    = Zpos (Pos.of_uint_acc d acc).
Proof.
  induction d; intros acc; cbn [NilEmpty.string_of_uint Pos.of_uint_acc];
    [reflexivity|..];
    cbn [read_digits];
    match goal with
    | |- context [digit_value ?c] =>
        let v := eval vm_compute in (digit_value c) in
        change (digit_value c) with v
    end;
    cbv iota; rewrite <- IHd; f_equal; lia.
Qed.

Lemma read_digits_uint (d : Decimal.uint) :
  read_digits (NilEmpty.string_of_uint d) 0 = Z.of_N (Pos.of_uint d).
Proof.
  induction d; cbn [NilEmpty.string_of_uint Pos.of_uint];
    [reflexivity|..];
    cbn [read_digits];
    match goal with
    | |- context [digit_value ?c] =>
        let v := eval vm_compute in (digit_value c) in
        change (digit_value c) with v
    end;
    cbv iota; [exact IHd | exact (read_digits_acc d _) ..].
Qed.

Lemma numeral_no_char (c : ascii) (d : Decimal.uint) :
  digit_value c = None ->
  contains c (NilEmpty.string_of_uint d) = false.
Proof.
  intros Hc.
  induction d; cbn [NilEmpty.string_of_uint contains]; [reflexivity|..];
    rewrite IHd, orb_false_r;
    match goal with
    | |- Ascii.eqb ?k c = false =>
        destruct (Ascii.eqb_spec k c) as [<- |]; [discriminate Hc | reflexivity]
    end.
Qed.

Lemma numeral_not_empty (p : positive) : numeral p <> EmptyString.
Proof.
  unfold numeral. pose proof (Unsigned.to_uint_nonnil p) as Hnil.
  destruct (Pos.to_uint p); [congruence | discriminate..].
Qed.

Lemma stoi_numeral (p : positive) :
  Zpos p <= INT_MAX -> stoi (numeral p) = Returned (Zpos p).
Proof.
  intros Hmax. unfold numeral.
  pose proof (Unsigned.to_uint_nonnil p) as Hnil.
  pose proof (read_digits_uint (Pos.to_uint p)) as Hread.
  rewrite Unsigned.of_to in Hread. cbn [Z.of_N] in Hread.
  unfold stoi.
  assert (Hhead :
    skip_spaces (NilEmpty.string_of_uint (Pos.to_uint p))
    = NilEmpty.string_of_uint (Pos.to_uint p)
    /\ starts_with_digit (NilEmpty.string_of_uint (Pos.to_uint p)) = true
    /\ match NilEmpty.string_of_uint (Pos.to_uint p) with
       | String c rest =>
           if Ascii.eqb c "-"%char then (true, rest)
           else if Ascii.eqb c "+"%char then (false, rest)
           else (false, NilEmpty.string_of_uint (Pos.to_uint p))
       | EmptyString => (false, NilEmpty.string_of_uint (Pos.to_uint p))
       end = (false, NilEmpty.string_of_uint (Pos.to_uint p))).
  { destruct (Pos.to_uint p); [congruence | repeat split; reflexivity ..]. }
  destruct Hhead as (Hskip & Hdigit & Hsign).
  rewrite Hskip, Hsign, Hdigit, Hread.
  replace (Zpos p <? INT_MIN) with false
    by (symmetry; apply Z.ltb_ge; unfold INT_MIN; lia).
  replace (INT_MAX <? Zpos p) with false
    by (symmetry; apply Z.ltb_ge; lia).
  reflexivity.
Qed.

Lemma face_reference_facts (p : positive) (suffix : string) :
  reference_suffix suffix = true ->
  contains space (face_reference p suffix) = false
  /\ contains hash (face_reference p suffix) = false
  /\ face_reference p suffix <> EmptyString
  /\ before_first slash (face_reference p suffix) = numeral p.
Proof.
  unfold reference_suffix, face_reference. intros Hsuffix.
  apply andb_true_iff in Hsuffix as [Hsuffix Hhash].
  apply andb_true_iff in Hsuffix as [Hhead Hspace].
  apply negb_true_iff in Hhash, Hspace.
  repeat split.
  - rewrite contains_app, Hspace. unfold numeral.
    now rewrite (numeral_no_char space _ eq_refl).
  - rewrite contains_app, Hhash. unfold numeral.
    now rewrite (numeral_no_char hash _ eq_refl).
  - pose proof (numeral_not_empty p).
    destruct (numeral p); [congruence | discriminate].
  - destruct suffix as [|c rest].
    + rewrite append_empty_r. apply before_first_absent.
      exact (numeral_no_char slash _ eq_refl).
    + apply Ascii.eqb_eq in Hhead. subst c. apply before_first_app.
      exact (numeral_no_char slash _ eq_refl).
Qed.

Lemma face_line_record (r1 r2 r3 : string) :
  contains space r1 = false -> contains hash r1 = false ->
  contains space r2 = false -> contains hash r2 = false ->
  contains space r3 = false -> contains hash r3 = false ->
  r3 <> EmptyString ->
  record_of (face_line r1 r2 r3) = Some [f_tag; r1; r2; r3].
Proof.
  intros S1 H1 S2 H2 S3 H3 Hne. unfold record_of, face_line.
  cbn [append].
  assert (Hhash : contains hash
                    (String "f" (String " "
                       (r1 ++ String " " (r2 ++ String " " r3))))%string
                  = false).
  { cbn [contains]. rewrite contains_app. cbn [contains].
    rewrite contains_app. cbn [contains]. rewrite H1, H2, H3. reflexivity. }
  rewrite Hhash. cbn [String.eqb orb].
  cbn [getlines]. change (Ascii.eqb "f" space) with false.
  change (Ascii.eqb " " space) with true. cbv iota.
  rewrite (getlines_app_delim space r1 _ S1).
  rewrite (getlines_app_delim space r2 _ S2).
  now rewrite (getlines_one space r3 S3 Hne).
Qed.

(** C2.  The line [f 1/2/3 4/5/6 7/8/9] appends the three indices 6, 3, 0 in
    that order: the references 1, 4, 7 cut at the first slash, each made
    0-based, stored in reverse. *)
Theorem face_line_1_4_7 (stof_spec : string -> exn + FLOAT)
    (indeterminate : XMFLOAT3) (m : Mesh) :
  parse_line stof_spec indeterminate "f 1/2/3 4/5/6 7/8/9"%string m =
    Returned {| vertices := vertices m; indices := indices m ++ [6; 3; 0] |}.
Proof.
  exact (face_line_indices stof_spec indeterminate
           "f 1/2/3 4/5/6 7/8/9"%string "1/2/3"%string "4/5/6"%string
           "7/8/9"%string 1 4 7 m eq_refl eq_refl eq_refl eq_refl).
Qed.

(** C2, as stated, fails: on empty containers the line does not leave the
    index sequence (6,4,1). *)
Lemma slash_face_line_is_not_6_4_1 :
  parse_line decimal_stof garbage "f 1/2/3 4/5/6 7/8/9"%string empty_mesh
  <> Returned {| vertices := []; indices := [6; 4; 1] |}.
Proof. vm_compute. discriminate. Qed.

Lemma face_record_reversed (stof_spec : string -> exn + FLOAT)
    (indeterminate : XMFLOAT3) (line t1 t2 t3 : string) (a b c : Z) (m : Mesh) :
  record_of line = Some [f_tag; t1; t2; t3] ->
  stoi (before_first slash t1) = Returned a ->
  stoi (before_first slash t2) = Returned b ->
  stoi (before_first slash t3) = Returned c ->
  1 <= a -> 1 <= b -> 1 <= c ->
  parse_line stof_spec indeterminate line m =
    Returned {| vertices := vertices m;
                indices := indices m ++ [c - 1; b - 1; a - 1] |}.
Proof.
  intros Hrec Ha Hb Hc Ha1 Hb1 Hc1.
  rewrite (face_line_indices stof_spec indeterminate line t1 t2 t3 a b c m
             Hrec Ha Hb Hc).
  pose proof (stoi_in_int_range _ _ Ha) as Ra.
  pose proof (stoi_in_int_range _ _ Hb) as Rb.
  pose proof (stoi_in_int_range _ _ Hc) as Rc.
  unfold INT_MIN, INT_MAX in *.
  rewrite !Z.mod_small by lia. reflexivity.
Qed.

(** C3.  A face line [f r1 r2 r3] whose references are the decimal numerals
    of a, b, c (positive, within [int]), each alone or followed by a slash
    and more, appends c-1, b-1, a-1 in that order to the indices and leaves
    the vertices alone. *)
Theorem face_winding_reversed (stof_spec : string -> exn + FLOAT)
    (indeterminate : XMFLOAT3) (a b c : positive) (sa sb sc : string)
    (m : Mesh) :
  Zpos a <= INT_MAX -> Zpos b <= INT_MAX -> Zpos c <= INT_MAX ->
  reference_suffix sa = true ->
  reference_suffix sb = true ->
  reference_suffix sc = true ->
  parse_line stof_spec indeterminate
    (face_line (face_reference a sa) (face_reference b sb)
               (face_reference c sc)) m
  = Returned {| vertices := vertices m;
                indices := indices m ++ [Zpos c - 1; Zpos b - 1; Zpos a - 1] |}.
Proof.
  intros Ha Hb Hc Hsa Hsb Hsc.
  destruct (face_reference_facts a sa Hsa) as (Sa & Ha' & _ & Ca).
  destruct (face_reference_facts b sb Hsb) as (Sb & Hb' & _ & Cb).
  destruct (face_reference_facts c sc Hsc) as (Sc & Hc' & Nc & Cc).
  apply (face_record_reversed stof_spec indeterminate _
           (face_reference a sa) (face_reference b sb) (face_reference c sc)).
  - now apply face_line_record.
  - rewrite Ca. now apply stoi_numeral.
  - rewrite Cb. now apply stoi_numeral.
  - rewrite Cc. now apply stoi_numeral.
  - lia.
  - lia.
  - lia.
Qed.

Lemma face_winding_reversed_witness :
  parse_line decimal_stof garbage "f 12 5/7 903//4"%string
    {| vertices := []; indices := [2; 1; 0] |}
  = Returned {| vertices := []; indices := [2; 1; 0; 902; 4; 11] |}.
Proof.
  exact (face_winding_reversed decimal_stof garbage 12 5 903
           EmptyString "/7"%string "//4"%string
           {| vertices := []; indices := [2; 1; 0] |}
           ltac:(vm_compute; discriminate) ltac:(vm_compute; discriminate)
           ltac:(vm_compute; discriminate)
           eq_refl eq_refl eq_refl).
Defined.

(** C8.  On a stream that is not open [parseOBJ] returns at once, normally,
    leaving both containers as they were: empty when they were empty. *)
Theorem unopened_stream_gives_empty_mesh (stof_spec : string -> exn + FLOAT)
    (indeterminate : XMFLOAT3) (input : ifstream) (m : Mesh) :
  is_open input = false ->
  parseOBJ stof_spec indeterminate input m = Returned m
  /\ parseOBJ stof_spec indeterminate input empty_mesh
     = Returned {| vertices := []; indices := [] |}.
Proof.
  intros Hclosed. unfold parseOBJ. rewrite Hclosed. split; reflexivity.
Qed.

Lemma unopened_stream_gives_empty_mesh_witness :
  parseOBJ decimal_stof garbage closed_stream empty_mesh = Returned empty_mesh
  /\ parseOBJ decimal_stof garbage closed_stream empty_mesh
     = Returned {| vertices := []; indices := [] |}.
Proof.
  exact (unopened_stream_gives_empty_mesh decimal_stof garbage closed_stream
           empty_mesh eq_refl).
Defined.

Lemma wrong_count_record_skipped (stof_spec : string -> exn + FLOAT)
    (indeterminate : XMFLOAT3) (line : string) (rec : list string) (m : Mesh) :
  record_of line = Some rec ->
  wrong_token_count rec = true ->
  parse_line stof_spec indeterminate line m = Returned m.
Proof.
  intros Hrec Hwrong. rewrite (parse_line_record _ _ _ _ _ Hrec).
  destruct rec as [|tag rest]; [reflexivity|].
  unfold wrong_token_count, has_tag in Hwrong.
  unfold vn_record, v_record, f_record.
  destruct (String.eqb tag vn_tag) eqn:Evn.
  - apply String.eqb_eq in Evn. subst tag.
    change (String.eqb vn_tag v_tag) with false in Hwrong.
    change (String.eqb vn_tag f_tag) with false in Hwrong.
    destruct (Nat.eqb (List.length (vn_tag :: rest)) 4);
      [discriminate Hwrong | reflexivity].
  - destruct (String.eqb tag v_tag) eqn:Ev.
    + apply String.eqb_eq in Ev. subst tag.
      change (String.eqb v_tag f_tag) with false in Hwrong.
      destruct (Nat.eqb (List.length (v_tag :: rest)) 4);
        [discriminate Hwrong|].
      destruct (Nat.eqb (List.length (v_tag :: rest)) 7);
        [discriminate Hwrong | reflexivity].
    + destruct (String.eqb tag f_tag) eqn:Ef; [|reflexivity].
      destruct (Nat.eqb (List.length (tag :: rest)) 4);
        [discriminate Hwrong | reflexivity].
Qed.

(** C9.  A line whose first field is a known tag and whose field count is
    refused ([vn] without 4 fields, [v] without 4 or 7, [f] without 4) ends
    its turn normally, with no exception, and changes neither the vertices
    nor the indices. *)
Theorem wrong_token_count_skipped (stof_spec : string -> exn + FLOAT)
    (indeterminate : XMFLOAT3) (line : string) (m : Mesh) :
  wrong_token_count (getlines space line) = true ->
  parse_line stof_spec indeterminate line m = Returned m.
Proof.
  intros Hwrong. destruct (record_of line) as [rec|] eqn:Hrec.
  - apply (wrong_count_record_skipped stof_spec indeterminate line rec m Hrec).
    unfold record_of in Hrec.
    destruct (String.eqb line EmptyString || contains hash line);
      [discriminate Hrec|].
    now injection Hrec as <-.
  - now apply parse_line_skipped.
Qed.

Lemma wrong_token_count_skipped_witness :
  parse_line decimal_stof garbage "vn 1.0 2.0"%string
    {| vertices := [vertex_at 1 2 3]; indices := [0; 0; 0] |}
  = Returned {| vertices := [vertex_at 1 2 3]; indices := [0; 0; 0] |}.
Proof.
  exact (wrong_token_count_skipped decimal_stof garbage "vn 1.0 2.0"%string
           {| vertices := [vertex_at 1 2 3]; indices := [0; 0; 0] |}
           eq_refl).
Defined.

(** C10.  The stored index of a face reference that reads n is (n - 1)
    modulo 2^32; a reference that reads 0 is stored as 4294967295, with no
    error, which is a position in no vertex sequence a [UINT] can index. *)
Theorem zero_reference_wraps (stof_spec : string -> exn + FLOAT)
    (indeterminate : XMFLOAT3) (line t1 t2 t3 : string) (n1 n2 n3 : Z)
    (m : Mesh) :
  record_of line = Some [f_tag; t1; t2; t3] ->
  stoi (before_first slash t1) = Returned n1 ->
  stoi (before_first slash t2) = Returned n2 ->
  stoi (before_first slash t3) = Returned n3 ->
  parse_line stof_spec indeterminate line m =
    Returned {| vertices := vertices m;
                indices := indices m ++ [(n3 - 1) mod 2 ^ 32;
                                         (n2 - 1) mod 2 ^ 32;
                                         (n1 - 1) mod 2 ^ 32] |}
  /\ (n1 = 0 -> (n1 - 1) mod 2 ^ 32 = 4294967295)
  /\ (n2 = 0 -> (n2 - 1) mod 2 ^ 32 = 4294967295)
  /\ (n3 = 0 -> (n3 - 1) mod 2 ^ 32 = 4294967295)
  /\ (forall vs : list VertexPositionColor,
        Z.of_nat (List.length vs) <= UINT_MAX ->
        nth_error vs (Z.to_nat 4294967295) = None).
Proof.
  intros Hrec H1 H2 H3. repeat split.
  - exact (face_line_indices stof_spec indeterminate line t1 t2 t3 n1 n2 n3 m
             Hrec H1 H2 H3).
  - intros ->. reflexivity.
  - intros ->. reflexivity.
  - intros ->. reflexivity.
  - intros vs Hlen. apply nth_error_None. unfold UINT_MAX in Hlen. lia.
Qed.

Lemma zero_reference_wraps_witness :
  parse_line decimal_stof garbage "f 0 2 3"%string empty_mesh
  = Returned {| vertices := []; indices := [2; 1; 4294967295] |}
  /\ (0 - 1) mod 2 ^ 32 = 4294967295
  /\ nth_error unit_cube (Z.to_nat 4294967295) = None.
Proof.
  destruct (zero_reference_wraps decimal_stof garbage "f 0 2 3"%string
              "0"%string "2"%string "3"%string 0 2 3 empty_mesh
              eq_refl eq_refl eq_refl eq_refl)
    as (Hline & Hwrap & _ & _ & Hbeyond).
  split; [exact Hline | split; [exact (Hwrap eq_refl)|]].
  apply Hbeyond. unfold UINT_MAX. cbn. lia.
Defined.

(* ===================================================================== *)
(** ** The creation tasks and the ready flag *)
(* ===================================================================== *)

Module LifecycleFacts.
Import Lifecycle.

Lemma when_all_completed (a b : task_state) :
  when_all a b = Completed -> a = Completed /\ b = Completed.
Proof. destruct a, b; cbn; intros H; try discriminate H; now split. Qed.

Lemma shaderTaskGroup_completed (s : State) :
  shaderTaskGroup s = Completed ->
  createVSTask (tasks s) = Completed
  /\ createPSTask (tasks s) = Completed
  /\ (m_usingVprtShaders (renderer s) = false ->
      createGSTask (tasks s) = Completed).
Proof.
  unfold shaderTaskGroup.
  destruct (m_usingVprtShaders (renderer s)); intros H.
  - apply when_all_completed in H as [Hp Hv]. repeat split; auto.
    discriminate.
  - apply when_all_completed in H as [Hpv Hg].
    apply when_all_completed in Hpv as [Hp Hv]. repeat split; auto.
Qed.

Ltac break_state s :=
  destruct s as [[? ? ? ? ? ? ? ? ? ? ?] [? ? ? ? ? ? ? ?]];
  cbn in *.

Lemma invariant_initial (supportsVprt : bool) (r : OBJRenderer) :
  m_loadingComplete r = false ->
  invariant (CreateDeviceDependentResources supportsVprt r).
Proof.
  intros Hclear. unfold invariant; cbn.
  destruct supportsVprt; repeat split; intros; try discriminate;
    congruence.
Qed.

Lemma invariant_step (s s' : State) :
  invariant s -> step s s' -> invariant s'.
Proof.
  intros Hinv Hstep. destruct Hstep;
    try match goal with
        | H : shaderTaskGroup _ = Completed |- _ =>
            apply shaderTaskGroup_completed in H
        end;
    try destruct ok; try destruct ok1; try destruct ok2;
    unfold invariant in *; break_state s; subst;
    intuition (try discriminate; try congruence).
Qed.

Lemma invariant_steps (s s' : State) :
  invariant s -> steps s s' -> invariant s'.
Proof.
  intros Hinv Hsteps.
  induction Hsteps as [s1 | s1 s2 s3 Hfirst IH Hlast]; [exact Hinv|].
  exact (invariant_step s2 s3 (IH Hinv) Hlast).
Qed.

Lemma invariant_ready (s : State) :
  invariant s ->
  m_loadingComplete (renderer s) = true ->
  creation_complete s /\ resources_created (renderer s).
Proof.
  unfold invariant, creation_complete, resources_created.
  intros (Hvs & Hps & Hgs & Hobj & Hready & Hflag) Htrue.
  specialize (Hobj (Hready (Hflag Htrue))).
  destruct Hobj as (Cvs & Cps & Cgs & Bv & Bi & Cnt).
  destruct (Hvs Cvs), (Hps Cps). repeat split; auto.
Qed.

Lemma steps_first (s1 s2 s3 : State) :
  step s1 s2 -> steps s2 s3 -> steps s1 s3.
Proof.
  intros Hfirst Hrest. induction Hrest as [s | s a b Hab IH Hlast].
  - exact (steps_step s1 s1 s (steps_refl s1) Hfirst).
  - exact (steps_step s1 a b (IH Hfirst) Hlast).
Qed.

Lemma run_with_vprt :
  steps (CreateDeviceDependentResources true fresh) (loaded true).
Proof.
  eapply steps_first; [apply (read_VS _ true); reflexivity|].
  eapply steps_first; [apply (read_PS _ true); reflexivity|].
  eapply steps_first; [apply (run_createVS _ true true); reflexivity|].
  eapply steps_first; [apply (run_createPS _ true true); reflexivity|].
  eapply steps_first; [apply (run_createOBJ _ true true); reflexivity|].
  eapply steps_first; [apply (run_ready _); reflexivity|].
  vm_compute. apply steps_refl.
Qed.

Lemma run_without_vprt :
  steps (CreateDeviceDependentResources false fresh) (loaded false).
Proof.
  eapply steps_first; [apply (read_VS _ true); reflexivity|].
  eapply steps_first; [apply (read_PS _ true); reflexivity|].
  eapply steps_first; [apply (read_GS _ true); reflexivity|].
  eapply steps_first; [apply (run_createVS _ true true); reflexivity|].
  eapply steps_first; [apply (run_createPS _ true true); reflexivity|].
  eapply steps_first; [apply (run_createGS _ true); reflexivity|].
  eapply steps_first; [apply (run_createOBJ _ true true); reflexivity|].
  eapply steps_first; [apply (run_ready _); reflexivity|].
  vm_compute. apply steps_refl.
Qed.

(** C6.  Started with the ready flag clear, the flag is still clear when
    [CreateDeviceDependentResources] returns, and in every state any
    execution of the task graph reaches, the flag is set only if the
    vertex- and pixel-shader tasks, the geometry-shader task when the
    device lacks the capability, and the buffer build have all finished
    (and left their resources). *)
Theorem ready_only_after_creation (supportsVprt : bool) (r : OBJRenderer) :
  m_loadingComplete r = false ->
  m_loadingComplete
    (renderer (CreateDeviceDependentResources supportsVprt r)) = false
  /\ forall s,
       steps (CreateDeviceDependentResources supportsVprt r) s ->
       m_loadingComplete (renderer s) = true ->
       creation_complete s /\ resources_created (renderer s).
Proof.
  intros Hclear. split; [exact Hclear|].
  intros s Hsteps Hready.
  apply invariant_ready; [|exact Hready].
  eapply invariant_steps; [|exact Hsteps].
  now apply invariant_initial.
Qed.

Lemma ready_only_after_creation_witness :
  m_loadingComplete
    (renderer (CreateDeviceDependentResources false fresh)) = false
  /\ creation_complete (loaded false)
  /\ resources_created (renderer (loaded false)).
Proof.
  destruct (ready_only_after_creation false fresh eq_refl) as [H0 Hall].
  split; [exact H0|].
  exact (Hall (loaded false) run_without_vprt eq_refl).
Defined.

End LifecycleFacts.

(* ===================================================================== *)
(** ** [Render] *)
(* ===================================================================== *)

Module DrawFacts.
Import Draw.

(** C7.  [Render] makes no call while the ready flag is clear.  With the
    flag set it binds the vertex and index buffers, the input layout, the
    vertex shader (with its constant buffer) and the pixel shader, binds
    the geometry shader exactly when the capability flag is clear, and
    submits one indexed draw, of two instances. *)
Theorem Render_waits_then_draws_twice (r : OBJRenderer) (context : list call) :
  (m_loadingComplete r = false -> Render r context = context)
  /\ (m_loadingComplete r = true ->
      Render r context = context ++ frame r
      /\ map instance_count (filter is_draw (frame r)) = [Some 2]
      /\ existsb is_GSSetShader (frame r) = negb (m_usingVprtShaders r)).
Proof.
  unfold Render, frame. split; intros Hflag; rewrite Hflag; cbn [negb].
  - reflexivity.
  - destruct (m_usingVprtShaders r); cbn [negb];
      repeat rewrite <- app_assoc; repeat split; reflexivity.
Qed.

Lemma Render_waits_then_draws_twice_witness :
  Render Lifecycle.fresh [] = []
  /\ Render (Lifecycle.renderer (Lifecycle.loaded false)) []
     = [ IASetVertexBuffers 0 1 VertexBuffer 24 0;
         IASetIndexBuffer IndexBuffer DXGI_FORMAT_R32_UINT 0;
         IASetPrimitiveTopology D3D11_PRIMITIVE_TOPOLOGY_TRIANGLELIST;
         IASetInputLayout InputLayout;
         VSSetShader VertexShader;
         VSSetConstantBuffers 0 1 ModelConstantBuffer;
         GSSetShader GeometryShader;
         PSSetShader PixelShader;
         DrawIndexedInstanced 3 2 0 0 0 ].
Proof.
  split.
  - exact (proj1 (Render_waits_then_draws_twice Lifecycle.fresh [])
             eq_refl).
  - exact (proj1 (proj2 (Render_waits_then_draws_twice
                           (Lifecycle.renderer (Lifecycle.loaded false))
                           []) eq_refl)).
Defined.

End DrawFacts.

(* ===================================================================== *)
(** ** The sequence accesses of [parseOBJ] *)
(* ===================================================================== *)

Lemma normalize_nonempty (vs : list VertexPositionColor) :
  vs <> [] -> exists vs', normalize vs = Returned vs'.
Proof.
  destruct vs as [|v rest]; [congruence|]. intros _.
  eexists. unfold normalize, axis_max, axis_min. cbn [max_element min_element deref bind].
  reflexivity.
Qed.

Lemma normalize_empty : normalize [] = Undefined dereference_of_end.
Proof. reflexivity. Qed.

Lemma set_back_nonempty {A : Type} (l : list A) (a : A) :
  l <> [] -> exists l', set_back l a = Returned l' /\ l' <> [].
Proof.
  intros Hne. unfold set_back.
  destruct (rev l) as [|b front] eqn:Hrev.
  - apply (f_equal (@rev A)) in Hrev. rewrite rev_involutive in Hrev.
    now subst l.
  - eexists. split; [reflexivity|]. intros Happ.
    now apply app_eq_nil in Happ as [_ Hnil].
Qed.

Lemma back_nonempty {A : Type} (l : list A) :
  l <> [] -> exists a, back l = Returned a.
Proof.
  intros Hne. unfold back.
  destruct (rev l) as [|b front] eqn:Hrev; [|now eexists].
  apply (f_equal (@rev A)) in Hrev. rewrite rev_involutive in Hrev.
  now subst l.
Qed.

Section AccessFacts.

Variable stof_spec : string -> exn + FLOAT.
Variable indeterminate : XMFLOAT3.

Lemma set_back_pos_nonempty (vs : list VertexPositionColor) (p : XMFLOAT3) :
  vs <> [] -> exists vs', set_back_pos vs p = Returned vs' /\ vs' <> [].
Proof.
  intros Hne. unfold set_back_pos.
  destruct (back_nonempty vs Hne) as [v ->]. cbn [bind].
  now apply set_back_nonempty.
Qed.

Lemma set_back_pos_empty (p : XMFLOAT3) :
  set_back_pos [] p = Undefined back_of_empty_vector.
Proof. reflexivity. Qed.

(** Inside a record of [n] fields, [stof_at] on a field below [n] is a
    float or a thrown exception. *)
Lemma stof_at_cases (rec : list string) (i : nat) :
  (i < List.length rec)%nat ->
  (exists f, stof_at stof_spec rec i = Returned f)
  \/ (exists e, stof_at stof_spec rec i = Thrown e).
Proof.
  intros Hi. unfold stof_at, subscript.
  destruct (nth_error rec i) as [t|] eqn:Hnth.
  - cbn [bind]. unfold stof. destruct (stof_spec t); eauto.
  - apply nth_error_None in Hnth. lia.
Qed.

Lemma vn_record_defined (rec : list string) (m : Mesh) :
  well_defined (vn_record stof_spec indeterminate rec m)
  /\ forall m', vn_record stof_spec indeterminate rec m = Returned m' ->
       (List.length rec = 4%nat -> vertices m' <> [])
       /\ (vertices m <> [] -> vertices m' <> []).
Proof.
  unfold vn_record.
  destruct (Nat.eqb (List.length rec) 4) eqn:Hlen; cbn [negb].
  - apply Nat.eqb_eq in Hlen.
    destruct (stof_at_cases rec 1 ltac:(lia)) as [[nx Hx] | [e Hx]];
      rewrite Hx; cbn [bind]; [|split; [exact I | discriminate]].
    destruct (stof_at_cases rec 2 ltac:(lia)) as [[ny Hy] | [e Hy]];
      rewrite Hy; cbn [bind]; [|split; [exact I | discriminate]].
    destruct (stof_at_cases rec 3 ltac:(lia)) as [[nz Hz] | [e Hz]];
      rewrite Hz; cbn [bind]; [|split; [exact I | discriminate]].
    split; [exact I|]. intros m' [= <-]. cbn [vertices].
    split; intros _ Happ; now apply app_eq_nil in Happ as [_ Hnil].
  - split; [exact I|]. intros m' [= <-].
    apply Nat.eqb_neq in Hlen. split; [contradiction | auto].
Qed.

Lemma v_record_defined (rec : list string) (m : Mesh) :
  vertices m <> [] ->
  well_defined (v_record stof_spec rec m)
  /\ forall m', v_record stof_spec rec m = Returned m' -> vertices m' <> [].
Proof.
  intros Hne. unfold v_record.
  destruct (Nat.eqb (List.length rec) 4) eqn:H4;
    destruct (Nat.eqb (List.length rec) 7) eqn:H7; cbn [negb andb];
    try apply Nat.eqb_eq in H4; try apply Nat.eqb_eq in H7.
  - lia.
  - destruct (stof_at_cases rec 1 ltac:(lia)) as [[px Hx] | [e Hx]];
      rewrite Hx; cbn [bind]; [|split; [exact I | discriminate]].
    destruct (stof_at_cases rec 2 ltac:(lia)) as [[py Hy] | [e Hy]];
      rewrite Hy; cbn [bind]; [|split; [exact I | discriminate]].
    destruct (stof_at_cases rec 3 ltac:(lia)) as [[pz Hz] | [e Hz]];
      rewrite Hz; cbn [bind]; [|split; [exact I | discriminate]].
    destruct (set_back_pos_nonempty (vertices m)
                {| x := px; y := py; z := pz |} Hne) as (vs' & -> & Hvs').
    cbn [bind]. split; [exact I|]. now intros m' [= <-].
  - destruct (stof_at_cases rec 1 ltac:(lia)) as [[px Hx] | [e Hx]];
      rewrite Hx; cbn [bind]; [|split; [exact I | discriminate]].
    destruct (stof_at_cases rec 2 ltac:(lia)) as [[py Hy] | [e Hy]];
      rewrite Hy; cbn [bind]; [|split; [exact I | discriminate]].
    destruct (stof_at_cases rec 3 ltac:(lia)) as [[pz Hz] | [e Hz]];
      rewrite Hz; cbn [bind]; [|split; [exact I | discriminate]].
    destruct (stof_at_cases rec 4 ltac:(lia)) as [[cr Hr] | [e Hr]];
      rewrite Hr; cbn [bind]; [|split; [exact I | discriminate]].
    destruct (stof_at_cases rec 5 ltac:(lia)) as [[cg Hg] | [e Hg]];
      rewrite Hg; cbn [bind]; [|split; [exact I | discriminate]].
    destruct (stof_at_cases rec 6 ltac:(lia)) as [[cb Hb] | [e Hb]];
      rewrite Hb; cbn [bind]; [|split; [exact I | discriminate]].
    destruct (set_back_pos_nonempty (vertices m)
                {| x := px; y := py; z := pz |} Hne) as (vs' & -> & Hvs').
    cbn [bind]. split; [exact I|]. now intros m' [= <-].
  - split; [exact I|]. now intros m' [= <-].
Qed.

Lemma face_index_cases (rec : list string) (i : nat) :
  (i < List.length rec)%nat ->
  (exists n, face_index rec i = Returned n)
  \/ (exists e, face_index rec i = Thrown e).
Proof.
  intros Hi. unfold face_index, subscript.
  destruct (nth_error rec i) as [t|] eqn:Hnth.
  - cbn [bind]. unfold stoi.
    destruct (match skip_spaces (before_first slash t) with
              | String c rest =>
                  if Ascii.eqb c "-"%char then (true, rest)
                  else if Ascii.eqb c "+"%char then (false, rest)
                  else (false, skip_spaces (before_first slash t))
              | EmptyString => (false, skip_spaces (before_first slash t))
              end) as [negative s2].
    destruct (starts_with_digit s2); [|cbn; eauto].
    match goal with |- context [if ?b then _ else _] => destruct b end;
      cbn; eauto.
  - apply nth_error_None in Hnth. lia.
Qed.

Lemma f_record_defined (rec : list string) (m : Mesh) :
  well_defined (f_record rec m)
  /\ forall m', f_record rec m = Returned m' -> vertices m' = vertices m.
Proof.
  unfold f_record.
  destruct (Nat.eqb (List.length rec) 4) eqn:Hlen; cbn [negb].
  - apply Nat.eqb_eq in Hlen.
    destruct (face_index_cases rec 1 ltac:(lia)) as [[v1 H1] | [e H1]];
      rewrite H1; cbn [bind]; [|split; [exact I | discriminate]].
    destruct (face_index_cases rec 2 ltac:(lia)) as [[v2 H2] | [e H2]];
      rewrite H2; cbn [bind]; [|split; [exact I | discriminate]].
    destruct (face_index_cases rec 3 ltac:(lia)) as [[v3 H3] | [e H3]];
      rewrite H3; cbn [bind]; [|split; [exact I | discriminate]].
    split; [exact I|]. now intros m' [= <-].
  - split; [exact I|]. now intros m' [= <-].
Qed.

(** One turn of the loop: with a non-empty vertex sequence whenever the
    line is a [v] record, no access is out of bounds; a [vn] record leaves
    the sequence non-empty, and no line empties it. *)
Lemma parse_line_defined (line : string) (m : Mesh) :
  (is_v_record line = true -> vertices m <> []) ->
  well_defined (parse_line stof_spec indeterminate line m)
  /\ forall m', parse_line stof_spec indeterminate line m = Returned m' ->
       (is_vn_record line = true -> vertices m' <> [])
       /\ (vertices m <> [] -> vertices m' <> []).
Proof.
  intros Hguard. unfold is_v_record, is_vn_record in *.
  destruct (record_of line) as [rec|] eqn:Hrec.
  - rewrite (parse_line_record stof_spec indeterminate line rec m Hrec).
    destruct rec as [|tag rest].
    + split; [exact I|]. intros m' [= <-]. split; [discriminate | auto].
    + unfold has_tag in *.
      destruct (String.eqb tag vn_tag) eqn:Evn.
      * destruct (vn_record_defined (tag :: rest) m) as [Hdef Hret].
        split; [exact Hdef|]. intros m' Hm'.
        destruct (Hret m' Hm') as [Hpush Hkeep]. split; [|exact Hkeep].
        cbn [andb]. intros Hlen. apply Nat.eqb_eq in Hlen. auto.
      * cbn [andb].
        destruct (String.eqb tag v_tag) eqn:Ev.
        -- destruct (Nat.eqb (List.length (tag :: rest)) 4
                     || Nat.eqb (List.length (tag :: rest)) 7) eqn:Hlen.
           ++ destruct (v_record_defined (tag :: rest) m (Hguard eq_refl))
                as [Hdef Hret].
              split; [exact Hdef|]. intros m' Hm'.
              split; [discriminate | intros _; exact (Hret m' Hm')].
           ++ apply orb_false_iff in Hlen as [H4 H7].
              unfold v_record. rewrite H4, H7. cbn [negb andb].
              split; [exact I|]. intros m' [= <-].
              split; [discriminate | auto].
        -- destruct (String.eqb tag f_tag) eqn:Ef.
           ++ destruct (f_record_defined (tag :: rest) m) as [Hdef Hret].
              split; [exact Hdef|]. intros m' Hm'.
              rewrite (Hret m' Hm'). split; [discriminate | auto].
           ++ split; [exact I|]. intros m' [= <-].
              split; [discriminate | auto].
  - rewrite (parse_line_skipped stof_spec indeterminate line m Hrec).
    split; [exact I|]. intros m' [= <-]. split; [discriminate | auto].
Qed.

Lemma read_records_defined (lines : list string) :
  forall (seen : bool) (m : Mesh),
    every_v_after_vn seen lines = true ->
    (seen = true -> vertices m <> []) ->
    well_defined (read_records stof_spec indeterminate lines m).
Proof.
  induction lines as [|line rest IH]; intros seen m Hguard Hseen.
  - exact I.
  - cbn [every_v_after_vn] in Hguard.
    apply andb_true_iff in Hguard as [Hline Hrest].
    cbn [read_records].
    assert (Hv : is_v_record line = true -> vertices m <> []).
    { intros Hisv. rewrite Hisv in Hline. auto. }
    destruct (parse_line_defined line m Hv) as [Hdef Hret].
    destruct (parse_line stof_spec indeterminate line m) as [m'| e | u]; cbn [bind];
      [|exact I | exact Hdef].
    destruct (Hret m' eq_refl) as [Hpush Hkeep].
    apply (IH (seen || is_vn_record line)%bool m' Hrest).
    intros Hor. apply orb_true_iff in Hor as [Hs | Hvn]; auto.
Qed.

(** A [v] record met with no vertex in the sequence reaches
    [vertices.back()] as soon as its fields convert. *)
Lemma v_record_on_empty (tag : string) (fields : list string) (m : Mesh) :
  (Nat.eqb (List.length (tag :: fields)) 4
   || Nat.eqb (List.length (tag :: fields)) 7) = true ->
  Forall (fun t => exists f, stof_spec t = inr f) fields ->
  vertices m = [] ->
  v_record stof_spec (tag :: fields) m = Undefined back_of_empty_vector.
Proof.
  intros Hlen Hconv Hempty. unfold v_record.
  assert (Hat : forall i, (i < List.length fields)%nat ->
                  exists f, stof_at stof_spec (tag :: fields) (S i)
                            = Returned f).
  { intros i Hi. unfold stof_at, subscript. cbn [nth_error].
    destruct (nth_error fields i) as [t|] eqn:Hnth.
    - cbn [bind]. unfold stof.
      rewrite Forall_forall in Hconv.
      destruct (Hconv t (nth_error_In _ _ Hnth)) as [f ->]. eauto.
    - apply nth_error_None in Hnth. lia. }
  rewrite Hempty. cbn [List.length] in *.
  destruct (Nat.eqb (S (List.length fields)) 4) eqn:H4;
    destruct (Nat.eqb (S (List.length fields)) 7) eqn:H7; cbn [negb andb];
    try apply Nat.eqb_eq in H4; try apply Nat.eqb_eq in H7;
    try discriminate Hlen; try lia.
  - destruct (Hat 0%nat ltac:(lia)) as [px ->].
    destruct (Hat 1%nat ltac:(lia)) as [py ->].
    destruct (Hat 2%nat ltac:(lia)) as [pz ->]. reflexivity.
  - destruct (Hat 0%nat ltac:(lia)) as [px ->].
    destruct (Hat 1%nat ltac:(lia)) as [py ->].
    destruct (Hat 2%nat ltac:(lia)) as [pz ->].
    destruct (Hat 3%nat ltac:(lia)) as [cr ->].
    destruct (Hat 4%nat ltac:(lia)) as [cg ->].
    destruct (Hat 5%nat ltac:(lia)) as [cb ->]. reflexivity.
Qed.

End AccessFacts.

(** C5.  When every [v] record of the input comes after some [vn] record
    and the vertex sequence is not empty at the end of the reading loop, no
    access of [parseOBJ] is out of bounds.  Otherwise nothing is checked: a
    [v] record whose fields convert, met with an empty vertex sequence,
    reaches [vertices.back()] on the empty vector, and an empty vertex
    sequence at the end of the loop reaches the dereference of the end
    iterator; both are undefined behaviour. *)
Theorem parseOBJ_accesses (stof_spec : string -> exn + FLOAT)
    (indeterminate : XMFLOAT3) (text : string) :
  (every_v_after_vn false (getlines newline text) = true ->
   (forall m', read_records stof_spec indeterminate (getlines newline text)
                 empty_mesh = Returned m' -> vertices m' <> []) ->
   well_defined (parseOBJ stof_spec indeterminate (open_stream text) empty_mesh))
  /\ (forall line rec m,
        record_of line = Some rec ->
        is_v_record line = true ->
        Forall (fun t => exists f, stof_spec t = inr f) (tl rec) ->
        vertices m = [] ->
        parse_line stof_spec indeterminate line m
        = Undefined back_of_empty_vector)
  /\ (forall m',
        read_records stof_spec indeterminate (getlines newline text)
          empty_mesh = Returned m' ->
        vertices m' = [] ->
        parseOBJ stof_spec indeterminate (open_stream text) empty_mesh
        = Undefined dereference_of_end).
Proof.
  split; [|split].
  - intros Hguard Hfinal. unfold parseOBJ. cbn [is_open open_stream negb content].
    pose proof (read_records_defined stof_spec indeterminate
                  (getlines newline text) false empty_mesh Hguard
                  ltac:(discriminate)) as Hdef.
    destruct (read_records stof_spec indeterminate (getlines newline text)
                empty_mesh) as [m'| e | u]; cbn [bind]; [|exact I | exact Hdef].
    destruct (normalize_nonempty (vertices m') (Hfinal m' eq_refl)) as [vs ->].
    exact I.
  - intros line rec m Hrec Hisv Hconv Hempty.
    unfold is_v_record in Hisv. rewrite Hrec in Hisv.
    apply andb_true_iff in Hisv as [Htag Hlen].
    rewrite (parse_line_record stof_spec indeterminate line rec m Hrec).
    destruct rec as [|tag rest]; [discriminate Htag|].
    cbn [has_tag] in Htag. apply String.eqb_eq in Htag. subst tag.
    change (String.eqb v_tag vn_tag) with false.
    change (String.eqb v_tag v_tag) with true. cbv iota.
    now apply v_record_on_empty.
  - intros m' Hread Hempty. unfold parseOBJ.
    cbn [is_open open_stream negb content]. rewrite Hread. cbn [bind].
    rewrite Hempty. reflexivity.
Qed.

Lemma parseOBJ_accesses_witness :
  well_defined (parseOBJ decimal_stof garbage (open_stream two_vertices)
                  empty_mesh)
  /\ parse_line decimal_stof garbage "v 1 2 3"%string empty_mesh
     = Undefined back_of_empty_vector
  /\ parseOBJ decimal_stof garbage (open_stream "f 1 2 3"%string) empty_mesh
     = Undefined dereference_of_end.
Proof.
  split; [|split].
  - apply (proj1 (parseOBJ_accesses decimal_stof garbage two_vertices)).
    + reflexivity.
    + vm_compute. intros m' [= <-]. discriminate.
  - apply (proj1 (proj2 (parseOBJ_accesses decimal_stof garbage
                           EmptyString))
             "v 1 2 3"%string ["v"; "1"; "2"; "3"]%string empty_mesh);
      try reflexivity.
    repeat constructor; eexists; vm_compute; reflexivity.
  - apply (proj2 (proj2 (parseOBJ_accesses decimal_stof garbage
                           "f 1 2 3"%string))
             {| vertices := []; indices := [2; 1; 0] |});
      reflexivity.
Defined.

(** C5, as stated, fails: a [v] record with no vertex before it, and an
    input that leaves the vertex sequence empty, do not end in a raised
    error; they run into the unchecked accesses. *)
Lemma unguarded_accesses_do_not_fail_fast :
  ~ fails_fast (parseOBJ decimal_stof garbage (open_stream "v 1 2 3"%string)
                  empty_mesh)
  /\ ~ fails_fast (parseOBJ decimal_stof garbage (open_stream EmptyString)
                     empty_mesh).
Proof.
  split; intros [e He]; vm_compute in He; discriminate He.
Qed.

(* ===================================================================== *)
(** ** Centring and scaling on the integer grid *)
(* ===================================================================== *)

Lemma float_eqb_eq (a b : FLOAT) : Float32.eqb a b = true -> a = b.
Proof.
  destruct a as [s | s | | s m e], b as [t | t | | t n f]; cbn;
    try discriminate; intros H.
  - now apply Bool.eqb_prop in H as ->.
  - now apply Bool.eqb_prop in H as ->.
  - reflexivity.
  - apply andb_true_iff in H as [H He]. apply andb_true_iff in H as [Hs Hm].
    apply Bool.eqb_prop in Hs. apply Pos.eqb_eq in Hm. apply Z.eqb_eq in He.
    now subst.
Qed.

Lemma in_zrange (lo hi k : Z) : lo <= k <= hi -> In k (zrange lo hi).
Proof.
  intros Hk. unfold zrange. apply in_map_iff.
  exists (Z.to_nat (k - lo)). split; [lia|]. apply in_seq. lia.
Qed.

Lemma all_in_spec (K : Z) (P : Z -> bool) :
  all_in K P = true -> forall k, - K <= k <= K -> P k = true.
Proof.
  unfold all_in. intros Hall k Hk.
  rewrite forallb_forall in Hall. apply Hall. now apply in_zrange.
Qed.

Lemma order_check_16 :
  all_in 16 (fun a => all_in 16 (fun b =>
    Bool.eqb (ltb (of_Z a) (of_Z b)) (a <? b))) = true.
Proof. vm_compute. reflexivity. Qed.

Lemma rescale_check_16 :
  all_in 16 (fun lo => all_in 16 (fun hi => all_in 16 (fun k =>
    rescale_check_at lo hi k))) = true.
Proof. vm_compute. reflexivity. Qed.

Lemma order_on_grid (a b : Z) :
  - 16 <= a <= 16 -> - 16 <= b <= 16 ->
  ltb (of_Z a) (of_Z b) = (a <? b).
Proof.
  intros Ha Hb.
  pose proof order_check_16 as Hcheck.
  pose proof (all_in_spec _ _ Hcheck a Ha) as Hrow. cbv beta in Hrow.
  pose proof (all_in_spec _ _ Hrow b Hb) as Hcell. cbv beta in Hcell.
  apply Bool.eqb_prop in Hcell. exact Hcell.
Qed.

Lemma rescale_on_grid (lo hi k : Z) :
  - 16 <= lo <= 16 -> - 16 <= hi <= 16 -> - 16 <= k <= 16 ->
  rescale_check_at lo hi k = true.
Proof.
  intros Hlo Hhi Hk.
  pose proof rescale_check_16 as Hcheck.
  pose proof (all_in_spec _ _ Hcheck lo Hlo) as Hplane. cbv beta in Hplane.
  pose proof (all_in_spec _ _ Hplane hi Hhi) as Hrow. cbv beta in Hrow.
  exact (all_in_spec _ _ Hrow k Hk).
Qed.

(** *** The extremum scans see the coordinates only *)

Lemma max_from_coords (ax : axis) (vs : list VertexPositionColor) :
  forall v,
    coord ax (pos (max_from (less ax) v vs))
    = max_from ltb (coord ax (pos v)) (coords ax vs).
Proof.
  induction vs as [|w rest IH]; intros v; [reflexivity|].
  cbn [max_from coords map]. unfold less at 2.
  destruct (ltb (coord ax (pos v)) (coord ax (pos w))); apply IH.
Qed.

Lemma min_from_coords (ax : axis) (vs : list VertexPositionColor) :
  forall v,
    coord ax (pos (min_from (less ax) v vs))
    = min_from ltb (coord ax (pos v)) (coords ax vs).
Proof.
  induction vs as [|w rest IH]; intros v; [reflexivity|].
  cbn [min_from coords map]. unfold less at 2.
  destruct (ltb (coord ax (pos w)) (coord ax (pos v))); apply IH.
Qed.

Lemma axis_max_coords (ax : axis) (vs : list VertexPositionColor) :
  axis_max ax vs = coord_max (coords ax vs).
Proof.
  destruct vs as [|v rest]; [reflexivity|].
  unfold axis_max, coord_max. cbn [max_element coords map deref bind].
  now rewrite max_from_coords.
Qed.

Lemma axis_min_coords (ax : axis) (vs : list VertexPositionColor) :
  axis_min ax vs = coord_min (coords ax vs).
Proof.
  destruct vs as [|v rest]; [reflexivity|].
  unfold axis_min, coord_min. cbn [min_element coords map deref bind].
  now rewrite min_from_coords.
Qed.

(** *** A value above (below) all the others is what the scan returns *)

Lemma max_from_top (p : FLOAT) (cs : list FLOAT) :
  forall c, Forall (top p) (c :: cs) -> In p (c :: cs) ->
            max_from ltb c cs = p.
Proof.
  induction cs as [|d rest IH]; intros c Hall Hin.
  - destruct Hin as [-> | []]. reflexivity.
  - cbn [max_from]. inversion Hall as [|? ? Hc Htail]; subst.
    inversion Htail as [|? ? Hd Hrest]; subst.
    apply IH.
    + constructor; [|exact Hrest]. now destruct (ltb c d).
    + destruct Hin as [-> | [-> | Hin]].
      * destruct Hd as [Hd _]. rewrite Hd. now left.
      * destruct Hc as [_ [Hlt | ->]].
        -- rewrite Hlt. now left.
        -- destruct (ltb p p); now left.
      * now right.
Qed.

Lemma min_from_bottom (p : FLOAT) (cs : list FLOAT) :
  forall c, Forall (bottom p) (c :: cs) -> In p (c :: cs) ->
            min_from ltb c cs = p.
Proof.
  induction cs as [|d rest IH]; intros c Hall Hin.
  - destruct Hin as [-> | []]. reflexivity.
  - cbn [min_from]. inversion Hall as [|? ? Hc Htail]; subst.
    inversion Htail as [|? ? Hd Hrest]; subst.
    apply IH.
    + constructor; [|exact Hrest]. now destruct (ltb d c).
    + destruct Hin as [-> | [-> | Hin]].
      * destruct Hd as [Hd _]. rewrite Hd. now left.
      * destruct Hc as [_ [Hlt | ->]].
        -- rewrite Hlt. now left.
        -- destruct (ltb p p); now left.
      * now right.
Qed.

Lemma coord_max_top (p : FLOAT) (cs : list FLOAT) :
  In p cs -> Forall (top p) cs -> coord_max cs = Returned p.
Proof.
  destruct cs as [|c rest]; [intros []|]. intros Hin Hall.
  unfold coord_max. cbn [max_element deref]. f_equal.
  now apply max_from_top.
Qed.

Lemma coord_min_bottom (p : FLOAT) (cs : list FLOAT) :
  In p cs -> Forall (bottom p) cs -> coord_min cs = Returned p.
Proof.
  destruct cs as [|c rest]; [intros []|]. intros Hin Hall.
  unfold coord_min. cbn [min_element deref]. f_equal.
  now apply min_from_bottom.
Qed.

(** *** Integer coordinates *)

Lemma extrema_exist (ks : list Z) :
  ks <> [] -> exists lo hi, extrema ks lo hi.
Proof.
  induction ks as [|k rest IH]; [congruence|]. intros _.
  destruct rest as [|k' rest'].
  - exists k, k. repeat split; [now left | now left |].
    constructor; [lia | constructor].
  - destruct (IH ltac:(discriminate)) as (lo & hi & Hlo & Hhi & Hall).
    exists (Z.min k lo), (Z.max k hi). unfold extrema. repeat split.
    + destruct (Z.min_spec k lo) as [[_ ->] | [_ ->]]; [now left | now right].
    + destruct (Z.max_spec k hi) as [[_ ->] | [_ ->]]; [now right | now left].
    + constructor; [lia|].
      eapply Forall_impl; [|exact Hall]. cbn. intros; lia.
Qed.

Lemma extrema_shift (ks : list Z) (lo hi t : Z) :
  extrema ks lo hi ->
  extrema (map (fun k => k + t) ks) (lo + t) (hi + t).
Proof.
  intros (Hlo & Hhi & Hall). repeat split.
  - apply in_map_iff. now exists lo.
  - apply in_map_iff. now exists hi.
  - apply Forall_map. eapply Forall_impl; [|exact Hall]. cbn. intros; lia.
Qed.

Lemma on_grid_coords (K : Z) (ax : axis) (vs : list VertexPositionColor) :
  on_grid K ax vs ->
  exists ks, Forall (fun k => - K <= k <= K) ks
             /\ coords ax vs = map of_Z ks.
Proof.
  induction 1 as [|v rest (k & Hk & Hv) _ (ks & Hks & Hmap)].
  - now exists [].
  - exists (k :: ks). split; [now constructor|].
    cbn [coords map]. rewrite Hv. f_equal. exact Hmap.
Qed.

Section GridExtrema.

Variables (ks : list Z) (lo hi : Z).
Hypothesis Hrange : Forall (fun k => - 16 <= k <= 16) ks.
Hypothesis Hext : extrema ks lo hi.

Lemma extrema_in_range : - 16 <= lo <= 16 /\ - 16 <= hi <= 16 /\ lo <= hi.
Proof.
  destruct Hext as (Hlo & Hhi & Hall).
  rewrite Forall_forall in Hrange, Hall.
  pose proof (Hrange lo Hlo). pose proof (Hrange hi Hhi).
  pose proof (Hall lo Hlo). lia.
Qed.

Lemma coord_max_grid : coord_max (map of_Z ks) = Returned (of_Z hi).
Proof.
  destruct extrema_in_range as (Rlo & Rhi & _).
  destruct Hext as (Hlo & Hhi & Hall).
  apply coord_max_top; [now apply in_map|].
  apply Forall_map. rewrite Forall_forall in *. intros k Hk.
  pose proof (Hrange k Hk) as Rk. pose proof (Hall k Hk) as Bk.
  unfold top. rewrite !order_on_grid by assumption. split.
  - apply Z.ltb_ge. lia.
  - destruct (Z.eq_dec k hi) as [-> | Hne]; [now right | left].
    apply Z.ltb_lt. lia.
Qed.

Lemma coord_min_grid : coord_min (map of_Z ks) = Returned (of_Z lo).
Proof.
  destruct extrema_in_range as (Rlo & Rhi & _).
  destruct Hext as (Hlo & Hhi & Hall).
  apply coord_min_bottom; [now apply in_map|].
  apply Forall_map. rewrite Forall_forall in *. intros k Hk.
  pose proof (Hrange k Hk) as Rk. pose proof (Hall k Hk) as Bk.
  unfold bottom. rewrite !order_on_grid by assumption. split.
  - apply Z.ltb_ge. lia.
  - destruct (Z.eq_dec k lo) as [-> | Hne]; [now right | left].
    apply Z.ltb_lt. lia.
Qed.

(** What the enumeration says of one rescaled coordinate. *)
Lemma rescaled_between (k : Z) :
  In k ks ->
  let q := rescale_coord (of_Z lo) (of_Z hi) (of_Z k) in
  if lo <? hi
  then top tenth q /\ bottom minus_tenth q
       /\ (k = hi -> q = tenth) /\ (k = lo -> q = minus_tenth)
  else q = nan.
Proof.
  intros Hk q.
  destruct extrema_in_range as (Rlo & Rhi & _).
  destruct Hext as (_ & _ & Hall).
  rewrite Forall_forall in Hrange, Hall.
  pose proof (Hrange k Hk) as Rk. pose proof (Hall k Hk) as Bk.
  pose proof (rescale_on_grid lo hi k Rlo Rhi Rk) as Hcheck.
  unfold rescale_check_at in Hcheck. fold q in Hcheck.
  replace (lo <=? k) with true in Hcheck by (symmetry; apply Z.leb_le; lia).
  replace (k <=? hi) with true in Hcheck by (symmetry; apply Z.leb_le; lia).
  cbn [andb] in Hcheck.
  destruct (lo <? hi); [|now apply float_eqb_eq].
  repeat (apply andb_true_iff in Hcheck as [Hcheck ?]).
  unfold top, bottom. repeat split.
  - now apply negb_true_iff.
  - match goal with
    | H : (ltb q tenth || _)%bool = true |- _ =>
        apply orb_true_iff in H as [H | H];
          [now left | right; now apply float_eqb_eq]
    end.
  - match goal with
    | H : negb (ltb q minus_tenth) = true |- _ => now apply negb_true_iff
    end.
  - match goal with
    | H : (ltb minus_tenth q || _)%bool = true |- _ =>
        apply orb_true_iff in H as [H | H];
          [now left | right; now apply float_eqb_eq]
    end.
  - intros ->. rewrite Z.eqb_refl in *. now apply float_eqb_eq.
  - intros ->. rewrite Z.eqb_refl in *. now apply float_eqb_eq.
Qed.

Lemma coord_max_rescaled :
  coord_max (map (rescale_coord (of_Z lo) (of_Z hi)) (map of_Z ks))
  = Returned (if lo <? hi then tenth else nan).
Proof.
  pose proof rescaled_between as Hq.
  destruct Hext as (Hlo & Hhi & _).
  rewrite map_map. destruct (lo <? hi).
  - apply coord_max_top.
    + apply in_map_iff. exists hi. split; [|exact Hhi].
      now apply (Hq hi Hhi).
    + apply Forall_map, Forall_forall. intros k Hk. now apply (Hq k Hk).
  - apply coord_max_top.
    + apply in_map_iff. exists hi. split; [|exact Hhi]. exact (Hq hi Hhi).
    + apply Forall_map, Forall_forall. intros k Hk.
      cbv beta. rewrite (Hq k Hk). split; [reflexivity | now right].
Qed.

Lemma coord_min_rescaled :
  coord_min (map (rescale_coord (of_Z lo) (of_Z hi)) (map of_Z ks))
  = Returned (if lo <? hi then minus_tenth else nan).
Proof.
  pose proof rescaled_between as Hq.
  destruct Hext as (Hlo & Hhi & _).
  rewrite map_map. destruct (lo <? hi).
  - apply coord_min_bottom.
    + apply in_map_iff. exists lo. split; [|exact Hlo].
      now apply (Hq lo Hlo).
    + apply Forall_map, Forall_forall. intros k Hk. now apply (Hq k Hk).
  - apply coord_min_bottom.
    + apply in_map_iff. exists lo. split; [|exact Hlo]. exact (Hq lo Hlo).
    + apply Forall_map, Forall_forall. intros k Hk.
      cbv beta. rewrite (Hq k Hk). split; [reflexivity | now right].
Qed.

End GridExtrema.

(** *** The pass on one axis *)

Lemma normalize_coords (vs vs' : list VertexPositionColor) (ax : axis)
    (lo hi : FLOAT) :
  normalize vs = Returned vs' ->
  coord_min (coords ax vs) = Returned lo ->
  coord_max (coords ax vs) = Returned hi ->
  coords ax vs' = map (rescale_coord lo hi) (coords ax vs).
Proof.
  intros Hnorm Hlo Hhi. unfold normalize in Hnorm.
  rewrite !axis_max_coords, !axis_min_coords in Hnorm.
  destruct ax; rewrite Hlo, Hhi in Hnorm;
    repeat match type of Hnorm with
           | context [coord_max ?cs] =>
               destruct (coord_max cs) as [?| |]; [|discriminate Hnorm..]
           | context [coord_min ?cs] =>
               destruct (coord_min cs) as [?| |]; [|discriminate Hnorm..]
           end;
    cbn [bind] in Hnorm; injection Hnorm as <-;
    unfold coords; rewrite !map_map; apply map_ext; intros v; reflexivity.
Qed.

Lemma translate_coords (ax : axis) (t : FLOAT) (vs : list VertexPositionColor) :
  coords ax (map (translate ax t) vs)
  = map (fun c => add c t) (coords ax vs).
Proof.
  unfold coords. rewrite !map_map. apply map_ext. intros v.
  destruct ax; reflexivity.
Qed.

Lemma spread_extrema (ax : axis) (vs : list VertexPositionColor)
    (ks : list Z) (lo hi : Z) :
  coords ax vs = map of_Z ks ->
  extrema ks lo hi ->
  spread ax vs ->
  (lo <? hi) = true.
Proof.
  intros Hks (Hlo & Hhi & Hall) (v & w & Hv & Hw & Hdiff).
  assert (Hk : forall u, In u vs ->
                 exists k, In k ks /\ coord ax (pos u) = of_Z k).
  { intros u Hu.
    assert (Hin : In (coord ax (pos u)) (coords ax vs))
      by (unfold coords;
          exact (in_map (fun u' => coord ax (pos u')) vs u Hu)).
    rewrite Hks in Hin. apply in_map_iff in Hin as (k & Heq & Hin).
    now exists k. }
  destruct (Hk v Hv) as (kv & Hkv & Ev), (Hk w Hw) as (kw & Hkw & Ew).
  rewrite Forall_forall in Hall.
  pose proof (Hall kv Hkv). pose proof (Hall kw Hkw).
  apply Z.ltb_lt. destruct (Z.eq_dec lo hi) as [Heq|]; [|lia].
  exfalso. apply Hdiff. rewrite Ev, Ew. f_equal. lia.
Qed.

(* ===================================================================== *)
(** ** Binary32 arithmetic that needs no rounding *)
(* ===================================================================== *)

(** The number of bits of a positive mantissa. *)
Lemma digits2_pos_log2 (p : positive) :
  Zpos (digits2_pos p) = Z.log2 (Zpos p) + 1.
Proof.
  assert (H : forall q, digits2_pos q = Pos.size q).
  { induction q as [q IH | q IH |]; cbn; now rewrite ?IH. }
  destruct p as [p | p |]; cbn [digits2_pos Z.log2]; rewrite ?H; lia.
Qed.

Lemma digits2_pos_bounds (p : positive) :
  2 ^ (Zpos (digits2_pos p) - 1) <= Zpos p < 2 ^ Zpos (digits2_pos p).
Proof.
  rewrite digits2_pos_log2.
  replace (Z.log2 (Zpos p) + 1 - 1) with (Z.log2 (Zpos p)) by lia.
  replace (Z.log2 (Zpos p) + 1) with (Z.succ (Z.log2 (Zpos p))) by lia.
  apply Z.log2_spec. lia.
Qed.

Lemma digits2_pos_shift (p q : positive) (k : Z) :
  0 <= k -> Zpos q = Zpos p * 2 ^ k ->
  Zpos (digits2_pos q) = Zpos (digits2_pos p) + k.
Proof.
  intros Hk Hq. rewrite !digits2_pos_log2, Hq.
  rewrite Z.log2_mul_pow2 by lia. lia.
Qed.

Lemma digits2_pos_le (p : positive) (n : Z) :
  0 <= n -> (Zpos p < 2 ^ n <-> Zpos (digits2_pos p) <= n).
Proof.
  intros Hn. rewrite digits2_pos_log2.
  rewrite (Z.log2_lt_pow2 (Zpos p) n) by lia. lia.
Qed.

(** Shifting a mantissa to the left multiplies it by a power of two. *)
Lemma iter_xO (p d : positive) :
  Zpos (Pos.iter xO p d) = Zpos p * 2 ^ Zpos d.
Proof.
  rewrite <- Z.shiftl_mul_pow2 by lia. cbn [Z.shiftl].
  apply (Pos.iter_swap_gen _ _ Zpos xO (Z.mul 2)). intros a. reflexivity.
Qed.

Lemma shl_align_le (mx : positive) (ex E : Z) :
  E <= ex ->
  exists q, shl_align mx ex E = (q, E) /\ Zpos q = Zpos mx * 2 ^ (ex - E).
Proof.
  intros HE. unfold shl_align.
  destruct (E - ex) as [| d | d] eqn:Hd; try lia.
  - exists mx. replace E with ex by lia. split; [reflexivity|].
    rewrite Z.sub_diag. lia.
  - exists (Pos.iter xO mx d). split; [reflexivity|].
    rewrite iter_xO. f_equal. f_equal. lia.
Qed.

Lemma shl_align_ge (mx : positive) (ex E : Z) :
  ex <= E -> shl_align mx ex E = (mx, ex).
Proof.
  intros HE. unfold shl_align.
  destruct (E - ex) as [| d | d] eqn:Hd; try lia; reflexivity.
Qed.

Lemma shr_1_even (m : Z) :
  shr_1 {| shr_m := 2 * m; shr_r := false; shr_s := false |}
  = {| shr_m := m; shr_r := false; shr_s := false |}.
Proof. destruct m as [| p | p]; reflexivity. Qed.

(** Shifting to the right the zeros a left shift brought in loses nothing. *)
Lemma iter_shr_1_exact (n : positive) :
  forall m : Z,
    iter_pos shr_1 n {| shr_m := m * 2 ^ Zpos n; shr_r := false; shr_s := false |}
    = {| shr_m := m; shr_r := false; shr_s := false |}.
Proof.
  induction n as [n IH | n IH |]; intros m; cbn [iter_pos].
  - replace (m * 2 ^ Zpos n~1) with (2 * (m * 2 ^ Zpos n * 2 ^ Zpos n)).
    + now rewrite shr_1_even, !IH.
    + replace (Zpos n~1) with (Zpos n + Zpos n + 1) by lia.
      rewrite !Z.pow_add_r by lia. ring.
  - replace (m * 2 ^ Zpos n~0) with (m * 2 ^ Zpos n * 2 ^ Zpos n).
    + now rewrite !IH.
    + replace (Zpos n~0) with (Zpos n + Zpos n) by lia.
      rewrite !Z.pow_add_r by lia. ring.
  - rewrite Z.pow_1_r, Z.mul_comm. apply shr_1_even.
Qed.

(** *** Numbers that need no rounding *)

Lemma fexp_eq (n : Z) : fexp prec emax n = Z.max (n - 24) (- 149).
Proof. reflexivity. Qed.

Lemma scaled_mantissa_pos (m : positive) (n : Z) :
  0 <= n -> Zpos (Z.to_pos (Zpos m * 2 ^ n)) = Zpos m * 2 ^ n.
Proof.
  intros Hn. apply Z2Pos.id. apply Z.mul_pos_pos; [lia|].
  now apply Z.pow_pos_nonneg.
Qed.

Lemma shr_fexp_exact (q m : positive) (ex e : Z) :
  ex <= cexp (Zpos m) e <= e ->
  Zpos q = Zpos m * 2 ^ (e - ex) ->
  shr_fexp prec emax (Zpos q) ex loc_Exact
  = ({| shr_m := Zpos (Z.to_pos (Zpos m * 2 ^ (e - cexp (Zpos m) e)));
        shr_r := false; shr_s := false |}, cexp (Zpos m) e).
Proof.
  intros HE Hq. unfold shr_fexp, shr. cbn [Zdigits2 shr_record_of_loc].
  rewrite (digits2_pos_shift m q (e - ex)) by (lia || assumption).
  replace (Zpos (digits2_pos m) + (e - ex) + ex)
    with (Zdigits2 (Zpos m) + e) by (cbn [Zdigits2]; lia).
  fold (cexp (Zpos m) e). set (E := cexp (Zpos m) e) in *.
  rewrite scaled_mantissa_pos by lia.
  destruct (E - ex) as [| n | n] eqn:Hn; try lia.
  - assert (ex = E) as -> by lia. now rewrite Hq.
  - rewrite Hq.
    replace (Zpos m * 2 ^ (e - ex))
      with (Zpos m * 2 ^ (e - E) * 2 ^ Zpos n).
    + rewrite iter_shr_1_exact. f_equal. lia.
    + rewrite <- Z.mul_assoc, <- Z.pow_add_r by lia. do 2 f_equal. lia.
Qed.

(** The mantissa [m * 2^(e - ex)] at exponent [ex], with [m] of at most 24
    bits, is brought to the representation of [m * 2^e] without rounding. *)
Lemma binary_round_aux_exact (s : bool) (q m : positive) (ex e : Z) :
  ex <= cexp (Zpos m) e <= e ->
  cexp (Zpos m) e <= 104 ->
  Zpos q = Zpos m * 2 ^ (e - ex) ->
  binary_round_aux prec emax s (Zpos q) ex loc_Exact
  = S754_finite s (Z.to_pos (Zpos m * 2 ^ (e - cexp (Zpos m) e)))
      (cexp (Zpos m) e).
Proof.
  intros HE Hmax Hq. unfold binary_round_aux.
  rewrite (shr_fexp_exact q m ex e HE Hq).
  cbn [shr_m loc_of_shr_record round_nearest_even].
  rewrite (shr_fexp_exact _ m (cexp (Zpos m) e) e)
    by (try rewrite scaled_mantissa_pos; lia).
  cbn [shr_m].
  replace (cexp (Zpos m) e <=? emax - prec) with true; [reflexivity|].
  symmetry. apply Z.leb_le. exact Hmax.
Qed.

Lemma binary_round_exact (s : bool) (q m : positive) (ex e : Z) :
  ex <= e ->
  cexp (Zpos m) e <= e ->
  cexp (Zpos m) e <= 104 ->
  Zpos q = Zpos m * 2 ^ (e - ex) ->
  binary_round prec emax s q ex
  = S754_finite s (Z.to_pos (Zpos m * 2 ^ (e - cexp (Zpos m) e)))
      (cexp (Zpos m) e).
Proof.
  intros Hex HE Hmax Hq. unfold binary_round.
  rewrite (digits2_pos_shift m q (e - ex)) by (lia || assumption).
  replace (Zpos (digits2_pos m) + (e - ex) + ex)
    with (Zdigits2 (Zpos m) + e) by (cbn [Zdigits2]; lia).
  fold (cexp (Zpos m) e). set (E := cexp (Zpos m) e) in *.
  destruct (Z_le_gt_dec E ex) as [Hle | Hgt].
  - destruct (shl_align_le q ex E Hle) as (q' & -> & Hq').
    apply (binary_round_aux_exact s q' m E e); try lia.
    rewrite Hq', Hq, <- Z.mul_assoc, <- Z.pow_add_r by lia.
    do 2 f_equal. lia.
  - rewrite shl_align_ge by lia.
    apply (binary_round_aux_exact s q m ex e); lia.
Qed.

Lemma cexp_opp (p : positive) (e : Z) : cexp (Zneg p) e = cexp (Zpos p) e.
Proof. reflexivity. Qed.

Lemma cexp_bounds (k e : Z) :
  Z.abs k < 2 ^ 24 -> - 149 <= e <= 104 ->
  - 149 <= cexp k e <= e /\ cexp k e <= 104.
Proof.
  intros Hk He. unfold cexp. rewrite fexp_eq.
  assert (Hd : Zdigits2 k <= 24).
  { destruct k as [| p | p]; cbn [Zdigits2]; [lia | |];
      apply digits2_pos_le; lia. }
  lia.
Qed.

(** [k * 2^j] at exponent [e - j] and [k] at exponent [e] are one number, and
    [dyadic k e] is its representation. *)
Lemma normalize_exact (k j e : Z) :
  Z.abs k < 2 ^ 24 -> - 149 <= e <= 104 -> 0 <= j ->
  binary_normalize prec emax (k * 2 ^ j) (e - j) false = dyadic k e.
Proof.
  intros Hk He Hj.
  destruct (cexp_bounds k e Hk He) as [HE Hmax].
  destruct k as [| p | p].
  - reflexivity.
  - rewrite <- (scaled_mantissa_pos p j Hj).
    cbn [binary_normalize dyadic].
    apply binary_round_exact; try lia.
    rewrite scaled_mantissa_pos by lia. do 2 f_equal. lia.
  - replace (Zneg p * 2 ^ j) with (Zneg (Z.to_pos (Zpos p * 2 ^ j)))
      by (rewrite <- Pos2Z.opp_pos, scaled_mantissa_pos by lia; lia).
    cbn [binary_normalize dyadic]. rewrite !cexp_opp in *.
    apply binary_round_exact; try lia.
    rewrite scaled_mantissa_pos by lia. do 2 f_equal. lia.
Qed.

Lemma scaled_dyadic (k e : Z) :
  Z.abs k < 2 ^ 24 -> - 149 <= e <= 104 -> scaled k e = dyadic k e.
Proof.
  intros Hk He. unfold scaled.
  rewrite <- (normalize_exact k 0 e Hk He (Z.le_refl 0)).
  f_equal; lia.
Qed.

(** The same value written at a finer scale. *)
Lemma scaled_shift (k j e : Z) :
  Z.abs k < 2 ^ 24 -> - 149 <= e <= 104 -> 0 <= j ->
  scaled (k * 2 ^ j) (e - j) = scaled k e.
Proof.
  intros Hk He Hj. rewrite (scaled_dyadic k e Hk He).
  now apply normalize_exact.
Qed.

Lemma dyadic_finite (k e : Z) :
  k <> 0 -> Z.abs k < 2 ^ 24 -> - 149 <= e <= 104 ->
  exists M,
    dyadic k e = S754_finite (k <? 0) M (cexp k e)
    /\ cond_Zopp (k <? 0) (Zpos M) = k * 2 ^ (e - cexp k e)
    /\ Zpos M = Z.abs k * 2 ^ (e - cexp k e).
Proof.
  intros Hne Hk He. destruct (cexp_bounds k e Hk He) as [HE Hmax].
  destruct k as [| p | p]; [congruence | |]; cbn [dyadic Z.ltb Z.compare].
  - eexists. split; [reflexivity|]. cbn [cond_Zopp Z.abs].
    rewrite scaled_mantissa_pos by lia. split; reflexivity.
  - eexists. split; [reflexivity|]. cbn [cond_Zopp Z.abs].
    rewrite cexp_opp in *. rewrite scaled_mantissa_pos by lia.
    split; [|reflexivity]. rewrite <- Pos2Z.opp_pos. lia.
Qed.

(** *** Sums and differences *)

Lemma cond_Zopp_mul (s : bool) (m n : Z) :
  cond_Zopp s (m * n) = cond_Zopp s m * n.
Proof. destruct s; cbn [cond_Zopp]; lia. Qed.

Lemma SFadd_finite (sx sy : bool) (mx my : positive) (ex ey : Z) :
  SFadd prec emax (S754_finite sx mx ex) (S754_finite sy my ey)
  = binary_normalize prec emax
      (cond_Zopp sx (Zpos mx) * 2 ^ (ex - Z.min ex ey)
       + cond_Zopp sy (Zpos my) * 2 ^ (ey - Z.min ex ey))
      (Z.min ex ey) false.
Proof.
  cbn [SFadd].
  destruct (shl_align_le mx ex (Z.min ex ey)) as (qx & -> & Hx); [lia|].
  destruct (shl_align_le my ey (Z.min ex ey)) as (qy & -> & Hy); [lia|].
  cbn [fst]. now rewrite Hx, Hy, !cond_Zopp_mul.
Qed.

Lemma SFsub_finite (sx sy : bool) (mx my : positive) (ex ey : Z) :
  SFsub prec emax (S754_finite sx mx ex) (S754_finite sy my ey)
  = binary_normalize prec emax
      (cond_Zopp sx (Zpos mx) * 2 ^ (ex - Z.min ex ey)
       - cond_Zopp sy (Zpos my) * 2 ^ (ey - Z.min ex ey))
      (Z.min ex ey) false.
Proof.
  cbn [SFsub].
  destruct (shl_align_le mx ex (Z.min ex ey)) as (qx & -> & Hx); [lia|].
  destruct (shl_align_le my ey (Z.min ex ey)) as (qy & -> & Hy); [lia|].
  cbn [fst]. now rewrite Hx, Hy, !cond_Zopp_mul.
Qed.

Lemma aligned (k e E E' : Z) :
  E' <= E <= e ->
  k * 2 ^ (e - E) * 2 ^ (E - E') = k * 2 ^ (e - E').
Proof.
  intros H. rewrite <- Z.mul_assoc, <- Z.pow_add_r by lia.
  do 2 f_equal. lia.
Qed.

(** A sum of two numbers of one grid that fits 24 bits is exact. *)
Lemma add_dyadic (a b e : Z) :
  Z.abs a < 2 ^ 24 -> Z.abs b < 2 ^ 24 -> Z.abs (a + b) < 2 ^ 24 ->
  - 149 <= e <= 104 ->
  add (dyadic a e) (dyadic b e) = dyadic (a + b) e.
Proof.
  intros Ha Hb Hab He.
  destruct (Z.eq_dec a 0) as [-> | Na].
  { cbn [Z.add]. destruct (Z.eq_dec b 0) as [-> | Nb]; [reflexivity|].
    destruct (dyadic_finite b e Nb Hb He) as (M & -> & _). reflexivity. }
  destruct (Z.eq_dec b 0) as [-> | Nb].
  { rewrite Z.add_0_r.
    destruct (dyadic_finite a e Na Ha He) as (M & -> & _). reflexivity. }
  destruct (dyadic_finite a e Na Ha He) as (Ma & -> & Hma & _).
  destruct (dyadic_finite b e Nb Hb He) as (Mb & -> & Hmb & _).
  destruct (cexp_bounds a e Ha He) as [HEa _].
  destruct (cexp_bounds b e Hb He) as [HEb _].
  unfold add. rewrite SFadd_finite, Hma, Hmb.
  set (ez := Z.min (cexp a e) (cexp b e)).
  rewrite !aligned by lia. rewrite <- Z.mul_add_distr_r.
  rewrite <- (normalize_exact (a + b) (e - ez) e Hab He) by lia.
  f_equal. lia.
Qed.

(** So is a difference. *)
Lemma sub_dyadic (a b e : Z) :
  Z.abs a < 2 ^ 24 -> Z.abs b < 2 ^ 24 -> Z.abs (a - b) < 2 ^ 24 ->
  - 149 <= e <= 104 ->
  sub (dyadic a e) (dyadic b e) = dyadic (a - b) e.
Proof.
  intros Ha Hb Hab He.
  destruct (Z.eq_dec b 0) as [-> | Nb].
  { rewrite Z.sub_0_r. destruct (Z.eq_dec a 0) as [-> | Na]; [reflexivity|].
    destruct (dyadic_finite a e Na Ha He) as (M & -> & _). reflexivity. }
  destruct (Z.eq_dec a 0) as [-> | Na].
  { destruct b as [| p | p]; [congruence | |]; reflexivity. }
  destruct (dyadic_finite a e Na Ha He) as (Ma & -> & Hma & _).
  destruct (dyadic_finite b e Nb Hb He) as (Mb & -> & Hmb & _).
  destruct (cexp_bounds a e Ha He) as [HEa _].
  destruct (cexp_bounds b e Hb He) as [HEb _].
  unfold sub. rewrite SFsub_finite, Hma, Hmb.
  set (ez := Z.min (cexp a e) (cexp b e)).
  rewrite !aligned by lia. rewrite <- Z.mul_sub_distr_r.
  rewrite <- (normalize_exact (a - b) (e - ez) e Hab He) by lia.
  f_equal. lia.
Qed.

(** *** Order *)

Lemma digits_lt (p q : positive) :
  Zpos (digits2_pos p) < Zpos (digits2_pos q) -> Zpos p < Zpos q.
Proof.
  intros H.
  pose proof (digits2_pos_bounds p) as [_ Hp].
  pose proof (digits2_pos_bounds q) as [Hq _].
  assert (2 ^ Zpos (digits2_pos p) <= 2 ^ (Zpos (digits2_pos q) - 1))
    by (apply Z.pow_le_mono_r; lia).
  lia.
Qed.

Lemma mul_compare_r (n m p : Z) : 0 < p -> (n * p ?= m * p) = (n ?= m).
Proof.
  intros Hp. destruct (Z.compare_spec n m) as [-> | H | H].
  - apply Z.compare_refl.
  - apply Z.compare_lt_iff. nia.
  - apply Z.compare_gt_iff. nia.
Qed.

Lemma compare_magnitudes (p q : positive) (e : Z) :
  Zpos p < 2 ^ 24 -> Zpos q < 2 ^ 24 -> - 149 <= e <= 104 ->
  match cexp (Zpos p) e ?= cexp (Zpos q) e with
  | Lt => Lt
  | Gt => Gt
  | Eq => Pos.compare_cont Eq
            (Z.to_pos (Zpos p * 2 ^ (e - cexp (Zpos p) e)))
            (Z.to_pos (Zpos q * 2 ^ (e - cexp (Zpos q) e)))
  end = (Zpos p ?= Zpos q).
Proof.
  intros Hp Hq He.
  destruct (cexp_bounds (Zpos p) e) as [HEp _]; [cbn [Z.abs]; lia | lia |].
  destruct (cexp_bounds (Zpos q) e) as [HEq _]; [cbn [Z.abs]; lia | lia |].
  unfold cexp in *. rewrite !fexp_eq in *. cbn [Zdigits2] in *.
  destruct (Z.compare_spec (Z.max (Zpos (digits2_pos p) + e - 24) (-149))
              (Z.max (Zpos (digits2_pos q) + e - 24) (-149))) as [Heq | Hlt | Hgt].
  - rewrite Heq. change (Pos.compare_cont Eq ?a ?b) with (Pos.compare a b).
    rewrite (Pos2Z.inj_compare (Z.to_pos _) (Z.to_pos _)).
    rewrite !scaled_mantissa_pos by lia.
    apply mul_compare_r. apply Z.pow_pos_nonneg; lia.
  - symmetry. apply Z.compare_lt_iff. apply digits_lt. lia.
  - symmetry. apply Z.compare_gt_iff. apply digits_lt. lia.
Qed.

(** On one grid the order of the floats is the order of the integers. *)
Lemma compare_dyadic (a b e : Z) :
  Z.abs a < 2 ^ 24 -> Z.abs b < 2 ^ 24 -> - 149 <= e <= 104 ->
  SFcompare (dyadic a e) (dyadic b e) = Some (a ?= b).
Proof.
  intros Ha Hb He.
  destruct a as [| p | p], b as [| q | q]; try reflexivity;
    cbn [dyadic SFcompare]; rewrite ?cexp_opp; f_equal.
  - apply compare_magnitudes; cbn [Z.abs] in *; lia.
  - pose proof (compare_magnitudes p q e) as H.
    cbn [Z.abs] in *. specialize (H Ha Hb He).
    change (Zneg p ?= Zneg q) with (CompOpp (Zpos p ?= Zpos q)).
    rewrite <- H.
    destruct (cexp (Zpos p) e ?= cexp (Zpos q) e); reflexivity.
Qed.

Lemma ltb_dyadic (a b e : Z) :
  Z.abs a < 2 ^ 24 -> Z.abs b < 2 ^ 24 -> - 149 <= e <= 104 ->
  ltb (dyadic a e) (dyadic b e) = (a <? b).
Proof.
  intros Ha Hb He. unfold ltb, SFltb, Z.ltb.
  now rewrite compare_dyadic.
Qed.

(** *** Products and quotients *)

Lemma div_eucl_pair (a b : Z) : Z.div_eucl a b = (a / b, a mod b).
Proof. unfold Z.div, Z.modulo. now destruct (Z.div_eucl a b). Qed.

Lemma SFdiv_core_binary_spec (m1 m2 : positive) (e1 e2 : Z) :
  SFdiv_core_binary prec emax (Zpos m1) e1 (Zpos m2) e2
  = (Zpos m1 * 2 ^ (e1 - e2
                     - Z.min (fexp prec emax
                                (Zpos (digits2_pos m1) + e1
                                 - (Zpos (digits2_pos m2) + e2)))
                         (e1 - e2)) / Zpos m2,
     Z.min (fexp prec emax
              (Zpos (digits2_pos m1) + e1 - (Zpos (digits2_pos m2) + e2)))
           (e1 - e2),
     new_location (Zpos m2)
       (Zpos m1 * 2 ^ (e1 - e2
                       - Z.min (fexp prec emax
                                  (Zpos (digits2_pos m1) + e1
                                   - (Zpos (digits2_pos m2) + e2)))
                           (e1 - e2)) mod Zpos m2)).
Proof.
  unfold SFdiv_core_binary. cbn [Zdigits2].
  set (e' := Z.min _ (e1 - e2)).
  assert (Hs : 0 <= e1 - e2 - e') by (unfold e'; lia).
  replace (match e1 - e2 - e' with
           | 0 => Zpos m1
           | Zpos _ => Z.shiftl (Zpos m1) (e1 - e2 - e')
           | Zneg _ => 0
           end) with (Zpos m1 * 2 ^ (e1 - e2 - e')).
  - now rewrite div_eucl_pair.
  - destruct (e1 - e2 - e') as [| s | s] eqn:Hes; try lia.
    now rewrite Z.shiftl_mul_pow2 by lia.
Qed.

(** Halving. *)
Lemma half_dyadic (k e : Z) :
  Z.abs k < 2 ^ 24 -> - 148 <= e <= 104 ->
  div (dyadic k e) two = dyadic k (e - 1).
Proof.
  intros Hk He.
  destruct (Z.eq_dec k 0) as [-> | Nk]; [reflexivity|].
  destruct (dyadic_finite k e Nk Hk) as (M & -> & _ & HM); [lia|].
  destruct (dyadic_finite k (e - 1) Nk Hk) as (M' & -> & _ & HM'); [lia|].
  destruct (cexp_bounds k e Hk) as [HE _]; [lia|].
  destruct (cexp_bounds k (e - 1) Hk) as [HE' Hmax']; [lia|].
  unfold div, two. cbn [SFdiv]. rewrite SFdiv_core_binary_spec.
  assert (Hd : Zpos (digits2_pos M) + cexp k e = Zdigits2 k + e).
  { assert (HdM : Zpos (digits2_pos M)
                  = Zdigits2 k + (e - cexp k e)).
    { destruct k as [| p | p]; [congruence | |]; cbn [Zdigits2 Z.abs] in *;
        apply (digits2_pos_shift _ M); lia. }
    lia. }
  change (Zpos (digits2_pos 8388608)) with 24.
  replace (Zpos (digits2_pos M) + cexp k e - (24 + -22))
    with (Zdigits2 k + e - 2) by lia.
  set (e' := Z.min (fexp prec emax (Zdigits2 k + e - 2)) (cexp k e - -22)).
  assert (He' : e' = Z.max (Zdigits2 k + e - 26) (- 149)).
  { unfold e', cexp in *. rewrite !fexp_eq in *. lia. }
  assert (Hdk : 1 <= Zdigits2 k <= 24).
  { destruct k as [| p | p]; [congruence | |]; cbn [Zdigits2 Z.abs] in *;
      (split; [lia | apply digits2_pos_le; lia]). }
  assert (Hcexp' : cexp k (e - 1) = Z.max (Zdigits2 k + e - 25) (- 149)).
  { unfold cexp. rewrite fexp_eq. f_equal. lia. }
  assert (Hquot : Zpos M * 2 ^ (cexp k e - -22 - e')
                  = Z.abs k * 2 ^ (e - 1 - e') * 8388608).
  { rewrite HM, <- Z.mul_assoc, <- Z.pow_add_r by lia.
    change 8388608 with (2 ^ 23).
    rewrite <- Z.mul_assoc, <- Z.pow_add_r by lia.
    do 2 f_equal. lia. }
  rewrite Hquot, Z.div_mul, Z.mod_mul by lia.
  change (new_location 8388608 0) with loc_Exact.
  assert (Hq : Z.abs k * 2 ^ (e - 1 - e')
               = Zpos (Z.to_pos (Z.abs k * 2 ^ (e - 1 - e')))).
  { symmetry. apply Z2Pos.id. apply Z.mul_pos_pos; [lia|].
    apply Z.pow_pos_nonneg; lia. }
  rewrite Hq.
  assert (Habs : exists p, Z.abs k = Zpos p /\ cexp (Zpos p) (e - 1) = cexp k (e - 1)).
  { destruct k as [| p | p]; [congruence | |]; exists p; split; reflexivity. }
  destruct Habs as (p & Hp & Hcp).
  rewrite xorb_false_r.
  rewrite (binary_round_aux_exact _ _ p e' (e - 1)).
  - rewrite Hcp. f_equal. apply Pos2Z.inj. rewrite HM', Hp.
    apply scaled_mantissa_pos. lia.
  - rewrite Hcp. lia.
  - rewrite Hcp. lia.
  - rewrite <- Hq, Hp. reflexivity.
Qed.

Lemma digits_times_five (p : positive) :
  Zpos (digits2_pos p) + 2 <= Zpos (digits2_pos (5 * p))
  <= Zpos (digits2_pos p) + 3.
Proof.
  pose proof (digits2_pos_bounds p) as [Hlo Hhi].
  pose proof (digits2_pos_bounds (5 * p)) as [Hlo5 Hhi5].
  rewrite Pos2Z.inj_mul in Hlo5, Hhi5.
  set (d := Zpos (digits2_pos p)) in *.
  set (d5 := Zpos (digits2_pos (5 * p))) in *.
  assert (Hd : 1 <= d) by (unfold d; lia).
  assert (Hd5 : 1 <= d5) by (unfold d5; lia).
  split.
  - assert (H : 2 ^ (d + 1) < 2 ^ d5).
    { replace (d + 1) with (d - 1 + 2) by lia.
      rewrite Z.pow_add_r by lia. change (2 ^ 2) with 4. lia. }
    apply Z.pow_lt_mono_r_iff in H; lia.
  - assert (H : 2 ^ (d5 - 1) < 2 ^ (d + 3)).
    { rewrite (Z.pow_add_r 2 d 3) by lia. change (2 ^ 3) with 8. lia. }
    apply Z.pow_lt_mono_r_iff in H; lia.
Qed.

Lemma new_location_above (m r : Z) :
  0 < r -> m < 2 * r -> new_location m r = loc_Inexact Gt.
Proof.
  intros Hr Hm.
  assert (H0 : (r =? 0) = false) by (apply Z.eqb_neq; lia).
  unfold new_location.
  destruct (Z.even m); unfold new_location_even, new_location_odd; rewrite H0.
  - f_equal. apply Z.compare_gt_iff. lia.
  - replace (2 * r + 1 ?= m) with Gt; [reflexivity|].
    symmetry. apply Z.compare_gt_iff. lia.
Qed.

Lemma pow_split (k a b : Z) :
  0 <= a -> 0 <= b -> k * 2 ^ (a + b) = k * 2 ^ a * 2 ^ b.
Proof. intros Ha Hb. rewrite Z.pow_add_r by lia. ring. Qed.

(** Five times a value. *)
Lemma mul_five_dyadic (n e : Z) :
  0 < n -> 5 * n < 2 ^ 24 -> - 149 <= e <= 104 ->
  mul five (dyadic n e) = dyadic (5 * n) e.
Proof.
  intros Hn H5 He.
  destruct n as [| p | p]; try lia.
  assert (Hp : Z.abs (Zpos p) < 2 ^ 24) by (cbn [Z.abs]; lia).
  assert (Hp5 : Z.abs (Zpos (5 * p)) < 2 ^ 24) by (cbn [Z.abs]; lia).
  destruct (cexp_bounds (Zpos p) e Hp He) as [HE _].
  destruct (cexp_bounds (Zpos (5 * p)) e Hp5 He) as [HE5 Hmax5].
  pose proof (digits_times_five p) as Hd.
  change (5 * Zpos p) with (Zpos (5 * p)).
  cbn [dyadic]. unfold mul, five. cbn [SFmul xorb].
  apply (binary_round_aux_exact false _ (5 * p) _ e).
  - unfold cexp in *. rewrite !fexp_eq in *. cbn [Zdigits2] in *. lia.
  - exact Hmax5.
  - rewrite !Pos2Z.inj_mul, scaled_mantissa_pos by lia.
    replace (e - (-21 + cexp (Zpos p) e)) with (e - cexp (Zpos p) e + 21) by lia.
    rewrite pow_split by lia. change (2 ^ 21) with 2097152. lia.
Qed.

(** The quotient of a value by ten times itself. *)
Lemma tenth_dyadic (s : bool) (n e : Z) :
  0 < n -> 5 * n < 2 ^ 24 -> - 148 <= e <= 104 ->
  div (dyadic (cond_Zopp s n) (e - 1)) (dyadic (5 * n) e)
  = if s then minus_tenth else tenth.
Proof.
  intros Hn H5 He.
  destruct n as [| p | p]; try lia.
  assert (Hp : Z.abs (Zpos p) < 2 ^ 24) by (cbn [Z.abs]; lia).
  assert (Hp5 : Z.abs (Zpos (5 * p)) < 2 ^ 24) by (cbn [Z.abs]; lia).
  destruct (cexp_bounds (Zpos p) (e - 1) Hp) as [HE1 _]; [lia|].
  destruct (cexp_bounds (Zpos (5 * p)) e Hp5) as [HE2 _]; [lia|].
  pose proof (digits_times_five p) as Hd.
  pose proof (digits2_pos_le p 24) as Hdp.
  pose proof (digits2_pos_le (5 * p) 24) as Hdp5.
  change (5 * Zpos p) with (Zpos (5 * p)).
  set (E1 := cexp (Zpos p) (e - 1)) in *.
  set (E2 := cexp (Zpos (5 * p)) e) in *.
  set (M1 := Z.to_pos (Zpos p * 2 ^ (e - 1 - E1))).
  set (M2 := Z.to_pos (Zpos (5 * p) * 2 ^ (e - E2))).
  assert (HM1 : Zpos M1 = Zpos p * 2 ^ (e - 1 - E1))
    by (apply scaled_mantissa_pos; lia).
  assert (HM2 : Zpos M2 = Zpos (5 * p) * 2 ^ (e - E2))
    by (apply scaled_mantissa_pos; lia).
  assert (Hform : dyadic (cond_Zopp s (Zpos p)) (e - 1) = S754_finite s M1 E1)
    by (destruct s; reflexivity).
  rewrite Hform. cbn [dyadic]. fold E2 M2.
  unfold div. cbn [SFdiv]. rewrite SFdiv_core_binary_spec.
  rewrite (digits2_pos_shift p M1 (e - 1 - E1)) by lia.
  rewrite (digits2_pos_shift (5 * p) M2 (e - E2)) by lia.
  set (d := Zpos (digits2_pos p)) in *.
  set (d5 := Zpos (digits2_pos (5 * p))) in *.
  replace (d + (e - 1 - E1) + E1 - (d5 + (e - E2) + E2)) with (d - 1 - d5)
    by lia.
  assert (HE1' : E1 = Z.max (d + e - 25) (- 149)).
  { unfold E1, cexp. rewrite fexp_eq. cbn [Zdigits2]. fold d. f_equal; lia. }
  assert (HE2' : E2 = Z.max (d5 + e - 24) (- 149)).
  { unfold E2, cexp. rewrite fexp_eq. cbn [Zdigits2]. fold d5. f_equal; lia. }
  assert (Hd1 : 1 <= d) by (unfold d; lia).
  assert (Hd24 : d5 <= 24) by (apply Hdp5; lia).
  rewrite fexp_eq.
  replace (Z.min (Z.max (d - 1 - d5 - 24) (- 149)) (E1 - E2))
    with (d - 1 - d5 - 24) by lia.
  set (w := Zpos p * 2 ^ (e - E2)).
  assert (Hw : 0 < w).
  { unfold w. apply Z.mul_pos_pos; [lia|]. apply Z.pow_pos_nonneg; lia. }
  assert (HM2w : Zpos M2 = 5 * w).
  { rewrite HM2, Pos2Z.inj_mul. unfold w. ring. }
  assert (Hnum : Zpos M1 * 2 ^ (E1 - E2 - (d - 1 - d5 - 24))
                 = w * 2 ^ (d5 - d + 24)).
  { rewrite HM1. unfold w. rewrite <- !pow_split by lia. do 2 f_equal; lia. }
  rewrite Hnum, HM2w.
  assert (Hcase : d5 - d = 2 \/ d5 - d = 3) by lia.
  destruct Hcase as [Hc | Hc]; rewrite Hc.
  - change (2 ^ (2 + 24)) with 67108864.
    replace (w * 67108864 / (5 * w)) with 13421772
      by (apply (Z.div_unique _ _ _ (4 * w)); lia).
    replace ((w * 67108864) mod (5 * w)) with (4 * w)
      by (apply (Z.mod_unique _ _ 13421772); lia).
    rewrite new_location_above by lia.
    replace (d - 1 - d5 - 24) with (- 27) by lia.
    destruct s; reflexivity.
  - change (2 ^ (3 + 24)) with 134217728.
    replace (w * 134217728 / (5 * w)) with 26843545
      by (apply (Z.div_unique _ _ _ (3 * w)); lia).
    replace ((w * 134217728) mod (5 * w)) with (3 * w)
      by (apply (Z.mod_unique _ _ 26843545); lia).
    rewrite new_location_above by lia.
    replace (d - 1 - d5 - 24) with (- 28) by lia.
    destruct s; reflexivity.
Qed.

(* ===================================================================== *)
(** ** Centring and scaling on a dyadic grid *)
(* ===================================================================== *)

Lemma fabs_dyadic (n e : Z) : 0 <= n -> fabs (dyadic n e) = dyadic n e.
Proof. destruct n as [| p | p]; intros Hn; try lia; reflexivity. Qed.

Lemma dyadic_double (k e : Z) :
  Z.abs k < 2 ^ 23 -> - 148 <= e <= 104 ->
  dyadic k e = dyadic (2 * k) (e - 1).
Proof.
  change (2 ^ 23) with 8388608. intros Hk He.
  assert (Hk' : Z.abs k < 2 ^ 24) by (change (2 ^ 24) with 16777216; lia).
  assert (H2k : Z.abs (2 * k) < 2 ^ 24) by (change (2 ^ 24) with 16777216; lia).
  rewrite <- (normalize_exact k 1 e) by lia.
  rewrite <- (scaled_dyadic (2 * k) (e - 1)) by lia.
  unfold scaled. f_equal. lia.
Qed.

(** One coordinate through the pass, the extrema being [lo] and [hi]:
    the centre and the span are exact, and so is the centred coordinate. *)
Lemma rescale_coord_dyadic (lo hi k e : Z) :
  Z.abs lo < 2 ^ 23 -> Z.abs hi < 2 ^ 23 -> lo <= k <= hi ->
  - 148 <= e <= 104 ->
  rescale_coord (dyadic lo e) (dyadic hi e) (dyadic k e)
  = div (dyadic (2 * k - hi - lo) (e - 1)) (mul five (dyadic (hi - lo) e)).
Proof.
  change (2 ^ 23) with 8388608. intros Hlo Hhi Hk He.
  assert (H24 : 2 ^ 24 = 16777216) by reflexivity.
  unfold rescale_coord.
  rewrite (add_dyadic hi lo e) by (rewrite ?H24; lia).
  rewrite half_dyadic by (rewrite ?H24; lia).
  rewrite (dyadic_double k e) by (change (2 ^ 23) with 8388608; lia).
  rewrite (sub_dyadic (2 * k) (hi + lo) (e - 1)) by (rewrite ?H24; lia).
  rewrite (sub_dyadic hi lo e) by (rewrite ?H24; lia).
  rewrite fabs_dyadic by lia.
  do 2 f_equal. lia.
Qed.

Section DyadicExtrema.

Variables (ks : list Z) (lo hi e : Z).
Hypothesis Hrange : Forall (fun k => Z.abs k < 2 ^ 24) ks.
Hypothesis He : - 149 <= e <= 104.
Hypothesis Hext : extrema ks lo hi.

Lemma coord_max_dyadic :
  coord_max (map (fun k => dyadic k e) ks) = Returned (dyadic hi e).
Proof.
  destruct Hext as (Hlo & Hhi & Hall).
  apply coord_max_top; [now apply (in_map (fun k => dyadic k e))|].
  apply Forall_map. rewrite Forall_forall in *. intros k Hk.
  pose proof (Hrange k Hk) as Rk. pose proof (Hall k Hk) as Bk.
  pose proof (Hrange hi Hhi) as Rhi.
  unfold top. rewrite !ltb_dyadic by assumption. split.
  - apply Z.ltb_ge. lia.
  - destruct (Z.eq_dec k hi) as [-> | Hne]; [now right | left].
    apply Z.ltb_lt. lia.
Qed.

Lemma coord_min_dyadic :
  coord_min (map (fun k => dyadic k e) ks) = Returned (dyadic lo e).
Proof.
  destruct Hext as (Hlo & Hhi & Hall).
  apply coord_min_bottom; [now apply (in_map (fun k => dyadic k e))|].
  apply Forall_map. rewrite Forall_forall in *. intros k Hk.
  pose proof (Hrange k Hk) as Rk. pose proof (Hall k Hk) as Bk.
  pose proof (Hrange lo Hlo) as Rlo.
  unfold bottom. rewrite !ltb_dyadic by assumption. split.
  - apply Z.ltb_ge. lia.
  - destruct (Z.eq_dec k lo) as [-> | Hne]; [now right | left].
    apply Z.ltb_lt. lia.
Qed.

End DyadicExtrema.

(** The coordinates after the pass, on an axis whose coordinates are
    [k * 2^e] with [|k| < 2^23]. *)
Lemma normalize_dyadic (ax : axis) (vs vs' : list VertexPositionColor)
    (ks : list Z) (lo hi e : Z) :
  coords ax vs = map (fun k => scaled k e) ks ->
  Forall (fun k => Z.abs k < 2 ^ 23) ks ->
  - 148 <= e <= 104 ->
  extrema ks lo hi ->
  normalize vs = Returned vs' ->
  coords ax vs'
  = map (fun k => div (dyadic (2 * k - hi - lo) (e - 1))
                      (mul five (dyadic (hi - lo) e))) ks.
Proof.
  intros Hks Hall He Hext Hnorm.
  assert (H23 : 2 ^ 23 = 8388608) by reflexivity.
  assert (H24 : 2 ^ 24 = 16777216) by reflexivity.
  assert (Hall' : Forall (fun k => Z.abs k < 2 ^ 24) ks).
  { eapply Forall_impl; [|exact Hall]. cbv beta. intros k Hk. lia. }
  assert (Hks' : coords ax vs = map (fun k => dyadic k e) ks).
  { rewrite Hks. apply map_ext_in. intros k Hk.
    rewrite Forall_forall in Hall'. apply scaled_dyadic; [auto | lia]. }
  assert (He' : - 149 <= e <= 104) by lia.
  pose proof (coord_max_dyadic ks lo hi e Hall' He' Hext) as Hmax.
  pose proof (coord_min_dyadic ks lo hi e Hall' He' Hext) as Hmin.
  rewrite <- Hks' in Hmax, Hmin.
  rewrite (normalize_coords vs vs' ax _ _ Hnorm Hmin Hmax), Hks', map_map.
  apply map_ext_in. intros k Hk.
  destruct Hext as (Hlo & Hhi & Hbetween).
  rewrite Forall_forall in Hall, Hbetween.
  apply rescale_coord_dyadic; auto.
Qed.

Lemma recomputed_span_coords (ax : axis) (vs ws : list VertexPositionColor) :
  coords ax vs = coords ax ws ->
  recomputed_span ax vs = recomputed_span ax ws.
Proof.
  intros H. unfold recomputed_span.
  now rewrite !axis_max_coords, !axis_min_coords, H.
Qed.

Lemma recomputed_span_returns (ax : axis) (vs : list VertexPositionColor) :
  vs <> [] -> exists s, recomputed_span ax vs = Returned s.
Proof.
  destruct vs as [|v rest]; [congruence|]. intros _.
  unfold recomputed_span, axis_max, axis_min.
  cbn [max_element min_element deref bind]. eexists. reflexivity.
Qed.

Lemma dyadic_coords (ax : axis) (vs : list VertexPositionColor) (e : Z)
    (P : Z -> Prop) :
  Forall (fun v => exists k, P k /\ coord ax (pos v) = scaled k e) vs ->
  exists ks, Forall P ks /\ coords ax vs = map (fun k => scaled k e) ks.
Proof.
  induction 1 as [|v rest (k & Hk & Hv) _ (ks & Hks & Hmap)].
  - now exists [].
  - exists (k :: ks). split; [now constructor|].
    cbn [coords map]. rewrite Hv. f_equal. exact Hmap.
Qed.

Section BoxAxis.

Variables (lo hi e : Z).
Hypothesis Hlt : lo < hi.
Hypothesis Hlo : Z.abs lo < 2 ^ 23.
Hypothesis Hhi : Z.abs hi < 2 ^ 23.
Hypothesis Hspan : 5 * (hi - lo) < 2 ^ 24.
Hypothesis He : - 148 <= e <= 104.

Lemma box_corners_dyadic :
  scaled lo e = dyadic lo e /\ scaled hi e = dyadic hi e.
Proof.
  assert (H23 : 2 ^ 23 = 8388608) by reflexivity.
  assert (H24 : 2 ^ 24 = 16777216) by reflexivity.
  split; apply scaled_dyadic; lia.
Qed.

(** The far face goes to [0.1f], the near face to [-0.1f]. *)
Lemma rescale_far_face :
  rescale_coord (scaled lo e) (scaled hi e) (scaled hi e) = tenth.
Proof.
  destruct box_corners_dyadic as [-> ->].
  rewrite rescale_coord_dyadic by (assumption || lia).
  rewrite mul_five_dyadic by lia.
  replace (2 * hi - hi - lo) with (cond_Zopp false (hi - lo))
    by (cbn [cond_Zopp]; lia).
  apply (tenth_dyadic false); lia.
Qed.

Lemma rescale_near_face :
  rescale_coord (scaled lo e) (scaled hi e) (scaled lo e) = minus_tenth.
Proof.
  destruct box_corners_dyadic as [-> ->].
  rewrite rescale_coord_dyadic by (assumption || lia).
  rewrite mul_five_dyadic by lia.
  replace (2 * lo - hi - lo) with (cond_Zopp true (hi - lo))
    by (cbn [cond_Zopp]; lia).
  apply (tenth_dyadic true); lia.
Qed.

Lemma box_faces_ordered :
  ltb (scaled lo e) (scaled hi e) = true
  /\ ltb (scaled hi e) (scaled lo e) = false
  /\ ltb (scaled lo e) (scaled lo e) = false
  /\ ltb (scaled hi e) (scaled hi e) = false.
Proof.
  assert (H23 : 2 ^ 23 = 8388608) by reflexivity.
  assert (H24 : 2 ^ 24 = 16777216) by reflexivity.
  destruct box_corners_dyadic as [-> ->].
  rewrite !ltb_dyadic by lia.
  repeat split; (apply Z.ltb_lt || apply Z.ltb_ge); lia.
Qed.

Lemma box_axis_normalized (ax : axis) (vs vs' : list VertexPositionColor) :
  box_faces ax vs lo hi e ->
  normalize vs = Returned vs' ->
  recomputed_center ax vs' = Returned zero
  /\ recomputed_span ax vs' = Returned fifth.
Proof.
  intros (Hall & Hnear & Hfar) Hnorm.
  destruct box_faces_ordered as (Hlh & Hhl & Hll & Hhh).
  assert (Hcs : Forall (fun c => c = scaled lo e \/ c = scaled hi e)
                  (coords ax vs))
    by (unfold coords; now apply Forall_map).
  assert (Hin_lo : In (scaled lo e) (coords ax vs)).
  { apply Exists_exists in Hnear as (v & Hv & <-).
    unfold coords. now apply (in_map (fun v => coord ax (pos v))). }
  assert (Hin_hi : In (scaled hi e) (coords ax vs)).
  { apply Exists_exists in Hfar as (v & Hv & <-).
    unfold coords. now apply (in_map (fun v => coord ax (pos v))). }
  assert (Hmax : coord_max (coords ax vs) = Returned (scaled hi e)).
  { apply coord_max_top; [exact Hin_hi|].
    eapply Forall_impl; [|exact Hcs]. cbv beta. unfold top.
    intros c [-> | ->]; auto. }
  assert (Hmin : coord_min (coords ax vs) = Returned (scaled lo e)).
  { apply coord_min_bottom; [exact Hin_lo|].
    eapply Forall_impl; [|exact Hcs]. cbv beta. unfold bottom.
    intros c [-> | ->]; auto. }
  pose proof (normalize_coords vs vs' ax _ _ Hnorm Hmin Hmax) as Hout.
  assert (Hout_all : Forall (fun q => q = minus_tenth \/ q = tenth)
                       (coords ax vs')).
  { rewrite Hout. apply Forall_map.
    eapply Forall_impl; [|exact Hcs]. cbv beta.
    intros c [-> | ->];
      [left; apply rescale_near_face | right; apply rescale_far_face]. }
  assert (Hout_lo : In minus_tenth (coords ax vs')).
  { rewrite Hout, <- rescale_near_face. now apply in_map. }
  assert (Hout_hi : In tenth (coords ax vs')).
  { rewrite Hout, <- rescale_far_face. now apply in_map. }
  assert (Hmax' : coord_max (coords ax vs') = Returned tenth).
  { apply coord_max_top; [exact Hout_hi|].
    eapply Forall_impl; [|exact Hout_all]. cbv beta. unfold top.
    intros q [-> | ->]; split; auto. }
  assert (Hmin' : coord_min (coords ax vs') = Returned minus_tenth).
  { apply coord_min_bottom; [exact Hout_lo|].
    eapply Forall_impl; [|exact Hout_all]. cbv beta. unfold bottom.
    intros q [-> | ->]; split; auto. }
  unfold recomputed_center, recomputed_span.
  rewrite axis_max_coords, axis_min_coords, Hmax', Hmin'.
  split; reflexivity.
Qed.

End BoxAxis.

(** C1.  A mesh whose vertices lie, on each axis, on the two faces
    [lo * 2^e < hi * 2^e] of a box (the cube with every coordinate +1 or -1,
    or any other axis-aligned cube), with [|lo|, |hi| < 2^23],
    [5 * (hi - lo) < 2^24] and [e] from -148 to 104, leaves the
    normalization pass with, on every axis, a recomputed center (max+min)/2
    of 0 and a recomputed span max-min of 0.2f: the original span divided by
    five times itself, whatever the original span.  Under these bounds
    max+min, max-min, the centred coordinates and 5.0f * (max-min) are all
    exact in binary32, and the quotient of half the span by five times the
    span rounds to 0.1f. *)
Theorem cube_normalized (vs : list VertexPositionColor)
    (lo hi e : axis -> Z) :
  (forall ax,
      box_faces ax vs (lo ax) (hi ax) (e ax)
      /\ lo ax < hi ax
      /\ Z.abs (lo ax) < 2 ^ 23 /\ Z.abs (hi ax) < 2 ^ 23
      /\ 5 * (hi ax - lo ax) < 2 ^ 24
      /\ - 148 <= e ax <= 104) ->
  exists vs',
    normalize vs = Returned vs'
    /\ forall ax, recomputed_center ax vs' = Returned zero
                  /\ recomputed_span ax vs' = Returned fifth.
Proof.
  intros Hbox.
  assert (Hne : vs <> []).
  { destruct (Hbox AxisX) as ((_ & Hnear & _) & _). intros ->.
    inversion Hnear. }
  destruct (normalize_nonempty vs Hne) as [vs' Hnorm].
  exists vs'. split; [exact Hnorm|]. intros ax.
  destruct (Hbox ax) as (Hfaces & Hlt & Hlo & Hhi & Hspan & He).
  exact (box_axis_normalized (lo ax) (hi ax) (e ax) Hlt Hlo Hhi Hspan He
           ax vs vs' Hfaces Hnorm).
Qed.

Lemma cube_normalized_witness :
  exists vs',
    normalize unit_cube = Returned vs'
    /\ forall ax, recomputed_center ax vs' = Returned zero
                  /\ recomputed_span ax vs' = Returned fifth.
Proof.
  apply (cube_normalized unit_cube (fun _ => -1) (fun _ => 1) (fun _ => 0)).
  intros ax. cbv beta. split; [|repeat split; lia].
  unfold box_faces, unit_cube. repeat split.
  - repeat (apply Forall_cons;
              [destruct ax; solve [left; reflexivity | right; reflexivity]|]).
    apply Forall_nil.
  - apply Exists_cons_hd. destruct ax; reflexivity.
  - do 7 apply Exists_cons_tl. apply Exists_cons_hd. destruct ax; reflexivity.
Defined.

(** C1, as stated, fails on the cube with every coordinate +1 or -1: the
    original span on the x axis is 2, the span recomputed after the pass is
    0.2f, and 2/5 is 0.4f. *)
Lemma unit_cube_span_is_not_original_over_5 :
  original_span AxisX unit_cube = Returned two
  /\ normalized_span AxisX unit_cube = Returned fifth
  /\ div two five = two_fifths
  /\ ~ (exists o,
          original_span AxisX unit_cube = Returned o
          /\ normalized_span AxisX unit_cube = Returned (div o five)).
Proof.
  repeat split; try reflexivity.
  intros (o & Ho & Hs). vm_compute in Ho. injection Ho as <-.
  vm_compute in Hs. discriminate Hs.
Qed.

(** The bounds of the statement above cannot simply be dropped.  On the
    cube from 8388608 to 8388611 the sum max+min is 2^24 + 3 and is
    rounded: the recomputed centre is not 0 and the recomputed span is not
    0.2f.  On the cube from 0 to 6710887 the product 5.0f * del is
    2^25 + 3 and is rounded: the recomputed span is one unit in the last
    place below 0.2f.  A rounded product does not always show: on the cube
    from -0.3f to 0.3f the recomputed span is 0.2f.  Below the normal
    numbers halving is not exact (the cube from 0 to 3 * 2^-149), and from
    2^105 on max+min overflows. *)
Lemma cubes_beyond_the_bounds :
  normalized_center AxisX (cube_between 8388608 8388611 0)
  = Returned (S754_finite true 8947849 (-28))
  /\ normalized_span AxisX (cube_between 8388608 8388611 0)
     = Returned (S754_finite false 13421774 (-26))
  /\ normalized_center AxisX (cube_between 0 6710887 0) = Returned zero
  /\ normalized_span AxisX (cube_between 0 6710887 0)
     = Returned (S754_finite false 13421772 (-26))
  /\ scaled 10066330 (-25) = div (of_Z 3) (of_Z 10)
  /\ normalized_center AxisX (cube_between (-10066330) 10066330 (-25))
     = Returned zero
  /\ normalized_span AxisX (cube_between (-10066330) 10066330 (-25))
     = Returned fifth
  /\ normalized_center AxisX (cube_between 0 3 (-149))
     = Returned (S754_finite true 8947849 (-28))
  /\ normalized_center AxisX (cube_between 8388605 8388607 105)
     = Returned (S754_infinity true)
  /\ normalized_span AxisX (cube_between 8388605 8388607 105) = Returned nan.
Proof. repeat split; vm_compute; reflexivity. Qed.

(** C4.  For a non-empty vertex set whose coordinates on an axis are
    multiples [k * 2^e] of one power of two, with [e] from -148 to 104 and
    [|k| < 2^23] before and after the move by [t * 2^e], the span max-min
    recomputed on that axis after the normalization pass is the same with
    and without the move: the move, the centre and the centred coordinates
    are then exact, and the two passes divide the same numbers. *)
Theorem translation_invariant_when_exact (ax : axis)
    (vs : list VertexPositionColor) (t e : Z) :
  vs <> [] ->
  - 148 <= e <= 104 ->
  Forall (fun v => exists k,
            (Z.abs k < 2 ^ 23 /\ Z.abs (k + t) < 2 ^ 23)
            /\ coord ax (pos v) = scaled k e) vs ->
  exists s,
    normalized_span ax vs = Returned s
    /\ normalized_span ax (map (translate ax (scaled t e)) vs) = Returned s.
Proof.
  intros Hne He Hgrid.
  assert (H23 : 2 ^ 23 = 8388608) by reflexivity.
  assert (H24 : 2 ^ 24 = 16777216) by reflexivity.
  destruct (dyadic_coords ax vs e _ Hgrid) as (ks & Hall & Hks).
  assert (Hks_ne : ks <> []).
  { intros ->. destruct vs; [congruence | discriminate Hks]. }
  destruct (extrema_exist ks Hks_ne) as (lo & hi & Hext).
  set (ws := map (translate ax (scaled t e)) vs).
  assert (Hws_ne : ws <> []).
  { unfold ws. destruct vs; [congruence | discriminate]. }
  destruct (normalize_nonempty vs Hne) as [vs' Hvs'].
  destruct (normalize_nonempty ws Hws_ne) as [ws' Hws'].
  assert (Ht : Z.abs t < 2 ^ 24).
  { destruct ks as [|k ks']; [congruence|].
    inversion Hall as [|? ? [Hk Hkt] _]; subst. lia. }
  assert (Hws : coords ax ws = map (fun k => scaled k e) (map (fun k => k + t) ks)).
  { unfold ws. rewrite translate_coords, Hks, !map_map.
    apply map_ext_in. intros k Hk. rewrite Forall_forall in Hall.
    destruct (Hall k Hk) as [Hk1 Hk2].
    rewrite !scaled_dyadic by lia. apply add_dyadic; lia. }
  assert (Hall1 : Forall (fun k => Z.abs k < 2 ^ 23) ks)
    by (eapply Forall_impl; [|exact Hall]; cbv beta; tauto).
  assert (Hall2 : Forall (fun k => Z.abs k < 2 ^ 23) (map (fun k => k + t) ks))
    by (apply Forall_map; eapply Forall_impl; [|exact Hall]; cbv beta; tauto).
  pose proof (normalize_dyadic ax vs vs' ks lo hi e Hks Hall1 He Hext Hvs')
    as Hout.
  pose proof (normalize_dyadic ax ws ws' (map (fun k => k + t) ks)
                (lo + t) (hi + t) e Hws Hall2 He
                (extrema_shift ks lo hi t Hext) Hws') as Hout'.
  assert (Hsame : coords ax ws' = coords ax vs').
  { rewrite Hout, Hout', map_map. apply map_ext. intros k.
    replace (2 * (k + t) - (hi + t) - (lo + t)) with (2 * k - hi - lo) by lia.
    replace (hi + t - (lo + t)) with (hi - lo) by lia. reflexivity. }
  assert (Hvs'_ne : vs' <> []).
  { intros ->. apply Hks_ne. symmetry in Hout.
    now apply map_eq_nil in Hout. }
  destruct (recomputed_span_returns ax vs' Hvs'_ne) as [s Hs].
  exists s. unfold normalized_span. rewrite Hvs', Hws'. cbn [bind].
  split; [exact Hs|].
  now rewrite (recomputed_span_coords ax ws' vs' Hsame).
Qed.

Lemma translation_invariant_when_exact_witness :
  exists s,
    normalized_span AxisX segment = Returned s
    /\ normalized_span AxisX (map (translate AxisX (scaled 4194304 0)) segment)
       = Returned s.
Proof.
  apply (translation_invariant_when_exact AxisX segment 4194304 0).
  - discriminate.
  - lia.
  - unfold segment.
    apply Forall_cons; [|apply Forall_cons; [|apply Forall_nil]].
    + exists 0. split; [split; lia | reflexivity].
    + exists 3. split; [split; lia | reflexivity].
Defined.

(** C4, as stated, fails.  The positions 0 and 3 on the x axis, moved by
    8388608 (2^23; both sums are exact), are centred on 8388610, since
    (8388608 + 8388611)/2 rounds to even, and the recomputed span is one
    unit in the last place above the span recomputed without the move.
    Moved by 67108864 (2^26) the two positions coincide, the span of the
    input is 0 and the recomputed span is 0/0. *)
Lemma translation_changes_span :
  map (translate AxisX (of_Z 8388608)) segment
  = [ vertex_at 8388608 0 0; vertex_at 8388611 0 0 ]
  /\ normalized_span AxisX segment = Returned fifth
  /\ normalized_span AxisX (map (translate AxisX (of_Z 8388608)) segment)
     = Returned (S754_finite false 13421774 (-26))
  /\ normalized_span AxisX (map (translate AxisX (of_Z 67108864)) segment)
     = Returned nan
  /\ normalized_span AxisX (map (translate AxisX (of_Z 8388608)) segment)
     <> normalized_span AxisX segment.
Proof.
  repeat split; try reflexivity. vm_compute. discriminate.
Qed.

(** Nor can the upper bound on the exponent: with 2^105 for unit the
    positions 0 and 3 can be moved by 4194304 units exactly, but max+min
    then overflows and the recomputed span is not a number. *)
Lemma translation_beyond_the_bounds :
  normalized_span AxisX [scaled_vertex 0 0 0 105; scaled_vertex 3 0 0 105]
  = Returned fifth
  /\ map (translate AxisX (scaled 4194304 105))
         [scaled_vertex 0 0 0 105; scaled_vertex 3 0 0 105]
     = [scaled_vertex 4194304 0 0 105; scaled_vertex 4194307 0 0 105]
  /\ normalized_span AxisX
       (map (translate AxisX (scaled 4194304 105))
            [scaled_vertex 0 0 0 105; scaled_vertex 3 0 0 105])
     = Returned nan.
Proof. repeat split; vm_compute; reflexivity. Qed.

(* ===================================================================== *)
(** * Further properties of the loader *)
(* ===================================================================== *)

(** ** Lines and numbers as they are written *)

Lemma getlines_terminated (delim : ascii) (lines : list string) :
  Forall (fun line => contains delim line = false) lines ->
  getlines delim (join_lines delim lines) = lines.
Proof.
  induction 1 as [|line rest Hline _ IH]; [reflexivity|].
  cbn [join_lines]. rewrite (getlines_app_delim delim line _ Hline).
  now rewrite IH.
Qed.

Lemma getlines_app_last (delim : ascii) (s last : string) :
  contains delim s = false -> contains delim last = false ->
  last <> EmptyString ->
  getlines delim (s ++ String delim last)%string = [s; last].
Proof.
  intros Hs Hlast Hne. rewrite (getlines_app_delim delim s last Hs).
  now rewrite (getlines_one delim last Hlast Hne).
Qed.

Lemma join_lines_app (delim : ascii) (l1 l2 : list string) :
  join_lines delim (l1 ++ l2)
  = (join_lines delim l1 ++ join_lines delim l2)%string.
Proof.
  induction l1 as [|line rest IH]; [reflexivity|].
  cbn [app join_lines]. rewrite IH.
  generalize (join_lines delim rest) (join_lines delim l2). intros u w.
  induction line as [|c line' IHl]; [reflexivity|].
  cbn [append]. now rewrite IHl.
Qed.

Lemma getlines_app_text (delim : ascii) (lines : list string) (last : string) :
  Forall (fun line => contains delim line = false) lines ->
  contains delim last = false ->
  getlines delim (join_lines delim lines ++ last)%string
  = lines ++ getlines delim last.
Proof.
  intros Hall Hlast. induction Hall as [|line rest Hline _ IH]; [reflexivity|].
  cbn [join_lines app].
  replace ((line ++ String delim (join_lines delim rest)) ++ last)%string
    with (line ++ String delim (join_lines delim rest ++ last))%string.
  - rewrite (getlines_app_delim delim line _ Hline). now rewrite IH.
  - clear. induction line as [|c line' IHl]; [reflexivity|].
    cbn [append]. now rewrite IHl.
Qed.

(** X1.  Reading back what was written: a text made of lines that hold no
    delimiter, each ended by the delimiter, is split into exactly these
    lines; a last line left without its delimiter is still read, unless it
    is empty. *)
Theorem getlines_reads_back (delim : ascii) (lines : list string)
    (last : string) :
  Forall (fun line => contains delim line = false) lines ->
  contains delim last = false ->
  getlines delim (join_lines delim lines) = lines
  /\ getlines delim (join_lines delim lines ++ last)%string
     = lines ++ (if String.eqb last EmptyString then [] else [last]).
Proof.
  intros Hall Hlast. split; [now apply getlines_terminated|].
  rewrite (getlines_app_text delim lines last Hall Hlast). f_equal.
  destruct last as [|c rest]; [reflexivity|].
  now apply getlines_one.
Qed.

Lemma getlines_reads_back_witness :
  getlines space (join_lines space ["v"; ""; "1"]%string)
  = ["v"; ""; "1"]%string
  /\ getlines space
       (join_lines space ["v"%string; ""%string; "1"%string] ++ "2")%string
     = ["v"%string; ""%string; "1"%string] ++ ["2"%string].
Proof.
  apply (getlines_reads_back space ["v"; ""; "1"]%string "2"%string).
  - repeat constructor.
  - reflexivity.
Defined.

Lemma stoi_uint (d : Decimal.uint) :
  d <> Decimal.Nil ->
  stoi (NilEmpty.string_of_uint d)
  = int_or_out_of_range (Z.of_N (Pos.of_uint d))
  /\ stoi (String "-"%char (NilEmpty.string_of_uint d))
     = int_or_out_of_range (- Z.of_N (Pos.of_uint d)).
Proof.
  intros Hnil.
  pose proof (read_digits_uint d) as Hread.
  assert (Hhead :
    skip_spaces (NilEmpty.string_of_uint d) = NilEmpty.string_of_uint d
    /\ starts_with_digit (NilEmpty.string_of_uint d) = true
    /\ match NilEmpty.string_of_uint d with
       | String c rest =>
           if Ascii.eqb c "-"%char then (true, rest)
           else if Ascii.eqb c "+"%char then (false, rest)
           else (false, NilEmpty.string_of_uint d)
       | EmptyString => (false, NilEmpty.string_of_uint d)
       end = (false, NilEmpty.string_of_uint d)).
  { destruct d; [congruence | repeat split; reflexivity ..]. }
  destruct Hhead as (Hskip & Hdigit & Hsign).
  split.
  - unfold stoi. rewrite Hskip, Hsign, Hdigit, Hread. reflexivity.
  - unfold stoi. cbn [skip_spaces].
    change (isspace "-") with false. cbv iota.
    change (Ascii.eqb "-" "-") with true. cbv iota.
    rewrite Hdigit, Hread. reflexivity.
Qed.

Lemma stoi_print_int (n : Z) : stoi (print_int n) = int_or_out_of_range n.
Proof.
  destruct n as [|p|p]; [reflexivity| |].
  - cbn [print_int]. unfold numeral.
    rewrite (proj1 (stoi_uint _ (Unsigned.to_uint_nonnil p))).
    now rewrite Unsigned.of_to.
  - cbn [print_int]. unfold numeral.
    rewrite (proj2 (stoi_uint _ (Unsigned.to_uint_nonnil p))).
    now rewrite Unsigned.of_to.
Qed.

Lemma out_of_range_above (v : Z) :
  INT_MAX < v -> int_or_out_of_range v = Thrown out_of_range.
Proof.
  intros Hv. unfold int_or_out_of_range.
  replace (INT_MAX <? v) with true by (symmetry; apply Z.ltb_lt; lia).
  now rewrite orb_true_r.
Qed.

(** X2.  [stoi] reads back the decimal writing of every integer that fits
    an [int], and throws [out_of_range] on the writing of any other. *)
Theorem stoi_reads_back (n : Z) :
  (INT_MIN <= n <= INT_MAX -> stoi (print_int n) = Returned n)
  /\ (n < INT_MIN \/ INT_MAX < n -> stoi (print_int n) = Thrown out_of_range).
Proof.
  rewrite stoi_print_int. unfold int_or_out_of_range. split; intros Hn.
  - replace (n <? INT_MIN) with false by (symmetry; apply Z.ltb_ge; lia).
    replace (INT_MAX <? n) with false by (symmetry; apply Z.ltb_ge; lia).
    reflexivity.
  - destruct Hn as [Hn | Hn].
    + replace (n <? INT_MIN) with true by (symmetry; apply Z.ltb_lt; lia).
      reflexivity.
    + now apply out_of_range_above.
Qed.

Lemma stoi_reads_back_witness :
  stoi (print_int (-2147483648)) = Returned (-2147483648)
  /\ stoi (print_int 2147483648) = Thrown out_of_range.
Proof.
  split.
  - apply (proj1 (stoi_reads_back (-2147483648))).
    unfold INT_MIN, INT_MAX. lia.
  - apply (proj2 (stoi_reads_back 2147483648)).
    right. unfold INT_MAX. lia.
Defined.

Lemma stoi_no_number (t : string) :
  no_number t = true ->
  stoi (before_first slash t) = Thrown invalid_argument.
Proof.
  unfold no_number, stoi.
  destruct (before_first slash t) as [|c rest]; [reflexivity|].
  intros H. apply andb_true_iff in H as [H Hdigit].
  apply andb_true_iff in H as [H Hplus].
  apply andb_true_iff in H as [Hspace Hminus].
  apply negb_true_iff in Hspace, Hminus, Hplus.
  cbn [skip_spaces]. rewrite Hspace, Hminus, Hplus.
  cbn [starts_with_digit]. now destruct (digit_value c).
Qed.

(** X3.  A face line whose first reference is the numeral of an integer
    above [INT_MAX] throws [out_of_range]: the turn returns no mesh. *)
Theorem huge_reference_throws (stof_spec : string -> exn + FLOAT)
    (indeterminate : XMFLOAT3) (a : positive) (sa r2 r3 : string) (m : Mesh) :
  INT_MAX < Zpos a ->
  reference_suffix sa = true ->
  contains space r2 = false -> contains hash r2 = false ->
  contains space r3 = false -> contains hash r3 = false ->
  r3 <> EmptyString ->
  parse_line stof_spec indeterminate
    (face_line (face_reference a sa) r2 r3) m
  = Thrown out_of_range.
Proof.
  intros Ha Hsa S2 H2 S3 H3 Hne.
  destruct (face_reference_facts a sa Hsa) as (Sa & Ha' & _ & Ca).
  rewrite (parse_line_record stof_spec indeterminate _ _ m
             (face_line_record _ r2 r3 Sa Ha' S2 H2 S3 H3 Hne)).
  change (String.eqb f_tag vn_tag) with false.
  change (String.eqb f_tag v_tag) with false.
  change (String.eqb f_tag f_tag) with true. cbv iota.
  unfold f_record. cbn [List.length Nat.eqb negb].
  unfold face_index at 1. cbn [subscript nth_error bind]. rewrite Ca.
  change (numeral a) with (print_int (Zpos a)).
  rewrite stoi_print_int, (out_of_range_above _ Ha). reflexivity.
Qed.

Lemma huge_reference_throws_witness :
  parse_line decimal_stof garbage "f 4294967296/1 2 3"%string empty_mesh
  = Thrown out_of_range.
Proof.
  apply (huge_reference_throws decimal_stof garbage 4294967296 "/1"%string
           "2"%string "3"%string empty_mesh);
    try reflexivity; discriminate.
Defined.

(** X4.  A face record with a reference in which [stoi] finds no number
    (an empty field, a field starting with a slash or with a character that
    is no digit, sign or white space), the references before it being
    numbers, throws [invalid_argument]. *)
Theorem numberless_reference_throws (stof_spec : string -> exn + FLOAT)
    (indeterminate : XMFLOAT3) (line t1 t2 t3 : string) (m : Mesh) :
  record_of line = Some [f_tag; t1; t2; t3] ->
  no_number t1 = true
  \/ ((exists n1, stoi (before_first slash t1) = Returned n1)
      /\ (no_number t2 = true
          \/ ((exists n2, stoi (before_first slash t2) = Returned n2)
              /\ no_number t3 = true))) ->
  parse_line stof_spec indeterminate line m = Thrown invalid_argument.
Proof.
  intros Hrec Hno.
  rewrite (parse_line_record stof_spec indeterminate line _ m Hrec).
  change (String.eqb f_tag vn_tag) with false.
  change (String.eqb f_tag v_tag) with false.
  change (String.eqb f_tag f_tag) with true. cbv iota.
  unfold f_record, face_index. cbn [List.length Nat.eqb negb subscript nth_error bind].
  destruct Hno as [H1 | [[n1 H1] [H2 | [[n2 H2] H3]]]].
  - now rewrite (stoi_no_number t1 H1).
  - rewrite H1. cbn [bind]. now rewrite (stoi_no_number t2 H2).
  - rewrite H1. cbn [bind]. rewrite H2. cbn [bind].
    now rewrite (stoi_no_number t3 H3).
Qed.

Lemma numberless_reference_throws_witness :
  parse_line decimal_stof garbage "f 7 /2 3"%string empty_mesh
  = Thrown invalid_argument
  /\ parse_line decimal_stof garbage "f  1 2"%string empty_mesh
     = Thrown invalid_argument.
Proof.
  split.
  - apply (numberless_reference_throws decimal_stof garbage "f 7 /2 3"%string
             "7"%string "/2"%string "3"%string empty_mesh eq_refl).
    right. split; [exists 7; reflexivity | left; reflexivity].
  - apply (numberless_reference_throws decimal_stof garbage "f  1 2"%string
             ""%string "1"%string "2"%string empty_mesh eq_refl).
    left. reflexivity.
Defined.

(** ** What each kind of line does to the two sequences *)

Lemma set_back_pos_app (front : list VertexPositionColor)
    (last : VertexPositionColor) (p : XMFLOAT3) :
  set_back_pos (front ++ [last]) p
  = Returned (front ++ [{| pos := p; color := color last |}]).
Proof.
  unfold set_back_pos, back, set_back. rewrite rev_app_distr.
  cbn [rev app bind]. now rewrite rev_involutive.
Qed.

Lemma set_back_pos_shape (vs vs' : list VertexPositionColor) (p : XMFLOAT3) :
  set_back_pos vs p = Returned vs' ->
  List.length vs' = List.length vs /\ map color vs' = map color vs.
Proof.
  destruct vs as [|v rest] using rev_ind; [discriminate|].
  rewrite set_back_pos_app. intros [= <-].
  rewrite !length_app, !map_app. split; reflexivity.
Qed.

Section LineEffects.

Variable stof_spec : string -> exn + FLOAT.
Variable indeterminate : XMFLOAT3.

Lemma vn_record_effect (rec : list string) (m m' : Mesh) :
  vn_record stof_spec indeterminate rec m = Returned m' ->
  indices m' = indices m
  /\ List.length (vertices m')
     = (List.length (vertices m)
        + if Nat.eqb (List.length rec) 4 then 1 else 0)%nat
  /\ map color (firstn (List.length (vertices m)) (vertices m'))
     = map color (vertices m).
Proof.
  unfold vn_record.
  destruct (Nat.eqb (List.length rec) 4); cbn [negb].
  - destruct (stof_at stof_spec rec 1) as [nx| |]; [|discriminate..].
    destruct (stof_at stof_spec rec 2) as [ny| |]; [|discriminate..].
    destruct (stof_at stof_spec rec 3) as [nz| |]; [|discriminate..].
    cbn [bind]. intros [= <-]. cbn [vertices indices].
    rewrite length_app. cbn [List.length].
    rewrite firstn_app, Nat.sub_diag, firstn_all. cbn [firstn].
    now rewrite app_nil_r.
  - intros [= <-]. rewrite firstn_all. repeat split. lia.
Qed.

Lemma v_record_effect (rec : list string) (m m' : Mesh) :
  v_record stof_spec rec m = Returned m' ->
  indices m' = indices m
  /\ List.length (vertices m') = List.length (vertices m)
  /\ map color (vertices m') = map color (vertices m).
Proof.
  unfold v_record.
  destruct (Nat.eqb (List.length rec) 4); destruct (Nat.eqb (List.length rec) 7);
    cbn [negb andb];
    repeat match goal with
           | |- context [stof_at stof_spec rec ?i] =>
               destruct (stof_at stof_spec rec i) as [?| |]; cbn [bind];
               [|discriminate..]
           end;
    try (intros [= <-]; now repeat split);
    match goal with
    | |- context [set_back_pos ?vs ?p] =>
        destruct (set_back_pos vs p) as [vs'| |] eqn:Hset; cbn [bind];
        [|discriminate..]
    end;
    intros [= <-]; cbn [vertices indices];
    destruct (set_back_pos_shape _ _ _ Hset); now repeat split.
Qed.

Lemma f_record_effect (rec : list string) (m m' : Mesh) :
  f_record rec m = Returned m' ->
  vertices m' = vertices m
  /\ List.length (indices m')
     = (List.length (indices m)
        + if Nat.eqb (List.length rec) 4 then 3 else 0)%nat
  /\ firstn (List.length (indices m)) (indices m') = indices m.
Proof.
  unfold f_record.
  destruct (Nat.eqb (List.length rec) 4); cbn [negb].
  - destruct (face_index rec 1) as [v1| |]; [|discriminate..].
    destruct (face_index rec 2) as [v2| |]; [|discriminate..].
    destruct (face_index rec 3) as [v3| |]; [|discriminate..].
    cbn [bind]. intros [= <-]. cbn [vertices indices].
    rewrite <- !app_assoc. cbn [app]. rewrite length_app. cbn [List.length].
    rewrite firstn_app, Nat.sub_diag, firstn_all. cbn [firstn].
    now rewrite app_nil_r.
  - intros [= <-]. rewrite firstn_all. repeat split. lia.
Qed.

(** One turn of the loop: a [vn] record adds one vertex, an [f] record adds
    three indices, and nothing else changes a length; what was in the
    sequences stays, but for the position of the last vertex. *)
Lemma parse_line_effect (line : string) (m m' : Mesh) :
  parse_line stof_spec indeterminate line m = Returned m' ->
  List.length (vertices m')
  = (List.length (vertices m) + if is_vn_record line then 1 else 0)%nat
  /\ List.length (indices m')
     = (List.length (indices m) + if is_f_record line then 3 else 0)%nat
  /\ firstn (List.length (indices m)) (indices m') = indices m
  /\ map color (firstn (List.length (vertices m)) (vertices m'))
     = map color (vertices m).
Proof.
  unfold is_vn_record, is_f_record.
  assert (Hsame : forall m0 : Mesh,
            List.length (vertices m0) = (List.length (vertices m0) + 0)%nat
            /\ List.length (indices m0) = (List.length (indices m0) + 0)%nat
            /\ firstn (List.length (indices m0)) (indices m0) = indices m0
            /\ map color (firstn (List.length (vertices m0)) (vertices m0))
               = map color (vertices m0)).
  { intros m0. rewrite !firstn_all. repeat split; lia. }
  destruct (record_of line) as [rec|] eqn:Hrec.
  - rewrite (parse_line_record stof_spec indeterminate line rec m Hrec).
    destruct rec as [|tag rest]; [intros [= <-]; apply Hsame|].
    cbn [has_tag].
    destruct (String.eqb tag vn_tag) eqn:Evn.
    + apply String.eqb_eq in Evn. subst tag.
      change (String.eqb vn_tag f_tag) with false. cbn [andb].
      intros Hvn. destruct (vn_record_effect _ _ _ Hvn) as (Hi & Hv & Hc).
      rewrite Hi, firstn_all. repeat split; auto; lia.
    + cbn [andb]. destruct (String.eqb tag v_tag) eqn:Ev.
      * apply String.eqb_eq in Ev. subst tag.
        change (String.eqb v_tag f_tag) with false. cbn [andb].
        intros Hv. destruct (v_record_effect _ _ _ Hv) as (Hi & Hl & Hc).
        rewrite Hi, Hl, !firstn_all, <- Hl, firstn_all. repeat split; auto; lia.
      * destruct (String.eqb tag f_tag) eqn:Ef; cbn [andb].
        -- intros Hf. destruct (f_record_effect _ _ _ Hf) as (Hv & Hl & Hp).
           rewrite Hv, firstn_all. repeat split; auto; lia.
        -- intros [= <-]. apply Hsame.
  - rewrite (parse_line_skipped stof_spec indeterminate line m Hrec).
    intros [= <-]. apply Hsame.
Qed.

Lemma read_records_app (l1 l2 : list string) (m : Mesh) :
  read_records stof_spec indeterminate (l1 ++ l2) m
  = (m1 <- read_records stof_spec indeterminate l1 m ;;
     read_records stof_spec indeterminate l2 m1).
Proof.
  revert m. induction l1 as [|line rest IH]; intros m; [reflexivity|].
  cbn [app read_records].
  destruct (parse_line stof_spec indeterminate line m); cbn [bind];
    [apply IH | reflexivity | reflexivity].
Qed.

Lemma read_records_counts (lines : list string) :
  forall m m',
    read_records stof_spec indeterminate lines m = Returned m' ->
    List.length (vertices m')
    = (List.length (vertices m) + count_lines is_vn_record lines)%nat
    /\ List.length (indices m')
       = (List.length (indices m) + 3 * count_lines is_f_record lines)%nat
    /\ firstn (List.length (indices m)) (indices m') = indices m.
Proof.
  unfold count_lines.
  induction lines as [|line rest IH]; intros m m'.
  - intros [= <-]. cbn. rewrite firstn_all. repeat split; lia.
  - cbn [read_records filter].
    destruct (parse_line stof_spec indeterminate line m) as [m1| |] eqn:Hline;
      cbn [bind]; [|discriminate..].
    intros Hrest.
    destruct (parse_line_effect line m m1 Hline) as (Hv1 & Hi1 & Hp1 & _).
    destruct (IH m1 m' Hrest) as (Hv & Hi & Hp).
    repeat split.
    + rewrite Hv, Hv1. destruct (is_vn_record line); cbn [List.length]; lia.
    + rewrite Hi, Hi1. destruct (is_f_record line); cbn [List.length]; lia.
    + transitivity (firstn (List.length (indices m))
                      (firstn (List.length (indices m1)) (indices m'))).
      * rewrite firstn_firstn. f_equal. lia.
      * rewrite Hp. exact Hp1.
Qed.

Lemma parseOBJ_counts (text : string) (m m' : Mesh) :
  parseOBJ stof_spec indeterminate (open_stream text) m = Returned m' ->
  List.length (vertices m')
  = (List.length (vertices m)
     + count_lines is_vn_record (getlines newline text))%nat
  /\ List.length (indices m')
     = (List.length (indices m)
        + 3 * count_lines is_f_record (getlines newline text))%nat
  /\ firstn (List.length (indices m)) (indices m') = indices m.
Proof.
  unfold parseOBJ. cbn [is_open open_stream negb content].
  destruct (read_records stof_spec indeterminate (getlines newline text) m)
    as [m1| |] eqn:Hread; cbn [bind]; [|discriminate..].
  destruct (normalize (vertices m1)) as [vs| |] eqn:Hnorm; cbn [bind];
    [|discriminate..].
  intros [= <-]. cbn [vertices indices].
  destruct (read_records_counts _ _ _ Hread) as (Hv & Hi & Hp).
  repeat split; auto. rewrite <- Hv.
  unfold normalize in Hnorm.
  repeat match type of Hnorm with
         | context [axis_max ?ax ?l] =>
             destruct (axis_max ax l) as [?| |]; [|discriminate Hnorm..]
         | context [axis_min ?ax ?l] =>
             destruct (axis_min ax l) as [?| |]; [|discriminate Hnorm..]
         end.
  cbn [bind] in Hnorm. injection Hnorm as <-. apply length_map.
Qed.

End LineEffects.

(** X5.  When [parseOBJ] returns on an open stream, the index sequence is
    the one it started with followed by three indices for each [f] record
    of four fields: started empty, its length is a multiple of three. *)
Theorem indices_come_in_threes (stof_spec : string -> exn + FLOAT)
    (indeterminate : XMFLOAT3) (text : string) (m m' : Mesh) :
  parseOBJ stof_spec indeterminate (open_stream text) m = Returned m' ->
  List.length (indices m')
  = (List.length (indices m)
     + 3 * count_lines is_f_record (getlines newline text))%nat
  /\ firstn (List.length (indices m)) (indices m') = indices m
  /\ (indices m = [] -> Nat.modulo (List.length (indices m')) 3 = 0%nat).
Proof.
  intros Hparse.
  destruct (parseOBJ_counts stof_spec indeterminate text m m' Hparse)
    as (_ & Hlen & Hprefix).
  repeat split; auto. intros Hempty. rewrite Hlen, Hempty. cbn [List.length].
  rewrite Nat.add_0_l, Nat.mul_comm. apply Nat.Div0.mod_mul.
Qed.

Lemma indices_come_in_threes_witness :
  exists m',
    parseOBJ decimal_stof garbage (open_stream two_vertices) empty_mesh
    = Returned m'
    /\ List.length (indices m') = (0 + 3 * 1)%nat
    /\ firstn 0 (indices m') = indices empty_mesh
    /\ (indices empty_mesh = [] ->
        Nat.modulo (List.length (indices m')) 3 = 0%nat).
Proof.
  eexists. split; [vm_compute; reflexivity|].
  apply (indices_come_in_threes decimal_stof garbage two_vertices empty_mesh).
  vm_compute. reflexivity.
Defined.

(** X6.  When [parseOBJ] returns on an open stream, the vertex sequence has
    one more vertex for each [vn] record of four fields, and no other line
    adds or removes one: [v] records only move the last vertex. *)
Theorem one_vertex_per_vn_record (stof_spec : string -> exn + FLOAT)
    (indeterminate : XMFLOAT3) (text : string) (m m' : Mesh) :
  parseOBJ stof_spec indeterminate (open_stream text) m = Returned m' ->
  List.length (vertices m')
  = (List.length (vertices m)
     + count_lines is_vn_record (getlines newline text))%nat.
Proof.
  intros Hparse.
  exact (proj1 (parseOBJ_counts stof_spec indeterminate text m m' Hparse)).
Qed.

Lemma one_vertex_per_vn_record_witness :
  exists m',
    parseOBJ decimal_stof garbage (open_stream two_vertices) empty_mesh
    = Returned m'
    /\ List.length (vertices m') = (0 + 2)%nat.
Proof.
  eexists. split; [vm_compute; reflexivity|].
  apply (one_vertex_per_vn_record decimal_stof garbage two_vertices empty_mesh).
  vm_compute. reflexivity.
Defined.

(** X7.  A [v] record of four fields that convert replaces the position of
    the last vertex and nothing else: the vertices before it, its colour
    and the indices are as they were. *)
Theorem v_line_moves_last_vertex (stof_spec : string -> exn + FLOAT)
    (indeterminate : XMFLOAT3) (line tx ty tz : string) (px py pz : FLOAT)
    (front : list VertexPositionColor) (last : VertexPositionColor)
    (m : Mesh) :
  record_of line = Some [v_tag; tx; ty; tz] ->
  stof_spec tx = inr px -> stof_spec ty = inr py -> stof_spec tz = inr pz ->
  vertices m = front ++ [last] ->
  parse_line stof_spec indeterminate line m
  = Returned {| vertices :=
                  front ++ [{| pos := {| x := px; y := py; z := pz |};
                               color := color last |}];
                indices := indices m |}.
Proof.
  intros Hrec Hx Hy Hz Hvs.
  rewrite (parse_line_record stof_spec indeterminate line _ m Hrec).
  change (String.eqb v_tag vn_tag) with false.
  change (String.eqb v_tag v_tag) with true. cbv iota.
  unfold v_record, stof_at, stof.
  cbn [List.length Nat.eqb negb andb subscript nth_error bind].
  rewrite Hx, Hy, Hz. cbn [bind]. rewrite Hvs, set_back_pos_app.
  reflexivity.
Qed.

Lemma v_line_moves_last_vertex_witness :
  parse_line decimal_stof garbage "v 3 -1 0"%string
    {| vertices := [vertex_at 1 1 1; vertex_at 2 2 2]; indices := [0; 0; 0] |}
  = Returned {| vertices := [vertex_at 1 1 1]
                  ++ [{| pos := {| x := of_Z 3; y := of_Z (-1); z := zero |};
                         color := color (vertex_at 2 2 2) |}];
                indices := [0; 0; 0] |}.
Proof.
  exact (v_line_moves_last_vertex decimal_stof garbage "v 3 -1 0"%string
           "3"%string "-1"%string "0"%string (of_Z 3) (of_Z (-1)) zero
           [vertex_at 1 1 1] (vertex_at 2 2 2)
           {| vertices := [vertex_at 1 1 1; vertex_at 2 2 2];
              indices := [0; 0; 0] |}
           eq_refl eq_refl eq_refl eq_refl eq_refl).
Defined.

(** X8.  The three colour fields of a seven-field [v] record are converted
    and dropped: when they convert, the record does what the four-field
    record with the same position does; when the position converts and the
    first colour field does not, the record throws what [stof] throws and
    the position is not stored. *)
Theorem v_line_colour_fields (stof_spec : string -> exn + FLOAT)
    (indeterminate : XMFLOAT3) (l7 l4 tx ty tz tr tg tb : string) (m : Mesh) :
  record_of l7 = Some [v_tag; tx; ty; tz; tr; tg; tb] ->
  record_of l4 = Some [v_tag; tx; ty; tz] ->
  ((exists r, stof_spec tr = inr r) ->
   (exists g, stof_spec tg = inr g) ->
   (exists b, stof_spec tb = inr b) ->
   parse_line stof_spec indeterminate l7 m
   = parse_line stof_spec indeterminate l4 m)
  /\ (forall e,
        (exists px, stof_spec tx = inr px) ->
        (exists py, stof_spec ty = inr py) ->
        (exists pz, stof_spec tz = inr pz) ->
        stof_spec tr = inl e ->
        parse_line stof_spec indeterminate l7 m = Thrown e).
Proof.
  intros H7 H4.
  rewrite (parse_line_record stof_spec indeterminate l7 _ m H7).
  rewrite (parse_line_record stof_spec indeterminate l4 _ m H4).
  change (String.eqb v_tag vn_tag) with false.
  change (String.eqb v_tag v_tag) with true. cbv iota.
  unfold v_record, stof_at, stof.
  cbn [List.length Nat.eqb negb andb subscript nth_error bind].
  split.
  - intros [r ->] [g ->] [b ->]. cbn [bind].
    destruct (stof_spec tx); cbn [bind]; [reflexivity|].
    destruct (stof_spec ty); cbn [bind]; [reflexivity|].
    destruct (stof_spec tz); reflexivity.
  - intros e [px ->] [py ->] [pz ->] ->. reflexivity.
Qed.

Lemma v_line_colour_fields_witness :
  parse_line decimal_stof garbage "v 3 -1 0 1 0.5 0"%string
    {| vertices := [vertex_at 2 2 2]; indices := [] |}
  = parse_line decimal_stof garbage "v 3 -1 0"%string
      {| vertices := [vertex_at 2 2 2]; indices := [] |}
  /\ parse_line decimal_stof garbage "v 3 -1 0 red 0.5 0"%string
       {| vertices := [vertex_at 2 2 2]; indices := [] |}
     = Thrown invalid_argument.
Proof.
  split.
  - apply (proj1 (v_line_colour_fields decimal_stof garbage
                    "v 3 -1 0 1 0.5 0"%string "v 3 -1 0"%string
                    "3"%string "-1"%string "0"%string
                    "1"%string "0.5"%string "0"%string
                    {| vertices := [vertex_at 2 2 2]; indices := [] |}
                    eq_refl eq_refl));
      eexists; vm_compute; reflexivity.
  - apply (proj2 (v_line_colour_fields decimal_stof garbage
                    "v 3 -1 0 red 0.5 0"%string "v 3 -1 0"%string
                    "3"%string "-1"%string "0"%string
                    "red"%string "0.5"%string "0"%string
                    {| vertices := [vertex_at 2 2 2]; indices := [] |}
                    eq_refl eq_refl) invalid_argument);
      solve [ eexists; vm_compute; reflexivity | reflexivity ].
Defined.

Lemma parse_line_ignored (stof_spec : string -> exn + FLOAT)
    (indeterminate : XMFLOAT3) (line : string) (m : Mesh) :
  ignored_line line = true ->
  parse_line stof_spec indeterminate line m = Returned m.
Proof.
  unfold ignored_line. intros Hign.
  destruct (record_of line) as [rec|] eqn:Hrec.
  - rewrite (parse_line_record stof_spec indeterminate line rec m Hrec).
    destruct rec as [|tag rest]; [reflexivity|]. cbn [has_tag] in Hign.
    apply andb_true_iff in Hign as [Hign Hf].
    apply andb_true_iff in Hign as [Hvn Hv].
    apply negb_true_iff in Hvn, Hv, Hf. now rewrite Hvn, Hv, Hf.
  - now apply parse_line_skipped.
Qed.

(** X9.  Lines the dispatch does nothing with (empty lines, lines holding a
    [#] anywhere, lines whose first field is none of [vn], [v], [f]) can be
    put in or taken out anywhere in the input without changing the outcome
    of the reading loop. *)
Theorem ignored_lines_change_nothing (stof_spec : string -> exn + FLOAT)
    (indeterminate : XMFLOAT3) (l1 l2 : list string) (line : string)
    (m : Mesh) :
  ignored_line line = true ->
  read_records stof_spec indeterminate (l1 ++ line :: l2) m
  = read_records stof_spec indeterminate (l1 ++ l2) m.
Proof.
  intros Hign. rewrite !read_records_app.
  destruct (read_records stof_spec indeterminate l1 m) as [m1| |];
    cbn [bind read_records]; try reflexivity.
  now rewrite (parse_line_ignored stof_spec indeterminate line m1 Hign).
Qed.

Lemma ignored_lines_change_nothing_witness :
  read_records decimal_stof garbage
    (["vn 0 0 1"%string] ++ "# this is v 1 2 3"%string :: ["v 1 2 3"%string])
    empty_mesh
  = read_records decimal_stof garbage
      (["vn 0 0 1"%string] ++ ["v 1 2 3"%string]) empty_mesh.
Proof.
  exact (ignored_lines_change_nothing decimal_stof garbage
           ["vn 0 0 1"%string] ["v 1 2 3"%string]
           "# this is v 1 2 3"%string empty_mesh eq_refl).
Defined.

(** X10.  An exception thrown at one line ends [parseOBJ] with that
    exception, whatever the lines after it: nothing is caught, the rest is
    not read and the centring and scaling is not run. *)
Theorem thrown_line_ends_parse (stof_spec : string -> exn + FLOAT)
    (indeterminate : XMFLOAT3) (l1 l2 : list string) (line : string)
    (m m1 : Mesh) (e : exn) :
  Forall (fun l => contains newline l = false) (l1 ++ line :: l2) ->
  read_records stof_spec indeterminate l1 m = Returned m1 ->
  parse_line stof_spec indeterminate line m1 = Thrown e ->
  parseOBJ stof_spec indeterminate
    (open_stream (join_lines newline (l1 ++ line :: l2))) m
  = Thrown e.
Proof.
  intros Hlines Hread Hthrow. unfold parseOBJ.
  cbn [is_open open_stream negb content].
  rewrite (getlines_terminated newline _ Hlines), read_records_app, Hread.
  cbn [bind read_records]. now rewrite Hthrow.
Qed.

Lemma thrown_line_ends_parse_witness :
  parseOBJ decimal_stof garbage
    (open_stream (join_lines newline
                    (["vn 0 0 1"%string] ++ "v 1 two 3"%string
                                            :: ["f 1 1 1"%string])))
    empty_mesh
  = Thrown invalid_argument.
Proof.
  eapply (thrown_line_ends_parse decimal_stof garbage ["vn 0 0 1"%string]
            ["f 1 1 1"%string] "v 1 two 3"%string empty_mesh).
  - repeat constructor.
  - vm_compute. reflexivity.
  - vm_compute. reflexivity.
Defined.

(* ===================================================================== *)
(** * Further properties of the centring and scaling *)
(* ===================================================================== *)

Lemma normalize_shape (vs vs' : list VertexPositionColor) :
  normalize vs = Returned vs' ->
  vs <> []
  /\ exists aX dX aY dY aZ dZ, vs' = map (rescale aX dX aY dY aZ dZ) vs.
Proof.
  intros Hnorm. split; [intros ->; discriminate Hnorm|].
  unfold normalize in Hnorm.
  repeat match type of Hnorm with
         | context [axis_max ?ax ?l] =>
             destruct (axis_max ax l) as [?| |]; [|discriminate Hnorm..]
         | context [axis_min ?ax ?l] =>
             destruct (axis_min ax l) as [?| |]; [|discriminate Hnorm..]
         end.
  cbn [bind] in Hnorm. injection Hnorm as <-. now repeat eexists.
Qed.

Lemma extrema_of_nonempty (cs : list FLOAT) :
  cs <> [] ->
  exists lo hi, coord_min cs = Returned lo /\ coord_max cs = Returned hi.
Proof.
  destruct cs as [|c rest]; [congruence|]. intros _.
  unfold coord_min, coord_max. cbn [min_element max_element deref].
  now repeat eexists.
Qed.

Lemma coords_nonempty (ax : axis) (vs : list VertexPositionColor) :
  vs <> [] -> coords ax vs <> [].
Proof. destruct vs; [congruence | discriminate]. Qed.

(** X11.  The centring and scaling keeps the number and the order of the
    vertices and does not touch their colours. *)
Theorem normalize_keeps_colours (vs vs' : list VertexPositionColor) :
  normalize vs = Returned vs' ->
  List.length vs' = List.length vs /\ map color vs' = map color vs.
Proof.
  intros Hnorm.
  destruct (normalize_shape vs vs' Hnorm)
    as (_ & aX & dX & aY & dY & aZ & dZ & ->).
  split; [apply length_map|]. rewrite map_map. now apply map_ext.
Qed.

Lemma normalize_keeps_colours_witness :
  exists vs',
    normalize unit_cube = Returned vs'
    /\ List.length vs' = List.length unit_cube
    /\ map color vs' = map color unit_cube.
Proof.
  eexists. split; [vm_compute; reflexivity|].
  apply (normalize_keeps_colours unit_cube). vm_compute. reflexivity.
Defined.

Lemma top_tenth_leb (q : FLOAT) : top tenth q -> leb q tenth = true.
Proof.
  unfold top, leb, ltb, SFleb, SFltb. intros [_ [Hlt | ->]]; [|reflexivity].
  destruct (SFcompare q tenth) as [[| |]|]; try discriminate Hlt; reflexivity.
Qed.

Lemma bottom_minus_tenth_leb (q : FLOAT) :
  bottom minus_tenth q -> leb minus_tenth q = true.
Proof.
  unfold bottom, leb, ltb, SFleb, SFltb. intros [_ [Hlt | ->]]; [|reflexivity].
  destruct (SFcompare minus_tenth q) as [[| |]|]; try discriminate Hlt;
    reflexivity.
Qed.

Lemma grid_axis_output (ax : axis) (vs vs' : list VertexPositionColor)
    (ks : list Z) (lo hi : Z) :
  coords ax vs = map of_Z ks ->
  Forall (fun k => - 16 <= k <= 16) ks ->
  extrema ks lo hi ->
  normalize vs = Returned vs' ->
  coords ax vs'
  = map (fun k => rescale_coord (of_Z lo) (of_Z hi) (of_Z k)) ks.
Proof.
  intros Hks Hrange Hext Hnorm.
  pose proof (coord_max_grid ks lo hi Hrange Hext) as Hmax.
  pose proof (coord_min_grid ks lo hi Hrange Hext) as Hmin.
  rewrite <- Hks in Hmax, Hmin.
  rewrite (normalize_coords vs vs' ax _ _ Hnorm Hmin Hmax), Hks.
  apply map_map.
Qed.

Lemma grid_keys (ax : axis) (vs : list VertexPositionColor) :
  vs <> [] -> on_grid 16 ax vs ->
  exists ks lo hi,
    coords ax vs = map of_Z ks
    /\ Forall (fun k => - 16 <= k <= 16) ks
    /\ extrema ks lo hi.
Proof.
  intros Hne Hgrid.
  destruct (on_grid_coords 16 ax vs Hgrid) as (ks & Hrange & Hks).
  assert (Hks_ne : ks <> []).
  { intros ->. destruct vs; [congruence | discriminate Hks]. }
  destruct (extrema_exist ks Hks_ne) as (lo & hi & Hext).
  now exists ks, lo, hi.
Qed.

(** X12.  On an axis where the coordinates are integers of magnitude at
    most 16 and differ somewhere, every position the pass leaves lies from
    -0.1f to 0.1f: the mesh fits the cube of edge 0.2 the source comment
    announces. *)
Theorem grid_mesh_fits_cube (ax : axis) (vs vs' : list VertexPositionColor) :
  on_grid 16 ax vs ->
  spread ax vs ->
  normalize vs = Returned vs' ->
  Forall (fun v' => leb minus_tenth (coord ax (pos v')) = true
                    /\ leb (coord ax (pos v')) tenth = true) vs'.
Proof.
  intros Hgrid Hspread Hnorm.
  destruct (normalize_shape vs vs' Hnorm) as [Hne _].
  destruct (grid_keys ax vs Hne Hgrid) as (ks & lo & hi & Hks & Hrange & Hext).
  pose proof (grid_axis_output ax vs vs' ks lo hi Hks Hrange Hext Hnorm)
    as Hout.
  pose proof (spread_extrema ax vs ks lo hi Hks Hext Hspread) as Hlt.
  assert (Hall : Forall (fun q => leb minus_tenth q = true
                                  /\ leb q tenth = true) (coords ax vs')).
  { rewrite Hout. apply Forall_map, Forall_forall. intros k Hk.
    pose proof (rescaled_between ks lo hi Hrange Hext k Hk) as Hq.
    cbv zeta in Hq. rewrite Hlt in Hq. destruct Hq as (Htop & Hbot & _).
    split; [now apply bottom_minus_tenth_leb | now apply top_tenth_leb]. }
  unfold coords in Hall. now rewrite Forall_map in Hall.
Qed.

Lemma unit_cube_on_grid (ax : axis) :
  on_grid 16 ax unit_cube /\ spread ax unit_cube.
Proof.
  split.
  - unfold on_grid, unit_cube.
    repeat constructor;
      destruct ax;
      solve [ exists 1; split; [lia | reflexivity]
            | exists (-1); split; [lia | reflexivity] ].
  - destruct ax.
    + exists (vertex_at (-1) (-1) (-1)), (vertex_at 1 (-1) (-1)).
      split; [cbn; tauto | split; [cbn; tauto | discriminate]].
    + exists (vertex_at (-1) (-1) (-1)), (vertex_at (-1) 1 (-1)).
      split; [cbn; tauto | split; [cbn; tauto | discriminate]].
    + exists (vertex_at (-1) (-1) (-1)), (vertex_at (-1) (-1) 1).
      split; [cbn; tauto | split; [cbn; tauto | discriminate]].
Qed.

Lemma grid_mesh_fits_cube_witness :
  exists vs',
    normalize unit_cube = Returned vs'
    /\ Forall (fun v' => leb minus_tenth (coord AxisY (pos v')) = true
                         /\ leb (coord AxisY (pos v')) tenth = true) vs'.
Proof.
  eexists. split; [vm_compute; reflexivity|].
  apply (grid_mesh_fits_cube AxisY unit_cube).
  - exact (proj1 (unit_cube_on_grid AxisY)).
  - exact (proj2 (unit_cube_on_grid AxisY)).
  - vm_compute. reflexivity.
Defined.

(** X13.  On an axis where all the coordinates are one same integer of
    magnitude at most 16 (a mesh lying in one plane, or a single vertex),
    the span is 0, the division is 0/0 and every position the pass leaves
    is NaN on that axis. *)
Theorem flat_axis_gives_nan (ax : axis) (vs vs' : list VertexPositionColor) :
  on_grid 16 ax vs ->
  (forall v w, In v vs -> In w vs ->
               coord ax (pos v) = coord ax (pos w)) ->
  normalize vs = Returned vs' ->
  Forall (fun v' => coord ax (pos v') = nan) vs'.
Proof.
  intros Hgrid Hflat Hnorm.
  destruct (normalize_shape vs vs' Hnorm) as [Hne _].
  destruct (grid_keys ax vs Hne Hgrid) as (ks & lo & hi & Hks & Hrange & Hext).
  pose proof (grid_axis_output ax vs vs' ks lo hi Hks Hrange Hext Hnorm)
    as Hout.
  destruct (extrema_in_range ks lo hi Hrange Hext) as (Rlo & Rhi & Hle).
  assert (Hsame : of_Z lo = of_Z hi).
  { destruct Hext as (Hlo & Hhi & _).
    assert (Hin : forall k, In k ks ->
                    exists v, In v vs /\ coord ax (pos v) = of_Z k).
    { intros k Hk.
      assert (Hc : In (of_Z k) (coords ax vs))
        by (rewrite Hks; now apply in_map).
      unfold coords in Hc. apply in_map_iff in Hc as (v & Hv & Hvin).
      now exists v. }
    destruct (Hin lo Hlo) as (v & Hv & <-), (Hin hi Hhi) as (w & Hw & <-).
    now apply Hflat. }
  assert (Hlt : (lo <? hi) = false).
  { rewrite <- (order_on_grid lo hi Rlo Rhi), Hsame.
    rewrite (order_on_grid hi hi Rhi Rhi). apply Z.ltb_irrefl. }
  assert (Hall : Forall (fun q => q = nan) (coords ax vs')).
  { rewrite Hout. apply Forall_map, Forall_forall. intros k Hk.
    pose proof (rescaled_between ks lo hi Hrange Hext k Hk) as Hq.
    cbv zeta in Hq. now rewrite Hlt in Hq. }
  unfold coords in Hall. now rewrite Forall_map in Hall.
Qed.

Lemma flat_axis_gives_nan_witness :
  exists vs',
    normalize segment = Returned vs'
    /\ Forall (fun v' => coord AxisZ (pos v') = nan) vs'.
Proof.
  eexists. split; [vm_compute; reflexivity|].
  apply (flat_axis_gives_nan AxisZ segment).
  - unfold on_grid, segment.
    apply Forall_cons; [exists 0; split; [lia | reflexivity]|].
    apply Forall_cons; [exists 0; split; [lia | reflexivity]|].
    apply Forall_nil.
  - intros v w [<- | [<- | []]] [<- | [<- | []]]; reflexivity.
  - vm_compute. reflexivity.
Defined.

(** X14.  The axes are treated apart: the positions the pass leaves on one
    axis depend on the input positions on that axis only, not on the other
    two coordinates nor on the colours. *)
Theorem axes_are_independent (ax : axis)
    (vs1 vs2 vs1' vs2' : list VertexPositionColor) :
  coords ax vs1 = coords ax vs2 ->
  normalize vs1 = Returned vs1' ->
  normalize vs2 = Returned vs2' ->
  coords ax vs1' = coords ax vs2'.
Proof.
  intros Hsame H1 H2.
  destruct (normalize_shape vs1 vs1' H1) as [Hne1 _].
  destruct (extrema_of_nonempty (coords ax vs1) (coords_nonempty ax vs1 Hne1))
    as (lo & hi & Hmin & Hmax).
  rewrite (normalize_coords vs1 vs1' ax lo hi H1 Hmin Hmax).
  rewrite Hsame in Hmin, Hmax.
  rewrite (normalize_coords vs2 vs2' ax lo hi H2 Hmin Hmax).
  now rewrite Hsame.
Qed.

Lemma axes_are_independent_witness :
  exists vs1' vs2',
    normalize segment = Returned vs1'
    /\ normalize [vertex_at 0 5 (-2); vertex_at 3 1 7] = Returned vs2'
    /\ coords AxisX vs1' = coords AxisX vs2'.
Proof.
  eexists. eexists. split; [vm_compute; reflexivity|].
  split; [vm_compute; reflexivity|].
  apply (axes_are_independent AxisX segment
           [vertex_at 0 5 (-2); vertex_at 3 1 7]);
    vm_compute; reflexivity.
Defined.

Lemma max_from_nan (cs : list FLOAT) : max_from ltb nan cs = nan.
Proof. induction cs as [|c rest IH]; [reflexivity | exact IH]. Qed.

Lemma min_from_nan (cs : list FLOAT) : min_from ltb nan cs = nan.
Proof.
  induction cs as [|c rest IH]; [reflexivity|]. cbn [min_from].
  replace (ltb c nan) with false; [exact IH|].
  unfold ltb, SFltb, SFcompare. now destruct c.
Qed.

Lemma rescale_coord_nan (c : FLOAT) : rescale_coord nan nan c = nan.
Proof. unfold rescale_coord. now destruct c. Qed.

(** X15.  A first vertex whose position is NaN on an axis is returned by
    both extremum scans of that axis (no comparison with NaN is true), so
    the centre and the span are NaN and every position the pass leaves is
    NaN on that axis. *)
Theorem nan_first_vertex_poisons_axis (ax : axis) (v : VertexPositionColor)
    (rest vs' : list VertexPositionColor) :
  coord ax (pos v) = nan ->
  normalize (v :: rest) = Returned vs' ->
  axis_max ax (v :: rest) = Returned nan
  /\ axis_min ax (v :: rest) = Returned nan
  /\ Forall (fun v' => coord ax (pos v') = nan) vs'.
Proof.
  intros Hnan Hnorm.
  assert (Hmax : coord_max (coords ax (v :: rest)) = Returned nan).
  { unfold coord_max. cbn [coords map max_element deref]. rewrite Hnan.
    f_equal. apply max_from_nan. }
  assert (Hmin : coord_min (coords ax (v :: rest)) = Returned nan).
  { unfold coord_min. cbn [coords map min_element deref]. rewrite Hnan.
    f_equal. apply min_from_nan. }
  rewrite axis_max_coords, axis_min_coords. repeat split; auto.
  pose proof (normalize_coords _ vs' ax nan nan Hnorm Hmin Hmax) as Hout.
  assert (Hall : Forall (fun q => q = nan) (coords ax vs')).
  { rewrite Hout. apply Forall_map, Forall_forall. intros c _.
    apply rescale_coord_nan. }
  unfold coords in Hall. now rewrite Forall_map in Hall.
Qed.

Lemma nan_first_vertex_poisons_axis_witness :
  exists vs',
    normalize ({| pos := garbage; color := garbage |} :: unit_cube)
    = Returned vs'
    /\ axis_max AxisX ({| pos := garbage; color := garbage |} :: unit_cube)
       = Returned nan
    /\ axis_min AxisX ({| pos := garbage; color := garbage |} :: unit_cube)
       = Returned nan
    /\ Forall (fun v' => coord AxisX (pos v') = nan) vs'.
Proof.
  eexists. split; [vm_compute; reflexivity|].
  apply (nan_first_vertex_poisons_axis AxisX
           {| pos := garbage; color := garbage |} unit_cube).
  - reflexivity.
  - vm_compute. reflexivity.
Defined.

Lemma max_from_in {A : Type} (comp : A -> A -> bool) (l : list A) :
  forall c, In (max_from comp c l) (c :: l).
Proof.
  induction l as [|a rest IH]; intros c; [now left|]. cbn [max_from].
  destruct (IH (if comp c a then a else c)) as [Heq | Hin].
  - rewrite <- Heq. destruct (comp c a); [right; now left | now left].
  - right. now right.
Qed.

Lemma min_from_in {A : Type} (comp : A -> A -> bool) (l : list A) :
  forall c, In (min_from comp c l) (c :: l).
Proof.
  induction l as [|a rest IH]; intros c; [now left|]. cbn [min_from].
  destruct (IH (if comp a c then a else c)) as [Heq | Hin].
  - rewrite <- Heq. destruct (comp a c); [right; now left | now left].
  - right. now right.
Qed.

(** X16.  On a non-empty range each extremum scan returns an element of the
    range, and the first one whenever no later element compares above it
    (for the maximum) or below it (for the minimum): ties go to the first
    encountered. *)
Theorem extremum_scans_pick_first {A : Type} (comp : A -> A -> bool)
    (a : A) (rest : list A) :
  (exists b, max_element comp (a :: rest) = Some b /\ In b (a :: rest))
  /\ (exists b, min_element comp (a :: rest) = Some b /\ In b (a :: rest))
  /\ ((forall c, In c rest -> comp a c = false) ->
      max_element comp (a :: rest) = Some a)
  /\ ((forall c, In c rest -> comp c a = false) ->
      min_element comp (a :: rest) = Some a).
Proof.
  repeat split.
  - eexists. split; [reflexivity | apply max_from_in].
  - eexists. split; [reflexivity | apply min_from_in].
  - intros Hnone. cbn [max_element]. f_equal.
    induction rest as [|c rest' IH]; [reflexivity|]. cbn [max_from].
    rewrite (Hnone c (or_introl eq_refl)). apply IH.
    intros d Hd. apply Hnone. now right.
  - intros Hnone. cbn [min_element]. f_equal.
    induction rest as [|c rest' IH]; [reflexivity|]. cbn [min_from].
    rewrite (Hnone c (or_introl eq_refl)). apply IH.
    intros d Hd. apply Hnone. now right.
Qed.

Lemma extremum_scans_pick_first_witness :
  max_element (less AxisX) (vertex_at 1 0 0 :: [vertex_at 1 5 5; vertex_at 0 2 2])
  = Some (vertex_at 1 0 0)
  /\ min_element (less AxisY) (vertex_at 1 0 0 :: [vertex_at 1 5 5; vertex_at 0 0 2])
     = Some (vertex_at 1 0 0).
Proof.
  split.
  - apply (proj1 (proj2 (proj2
             (extremum_scans_pick_first (less AxisX) (vertex_at 1 0 0)
                [vertex_at 1 5 5; vertex_at 0 2 2])))).
    intros c [<- | [<- | []]]; reflexivity.
  - apply (proj2 (proj2 (proj2
             (extremum_scans_pick_first (less AxisY) (vertex_at 1 0 0)
                [vertex_at 1 5 5; vertex_at 0 0 2])))).
    intros c [<- | [<- | []]]; reflexivity.
Defined.

(* ===================================================================== *)
(** * Further properties of the resource lifecycle *)
(* ===================================================================== *)

Module LifecycleMore.
Import Lifecycle.

Ltac open_state s :=
  destruct s as [[? ? ? ? ? ? ? ? ? ? ?] [? ? ? ? ? ? ? ?]];
  cbn in *.

Lemma steps_trans (s1 s2 s3 : State) :
  steps s1 s2 -> steps s2 s3 -> steps s1 s3.
Proof.
  intros H12 H23. induction H23 as [s | s a b Hab IH Hlast]; [exact H12|].
  exact (steps_step s1 a b (IH H12) Hlast).
Qed.

Lemma run_steps (n : nat) (s s' : State) : run n s s' -> steps s s'.
Proof.
  induction 1 as [s | n s1 s2 s3 _ IH Hlast]; [apply steps_refl|].
  exact (steps_step s1 s2 s3 IH Hlast).
Qed.

Lemma step_finishes_one_task (s s' : State) :
  step s s' -> S (pending_tasks s') = pending_tasks s.
Proof.
  intros Hstep. destruct Hstep;
    try destruct ok; try destruct ok1; try destruct ok2;
    unfold pending_tasks; open_state s; subst; cbn [is_pending]; lia.
Qed.

(** X17.  Each step of the task graph finishes exactly one task, so an
    execution started by [CreateDeviceDependentResources] has as many steps
    as tasks it has finished: at most six with the capability (the
    geometry-shader tasks are never scheduled), at most eight without. *)
Theorem executions_are_bounded (supportsVprt : bool) (r : OBJRenderer)
    (n : nat) (s : State) :
  run n (CreateDeviceDependentResources supportsVprt r) s ->
  (n + pending_tasks s)%nat = (if supportsVprt then 6 else 8)%nat.
Proof.
  intros Hrun.
  remember (CreateDeviceDependentResources supportsVprt r) as s0 eqn:Hs0.
  induction Hrun as [s | n s1 s2 s3 Hrun IH Hlast].
  - subst s. now destruct supportsVprt.
  - specialize (IH Hs0). apply step_finishes_one_task in Hlast. lia.
Qed.

Lemma executions_are_bounded_witness :
  (2 + pending_tasks
         (with_tasks
            (with_tasks (CreateDeviceDependentResources true fresh)
               (set_loadVS (tasks (CreateDeviceDependentResources true fresh))
                  Completed))
            (set_loadPS
               (set_loadVS (tasks (CreateDeviceDependentResources true fresh))
                  Completed) Faulted)))%nat
  = 6%nat.
Proof.
  apply (executions_are_bounded true fresh 2).
  eapply run_more; [eapply run_more; [apply run_none|]|].
  - exact (read_VS (CreateDeviceDependentResources true fresh) true eq_refl).
  - exact (read_PS
             (with_tasks (CreateDeviceDependentResources true fresh)
                (set_loadVS (tasks (CreateDeviceDependentResources true fresh))
                   Completed)) false eq_refl).
Defined.

Lemma causal_initial (supportsVprt : bool) (r : OBJRenderer) :
  m_loadingComplete r = false ->
  causal (CreateDeviceDependentResources supportsVprt r).
Proof.
  intros Hclear. unfold causal; cbn.
  destruct supportsVprt; repeat split; intros; try discriminate;
    congruence.
Qed.

Lemma causal_step (s s' : State) : causal s -> step s s' -> causal s'.
Proof.
  intros Hinv Hstep. destruct Hstep;
    try match goal with
        | H : shaderTaskGroup _ = Completed |- _ =>
            apply LifecycleFacts.shaderTaskGroup_completed in H
        end;
    try destruct ok; try destruct ok1; try destruct ok2;
    unfold causal in *; open_state s; subst;
    intuition (try discriminate; try congruence).
Qed.

Lemma causal_steps (s s' : State) : causal s -> steps s s' -> causal s'.
Proof.
  intros Hinv Hsteps.
  induction Hsteps as [s1 | s1 s2 s3 Hfirst IH Hlast]; [exact Hinv|].
  exact (causal_step s2 s3 (IH Hinv) Hlast).
Qed.

Lemma fault_persists (s s' : State) :
  step s s' -> some_task_faulted s -> some_task_faulted s'.
Proof.
  intros Hstep Hfault. destruct Hstep;
    try destruct ok; try destruct ok1; try destruct ok2;
    unfold some_task_faulted in *; open_state s; subst;
    intuition (try discriminate; try congruence).
Qed.

Lemma fault_persists_steps (s s' : State) :
  steps s s' -> some_task_faulted s -> some_task_faulted s'.
Proof.
  intros Hsteps Hfault.
  induction Hsteps as [s1 | s1 s2 s3 Hfirst IH Hlast]; [exact Hfault|].
  exact (fault_persists s2 s3 Hlast (IH Hfault)).
Qed.

Lemma ready_without_fault (s : State) :
  causal s -> m_loadingComplete (renderer s) = true -> ~ some_task_faulted s.
Proof.
  unfold causal, some_task_faulted. open_state s.
  intros (Hvs & Hps & Hgs & Hvprt & Hobj & Hready & Hflag) Htrue Hfault.
  specialize (Hobj (Hready (Hflag Htrue))).
  destruct Hobj as (Cvs & Cps & Cgs).
  specialize (Hvs Cvs). specialize (Hps Cps).
  pose proof (Hready (Hflag Htrue)) as Cobj. pose proof (Hflag Htrue) as Crd.
  match goal with
  | v : bool |- _ =>
      match type of Hvprt with
      | v = true -> _ => destruct v
      end
  end.
  - destruct (Hvprt eq_refl) as [Ul Uc].
    intuition (try discriminate; try congruence).
  - specialize (Cgs eq_refl). specialize (Hgs Cgs).
    intuition (try discriminate; try congruence).
Qed.

(** X18.  A failure is final for the load: started with the ready flag
    clear, once any task of the graph has ended by an exception or been
    cancelled, no continuation of the execution ever sets the flag. *)
Theorem fault_is_fatal (supportsVprt : bool) (r : OBJRenderer)
    (s s' : State) :
  m_loadingComplete r = false ->
  steps (CreateDeviceDependentResources supportsVprt r) s ->
  some_task_faulted s ->
  steps s s' ->
  m_loadingComplete (renderer s') = false.
Proof.
  intros Hclear Hreach Hfault Hnext.
  pose proof (causal_steps _ s'
                (causal_initial supportsVprt r Hclear)
                (steps_trans _ _ _ Hreach Hnext)) as Hcausal.
  pose proof (fault_persists_steps s s' Hnext Hfault) as Hfault'.
  destruct (m_loadingComplete (renderer s')) eqn:Hflag; [|reflexivity].
  exfalso. exact (ready_without_fault s' Hcausal Hflag Hfault').
Qed.

Lemma fault_is_fatal_witness :
  m_loadingComplete
    (renderer
       (with_tasks
          (with_tasks (CreateDeviceDependentResources false fresh)
             (set_loadPS (tasks (CreateDeviceDependentResources false fresh))
                Faulted))
          (set_createPS
             (set_loadPS (tasks (CreateDeviceDependentResources false fresh))
                Faulted) Faulted)))
  = false.
Proof.
  apply (fault_is_fatal false fresh
           (with_tasks (CreateDeviceDependentResources false fresh)
              (set_loadPS (tasks (CreateDeviceDependentResources false fresh))
                 Faulted))).
  - reflexivity.
  - eapply steps_step; [apply steps_refl|].
    exact (read_PS (CreateDeviceDependentResources false fresh) false eq_refl).
  - unfold some_task_faulted. cbn. tauto.
  - eapply steps_step; [apply steps_refl|].
    exact (cancel_createPS
             (with_tasks (CreateDeviceDependentResources false fresh)
                (set_loadPS (tasks (CreateDeviceDependentResources false fresh))
                   Faulted)) eq_refl eq_refl).
Defined.

(** X19.  The load can always succeed: from any renderer and with either
    value of the capability there is an execution that finishes every
    scheduled task and sets the ready flag. *)
Theorem ready_is_reachable (supportsVprt : bool) (r : OBJRenderer) :
  exists s,
    steps (CreateDeviceDependentResources supportsVprt r) s
    /\ m_loadingComplete (renderer s) = true
    /\ pending_tasks s = 0%nat
    /\ creation_complete s.
Proof.
  destruct supportsVprt.
  - eexists. split.
    + eapply LifecycleFacts.steps_first; [apply (read_VS _ true); reflexivity|].
      eapply LifecycleFacts.steps_first; [apply (read_PS _ true); reflexivity|].
      eapply LifecycleFacts.steps_first;
        [apply (run_createVS _ true true); reflexivity|].
      eapply LifecycleFacts.steps_first;
        [apply (run_createPS _ true true); reflexivity|].
      eapply LifecycleFacts.steps_first;
        [apply (run_createOBJ _ true true); reflexivity|].
      eapply LifecycleFacts.steps_first; [apply run_ready; reflexivity|].
      apply steps_refl.
    + unfold creation_complete. cbn. repeat split. discriminate.
  - eexists. split.
    + eapply LifecycleFacts.steps_first; [apply (read_VS _ true); reflexivity|].
      eapply LifecycleFacts.steps_first; [apply (read_PS _ true); reflexivity|].
      eapply LifecycleFacts.steps_first; [apply (read_GS _ true); reflexivity|].
      eapply LifecycleFacts.steps_first;
        [apply (run_createVS _ true true); reflexivity|].
      eapply LifecycleFacts.steps_first;
        [apply (run_createPS _ true true); reflexivity|].
      eapply LifecycleFacts.steps_first;
        [apply (run_createGS _ true); reflexivity|].
      eapply LifecycleFacts.steps_first;
        [apply (run_createOBJ _ true true); reflexivity|].
      eapply LifecycleFacts.steps_first; [apply run_ready; reflexivity|].
      apply steps_refl.
    + unfold creation_complete. cbn. repeat split.
Qed.

End LifecycleMore.

Module RendererFacts.
Import Lifecycle.
Import Draw.

Ltac open_state s :=
  destruct s as [[? ? ? ? ? ? ? ? ? ? ?] [? ? ? ? ? ? ? ?]];
  cbn in *.

Lemma step_frame (s s' : State) :
  step s s' ->
  mesh (renderer s') = mesh (renderer s)
  /\ m_usingVprtShaders (renderer s') = m_usingVprtShaders (renderer s)
  /\ (m_loadingComplete (renderer s) = true ->
      m_loadingComplete (renderer s') = true)
  /\ (m_indexCount (renderer s') = m_indexCount (renderer s)
      \/ m_indexCount (renderer s')
         = to_UINT (Z.of_nat (List.length (indices (mesh (renderer s)))))).
Proof.
  intros Hstep. destruct Hstep;
    try destruct ok; try destruct ok1; try destruct ok2;
    open_state s; repeat split; auto.
Qed.



Lemma steps_frame (s s' : State) :
  steps s s' ->
  mesh (renderer s') = mesh (renderer s)
  /\ m_usingVprtShaders (renderer s') = m_usingVprtShaders (renderer s).
Proof.
  induction 1 as [s | s1 s2 s3 Hfirst IH Hlast]; [now split|].
  destruct IH as (Hm & Hv).
  destruct (step_frame s2 s3 Hlast) as (Hm' & Hv' & _).
  split; congruence.
Qed.

(** The calls of a frame drawn with [count] indices. *)
Lemma ready_draw (supportsVprt : bool) (r : OBJRenderer) (s : State)
    (context : list call) :
  m_loadingComplete r = false ->
  steps (CreateDeviceDependentResources supportsVprt r) s ->
  m_loadingComplete (renderer s) = true ->
  Render (renderer s) context
  = context
    ++ [ IASetVertexBuffers 0 1 VertexBuffer 24 0;
         IASetIndexBuffer IndexBuffer DXGI_FORMAT_R32_UINT 0;
         IASetPrimitiveTopology D3D11_PRIMITIVE_TOPOLOGY_TRIANGLELIST;
         IASetInputLayout InputLayout;
         VSSetShader VertexShader;
         VSSetConstantBuffers 0 1 ModelConstantBuffer ]
    ++ (if supportsVprt then [] else [GSSetShader GeometryShader])
    ++ [ PSSetShader PixelShader;
         DrawIndexedInstanced
           (to_UINT (Z.of_nat (List.length (indices (mesh r))))) 2 0 0 0 ].
Proof.
  intros Hclear Hsteps Hflag.
  pose proof (LifecycleFacts.invariant_steps _ s
                (LifecycleFacts.invariant_initial supportsVprt r Hclear)
                Hsteps) as Hinv.
  destruct (LifecycleFacts.invariant_ready s Hinv Hflag) as [_ Hres].
  destruct Hres as (_ & _ & _ & _ & _ & _ & _ & Hcount).
  destruct (steps_frame _ s Hsteps) as [Hmesh Hvprt].
  cbn [CreateDeviceDependentResources renderer mesh m_usingVprtShaders]
    in Hmesh, Hvprt.
  rewrite Hmesh in Hcount.
  unfold Render. rewrite Hflag, Hvprt, Hcount. cbn [negb].
  destruct supportsVprt; cbn [negb]; repeat rewrite <- app_assoc;
    reflexivity.
Qed.

(** X21.  Once a load started with the ready flag clear has set it,
    [Render] draws exactly the parsed index sequence: one indexed draw of
    two instances whose index count is the number of parsed indices (0 for
    an empty mesh), after the bindings, the geometry shader being bound
    exactly when the device lacks the capability. *)
Theorem ready_renderer_draws_parsed_indices (supportsVprt : bool)
    (r : OBJRenderer) (s : State) (context : list call) :
  m_loadingComplete r = false ->
  steps (CreateDeviceDependentResources supportsVprt r) s ->
  m_loadingComplete (renderer s) = true ->
  Render (renderer s) context
  = context
    ++ [ IASetVertexBuffers 0 1 VertexBuffer 24 0;
         IASetIndexBuffer IndexBuffer DXGI_FORMAT_R32_UINT 0;
         IASetPrimitiveTopology D3D11_PRIMITIVE_TOPOLOGY_TRIANGLELIST;
         IASetInputLayout InputLayout;
         VSSetShader VertexShader;
         VSSetConstantBuffers 0 1 ModelConstantBuffer ]
    ++ (if supportsVprt then [] else [GSSetShader GeometryShader])
    ++ [ PSSetShader PixelShader;
         DrawIndexedInstanced
           (to_UINT (Z.of_nat (List.length (indices (mesh r))))) 2 0 0 0 ].
Proof.
  intros Hclear Hsteps Hflag. now apply ready_draw.
Qed.

Lemma ready_renderer_draws_parsed_indices_witness :
  Render (renderer (loaded true)) []
  = []
    ++ [ IASetVertexBuffers 0 1 VertexBuffer 24 0;
         IASetIndexBuffer IndexBuffer DXGI_FORMAT_R32_UINT 0;
         IASetPrimitiveTopology D3D11_PRIMITIVE_TOPOLOGY_TRIANGLELIST;
         IASetInputLayout InputLayout;
         VSSetShader VertexShader;
         VSSetConstantBuffers 0 1 ModelConstantBuffer ]
    ++ []
    ++ [ PSSetShader PixelShader;
         DrawIndexedInstanced
           (to_UINT (Z.of_nat (List.length (indices (mesh fresh))))) 2 0 0 0 ].
Proof.
  exact (ready_renderer_draws_parsed_indices true fresh (loaded true) []
           eq_refl LifecycleFacts.run_with_vprt eq_refl).
Defined.

Lemma step_without_geometry_shader (s s' : State) :
  step s s' ->
  m_usingVprtShaders (renderer s) = true ->
  loadGSTask (tasks s) = Unassigned ->
  createGSTask (tasks s) = Unassigned ->
  loadGSTask (tasks s') = Unassigned
  /\ createGSTask (tasks s') = Unassigned
  /\ m_geometryShader (renderer s') = m_geometryShader (renderer s).
Proof.
  intros Hstep Hvprt Hload Hcreate. destruct Hstep;
    try destruct ok; try destruct ok1; try destruct ok2;
    open_state s; subst; repeat split; auto; try discriminate;
    congruence.
Qed.

(** X22.  On a device with the capability the geometry shader plays no
    part: its two tasks are never scheduled, no execution creates or
    changes the geometry-shader member, and [Render] never binds it. *)
Theorem capability_skips_geometry_shader (r : OBJRenderer) (s : State) :
  steps (CreateDeviceDependentResources true r) s ->
  loadGSTask (tasks s) = Unassigned
  /\ createGSTask (tasks s) = Unassigned
  /\ m_geometryShader (renderer s) = m_geometryShader r
  /\ forall context,
       existsb is_GSSetShader (Render (renderer s) context)
       = existsb is_GSSetShader context.
Proof.
  intros Hsteps.
  assert (Hinv : loadGSTask (tasks s) = Unassigned
                 /\ createGSTask (tasks s) = Unassigned
                 /\ m_geometryShader (renderer s) = m_geometryShader r).
  { remember (CreateDeviceDependentResources true r) as s0 eqn:Hs0.
    induction Hsteps as [s | s1 s2 s3 Hfirst IH Hlast].
    - subst s. now repeat split.
    - destruct (IH Hs0) as (Hl & Hc & Hg).
      destruct (steps_frame s1 s2 Hfirst) as [_ Hv]. subst s1.
      cbn [CreateDeviceDependentResources renderer m_usingVprtShaders] in Hv.
      destruct (step_without_geometry_shader s2 s3 Hlast Hv Hl Hc)
        as (Hl' & Hc' & Hg').
      repeat split; auto. congruence. }
  destruct Hinv as (Hl & Hc & Hg). repeat split; auto.
  intros context.
  destruct (steps_frame _ s Hsteps) as [_ Hv].
  cbn [CreateDeviceDependentResources renderer m_usingVprtShaders] in Hv.
  unfold Render. rewrite Hv. cbn [negb].
  destruct (m_loadingComplete (renderer s)); cbn [negb]; [|reflexivity].
  rewrite !existsb_app. cbn [existsb is_GSSetShader].
  now rewrite !orb_false_r.
Qed.

Lemma capability_skips_geometry_shader_witness :
  loadGSTask (tasks (loaded true)) = Unassigned
  /\ createGSTask (tasks (loaded true)) = Unassigned
  /\ m_geometryShader (renderer (loaded true)) = m_geometryShader fresh
  /\ forall context,
       existsb is_GSSetShader (Render (renderer (loaded true)) context)
       = existsb is_GSSetShader context.
Proof.
  exact (capability_skips_geometry_shader fresh (loaded true)
           LifecycleFacts.run_with_vprt).
Defined.

(** X23.  Constructed on a file that could not be opened, with empty
    containers and the ready flag clear, the renderer is built with an
    empty mesh and its load is started; whenever that load sets the ready
    flag, [Render] submits a draw of 0 indices and two instances. *)
Theorem ctor_on_unopened_file (stof_spec : string -> exn + FLOAT)
    (indeterminate : XMFLOAT3) (members : OBJRenderer) (supportsVprt : bool)
    (input : ifstream) :
  is_open input = false ->
  mesh members = empty_mesh ->
  m_loadingComplete members = false ->
  exists s0,
    OBJRenderer_ctor stof_spec indeterminate members supportsVprt input
    = Returned s0
    /\ mesh (renderer s0) = empty_mesh
    /\ m_loadingComplete (renderer s0) = false
    /\ forall s context,
         steps s0 s ->
         m_loadingComplete (renderer s) = true ->
         In (DrawIndexedInstanced 0 2 0 0 0) (Render (renderer s) context).
Proof.
  intros Hclosed Hmesh Hclear. unfold OBJRenderer_ctor, parseOBJ.
  rewrite Hclosed. cbn [negb bind]. eexists. split; [reflexivity|].
  cbn [CreateDeviceDependentResources renderer with_mesh mesh
       m_loadingComplete].
  repeat split; auto.
  intros s context Hsteps Hflag.
  rewrite (ready_draw supportsVprt (with_mesh members (mesh members)) s
             context Hclear Hsteps Hflag).
  cbn [with_mesh mesh]. rewrite Hmesh. cbn [empty_mesh indices List.length].
  apply in_or_app. right. apply in_or_app. right. apply in_or_app. right.
  right. now left.
Qed.

Lemma ctor_on_unopened_file_witness :
  exists s0,
    OBJRenderer_ctor decimal_stof garbage
      (with_mesh fresh empty_mesh) true closed_stream
    = Returned s0
    /\ mesh (renderer s0) = empty_mesh
    /\ m_loadingComplete (renderer s0) = false
    /\ forall s context,
         steps s0 s ->
         m_loadingComplete (renderer s) = true ->
         In (DrawIndexedInstanced 0 2 0 0 0) (Render (renderer s) context).
Proof.
  exact (ctor_on_unopened_file decimal_stof garbage
           (with_mesh fresh empty_mesh) true closed_stream
           eq_refl eq_refl eq_refl).
Defined.

End RendererFacts.

(* ===================================================================== *)
(** * Further properties of the loader: stored values *)
(* ===================================================================== *)

Section StoredValues.

Variable stof_spec : string -> exn + FLOAT.
Variable indeterminate : XMFLOAT3.

Lemma face_index_is_UINT (rec : list string) (i : nat) (v : Z) :
  face_index rec i = Returned v -> is_UINT v.
Proof.
  unfold face_index.
  destruct (subscript rec i) as [t| |]; cbn [bind]; [|discriminate..].
  destruct (stoi (before_first slash t)) as [n| |]; cbn [bind];
    [|discriminate..].
  intros [= <-]. unfold UINT_sub, is_UINT, UINT_MAX.
  pose proof (Z.mod_pos_bound (to_UINT n - 1) (2 ^ 32) eq_refl). lia.
Qed.

Lemma parse_line_keeps_UINT (line : string) (m m' : Mesh) :
  parse_line stof_spec indeterminate line m = Returned m' ->
  Forall is_UINT (indices m) -> Forall is_UINT (indices m').
Proof.
  intros Hline Hall.
  destruct (record_of line) as [rec|] eqn:Hrec.
  - rewrite (parse_line_record stof_spec indeterminate line rec m Hrec)
      in Hline.
    destruct rec as [|tag rest]; [now injection Hline as <-|].
    destruct (String.eqb tag vn_tag).
    + destruct (vn_record_effect _ _ _ _ _ Hline) as [-> _]. exact Hall.
    + destruct (String.eqb tag v_tag).
      * destruct (v_record_effect _ _ _ _ Hline) as [-> _]. exact Hall.
      * destruct (String.eqb tag f_tag); [|now injection Hline as <-].
        unfold f_record in Hline.
        destruct (Nat.eqb (List.length (tag :: rest)) 4); cbn [negb] in Hline;
          [|now injection Hline as <-].
        destruct (face_index (tag :: rest) 1) as [v1| |] eqn:H1;
          [|discriminate Hline..].
        destruct (face_index (tag :: rest) 2) as [v2| |] eqn:H2;
          [|discriminate Hline..].
        destruct (face_index (tag :: rest) 3) as [v3| |] eqn:H3;
          [|discriminate Hline..].
        cbn [bind] in Hline. injection Hline as <-. cbn [indices].
        repeat (apply Forall_app; split); auto;
          repeat constructor; eapply face_index_is_UINT; eassumption.
  - rewrite (parse_line_skipped stof_spec indeterminate line m Hrec) in Hline.
    now injection Hline as <-.
Qed.

Lemma read_records_keep_UINT (lines : list string) :
  forall m m',
    read_records stof_spec indeterminate lines m = Returned m' ->
    Forall is_UINT (indices m) -> Forall is_UINT (indices m').
Proof.
  induction lines as [|line rest IH]; intros m m'.
  - now intros [= <-].
  - cbn [read_records].
    destruct (parse_line stof_spec indeterminate line m) as [m1| |] eqn:Hline;
      cbn [bind]; [|discriminate..].
    intros Hrest Hall.
    exact (IH m1 m' Hrest (parse_line_keeps_UINT line m m1 Hline Hall)).
Qed.

Lemma v_line_result (line tx ty tz : string) (px py pz : FLOAT)
    (front : list VertexPositionColor) (last : VertexPositionColor)
    (m : Mesh) :
  record_of line = Some [v_tag; tx; ty; tz] ->
  stof_spec tx = inr px -> stof_spec ty = inr py -> stof_spec tz = inr pz ->
  vertices m = front ++ [last] ->
  parse_line stof_spec indeterminate line m
  = Returned {| vertices :=
                  front ++ [{| pos := {| x := px; y := py; z := pz |};
                               color := color last |}];
                indices := indices m |}.
Proof.
  intros Hrec Hx Hy Hz Hvs.
  rewrite (parse_line_record stof_spec indeterminate line _ m Hrec).
  change (String.eqb v_tag vn_tag) with false.
  change (String.eqb v_tag v_tag) with true. cbv iota.
  unfold v_record, stof_at, stof.
  cbn [List.length Nat.eqb negb andb subscript nth_error bind].
  rewrite Hx, Hy, Hz. cbn [bind]. rewrite Hvs, set_back_pos_app.
  reflexivity.
Qed.

End StoredValues.

(** X24.  Every index [parseOBJ] stores is a [UINT] value: if the indices
    it starts with lie from 0 to 4294967295, so do those it returns,
    whatever the references read (zero and negative ones wrap). *)
Theorem stored_indices_are_UINT (stof_spec : string -> exn + FLOAT)
    (indeterminate : XMFLOAT3) (input : ifstream) (m m' : Mesh) :
  parseOBJ stof_spec indeterminate input m = Returned m' ->
  Forall is_UINT (indices m) ->
  Forall is_UINT (indices m').
Proof.
  unfold parseOBJ.
  destruct (is_open input); cbn [negb]; [|now intros [= <-]].
  destruct (read_records stof_spec indeterminate
              (getlines newline (content input)) m) as [m1| |] eqn:Hread;
    cbn [bind]; [|discriminate..].
  destruct (normalize (vertices m1)) as [vs| |]; cbn [bind];
    [|discriminate..].
  intros [= <-] Hall. cbn [indices].
  exact (read_records_keep_UINT stof_spec indeterminate _ m m1 Hread Hall).
Qed.

Lemma stored_indices_are_UINT_witness :
  exists m',
    parseOBJ decimal_stof garbage
      (open_stream (join_lines newline
                      ["vn 0 0 1"; "v 1 2 3"; "f 0 -5 2/2"]%string))
      empty_mesh
    = Returned m'
    /\ Forall is_UINT (indices m').
Proof.
  eexists. split; [vm_compute; reflexivity|].
  apply (stored_indices_are_UINT decimal_stof garbage
           (open_stream (join_lines newline
                           ["vn 0 0 1"; "v 1 2 3"; "f 0 -5 2/2"]%string))
           empty_mesh).
  - vm_compute. reflexivity.
  - constructor.
Defined.

(** X25.  Of two [v] records in a row whose fields convert, the second
    wins: read one after the other on a non-empty vertex sequence they
    leave what the second alone leaves, the first position being lost. *)
Theorem later_v_line_wins (stof_spec : string -> exn + FLOAT)
    (indeterminate : XMFLOAT3) (l1 l2 tx1 ty1 tz1 tx2 ty2 tz2 : string)
    (m : Mesh) :
  record_of l1 = Some [v_tag; tx1; ty1; tz1] ->
  record_of l2 = Some [v_tag; tx2; ty2; tz2] ->
  Forall (fun t => exists f, stof_spec t = inr f)
    [tx1; ty1; tz1; tx2; ty2; tz2] ->
  vertices m <> [] ->
  read_records stof_spec indeterminate [l1; l2] m
  = read_records stof_spec indeterminate [l2] m.
Proof.
  intros H1 H2 Hconv Hne.
  destruct (exists_last Hne) as (front & last & Hvs).
  rewrite Forall_forall in Hconv.
  destruct (Hconv tx1 ltac:(cbn; tauto)) as [a1 Ha1].
  destruct (Hconv ty1 ltac:(cbn; tauto)) as [b1 Hb1].
  destruct (Hconv tz1 ltac:(cbn; tauto)) as [c1 Hc1].
  destruct (Hconv tx2 ltac:(cbn; tauto)) as [a2 Ha2].
  destruct (Hconv ty2 ltac:(cbn; tauto)) as [b2 Hb2].
  destruct (Hconv tz2 ltac:(cbn; tauto)) as [c2 Hc2].
  cbn [read_records].
  rewrite (v_line_result stof_spec indeterminate l1 tx1 ty1 tz1 a1 b1 c1
             front last m H1 Ha1 Hb1 Hc1 Hvs).
  cbn [bind].
  rewrite (v_line_result stof_spec indeterminate l2 tx2 ty2 tz2 a2 b2 c2
             front
             {| pos := {| x := a1; y := b1; z := c1 |}; color := color last |}
             {| vertices :=
                  front ++ [{| pos := {| x := a1; y := b1; z := c1 |};
                               color := color last |}];
                indices := indices m |}
             H2 Ha2 Hb2 Hc2 eq_refl).
  rewrite (v_line_result stof_spec indeterminate l2 tx2 ty2 tz2 a2 b2 c2
             front last m H2 Ha2 Hb2 Hc2 Hvs).
  reflexivity.
Qed.

Lemma later_v_line_wins_witness :
  read_records decimal_stof garbage ["v 9 9 9"; "v 1 2 3"]%string
    {| vertices := [vertex_at 0 0 0]; indices := [] |}
  = read_records decimal_stof garbage ["v 1 2 3"]%string
      {| vertices := [vertex_at 0 0 0]; indices := [] |}.
Proof.
  apply (later_v_line_wins decimal_stof garbage "v 9 9 9"%string
           "v 1 2 3"%string "9"%string "9"%string "9"%string
           "1"%string "2"%string "3"%string
           {| vertices := [vertex_at 0 0 0]; indices := [] |}
           eq_refl eq_refl).
  - repeat constructor; eexists; vm_compute; reflexivity.
  - discriminate.
Defined.
